(** * Agricultural_crawler: orchestration core

    A shallow embedding of the crawler's orchestration code and the
    properties its specification states about it:

    - [Ratelimit]  : utils/ratelimit (token bucket [Limiter]);
    - [Checkpoint] : utils/checkpoint/checkpoint.go ([Manager]);
    - [ProxyPool]  : crawler/proxy.go ([ProxyPool]);
    - [Crawl]      : the main package ([Crawler], pagination loops, [Start]);
    - [CheckpointCalls], [RatelimitRuns] : runs of calls on a manager and
      on a limiter;
    - [ProxyPoolMore] : the rest of crawler/proxy.go (validation, import,
      the proxy file and the lock);
    - [ProxyRotation] : utils/proxy/proxy.go (the rotating proxy list);
    - [CrawlRuns]  : the rest of the main package ([worker], [main]).

    Conventions.  A Go [int] / [int64] / [time.Duration] is a [Z] with the
    64-bit wrap-around written out ([GoInt.wrap]).  A [time.Time] is a [Z]
    count of nanoseconds on the monotonic clock; each reading of the clock
    ([time.Now()], [time.Since]) is an explicit argument of the function that
    performs it.  A Go [string] is a [string] (a sequence of bytes).  A
    [float64] is a [spec_float] of the Standard Library at precision 53.  Logging
    calls have no effect on the modelled state and are left out. *)

From Stdlib Require Import ZArith Lia Bool List Ascii SpecFloat DecimalString.
From stdpp Require Import gmap strings list sorting.

Local Open Scope Z_scope.

(** ** Go machine integers *)

Module GoInt.

Definition min_int : Z := - 2 ^ 63.
Definition max_int : Z := 2 ^ 63 - 1.

(** Two's complement reduction of a mathematical integer to 64 bits. *)
Definition wrap (z : Z) : Z := Z.modulo (z + 2 ^ 63) (2 ^ 64) - 2 ^ 63.

Definition add (a b : Z) : Z := wrap (a + b).
Definition sub (a b : Z) : Z := wrap (a - b).
Definition mul (a b : Z) : Z := wrap (a * b).

(** Go's [/] truncates toward zero and panics on a zero divisor. *)
Definition quot (a b : Z) : option Z :=
  if b =? 0 then None else Some (wrap (Z.quot a b)).

(** [Time.Sub] saturates at the extreme durations instead of wrapping. *)
Definition saturate (z : Z) : Z := Z.max min_int (Z.min max_int z).

Definition in_range (z : Z) : Prop := min_int <= z <= max_int.

End GoInt.

(** ** float64 *)

Module GoFloat.

(** IEEE 754 binary64 with rounding to nearest, ties to even, as the
    Standard Library specifies it ([SpecFloat]). *)
Definition prec : Z := 53.
Definition emax : Z := 1024.

(** [float64(z)] for an integer [z]. *)
Definition of_int (z : Z) : spec_float := binary_normalize prec emax z 0 false.

Definition add (x y : spec_float) : spec_float := SFadd prec emax x y.
Definition div (x y : spec_float) : spec_float := SFdiv prec emax x y.
Definition leb (x y : spec_float) : bool := SFleb x y.
Definition ltb (x y : spec_float) : bool := SFltb x y.

End GoFloat.

(** ** Readings of [time] *)

Module GoTime.

Definition Nanosecond : Z := 1.
Definition Second : Z := 1000000000.
Definition Minute : Z := 60 * Second.

(** [time.Since(t)] read at instant [now]. *)
Definition Since (now t : Z) : Z := GoInt.saturate (now - t).

(** [t.Add(d)]. *)
Definition Add (t d : Z) : Z := t + d.

(** [d.Seconds()]: [float64(d / Second) + float64(d % Second) / 1e9]. *)
Definition Seconds (d : Z) : spec_float :=
  GoFloat.add (GoFloat.of_int (Z.quot d Second))
    (GoFloat.div (GoFloat.of_int (Z.rem d Second)) (GoFloat.of_int 1000000000)).

End GoTime.

(** ** utils/ratelimit *)

Module Ratelimit.

Record Config := mkConfig {
  Enabled : bool;
  RequestsPerMinute : Z
}.

(** The [mutex] field is left out: within [Wait] every [Lock] is matched by
    an [Unlock] and the lock is never taken twice by one caller. *)
Record Limiter := mkLimiter {
  enabled : bool;
  requestsPerMinute : Z;
  interval : Z;
  tokens : Z;
  lastRefill : Z
}.

Definition min (a b : Z) : Z := if a <? b then a else b.

Definition NewLimiter (config : Config) (now : Z) : Limiter :=
  let requestsPerMinute :=
    if RequestsPerMinute config <=? 0 then 60 else RequestsPerMinute config in
  let interval :=
    match GoInt.quot GoTime.Minute requestsPerMinute with
    | Some q => q
    | None => 0 (* unreachable: requestsPerMinute is positive here *)
    end in
  {| enabled := Enabled config;
     requestsPerMinute := requestsPerMinute;
     interval := interval;
     tokens := requestsPerMinute;
     lastRefill := now |}.

(** The lazy refill at the head of [Wait] (lines 52-62).  [None] is the
    run-time panic of the integer division when [interval] is zero. *)
Definition refill (now : Z) (l : Limiter) : option Limiter :=
  let elapsed := GoTime.Since now (lastRefill l) in
  match GoInt.quot elapsed (interval l) with
  | None => None
  | Some tokensToAdd =>
      if tokensToAdd >? 0 then
        Some {| enabled := enabled l;
                requestsPerMinute := requestsPerMinute l;
                interval := interval l;
                tokens := min (requestsPerMinute l)
                              (GoInt.add (tokens l) tokensToAdd);
                lastRefill := GoTime.Add (lastRefill l)
                                (GoInt.mul tokensToAdd (interval l)) |}
      else Some l
  end.

(** The empty-bucket branch (lines 65-77): returns the limiter and the
    duration handed to [time.Sleep] (zero when no sleep happens).  [now2]
    is the clock read by [time.Since], [now3] the one read by [time.Now()]
    after the sleep. *)
Definition await (now2 now3 : Z) (l : Limiter) : Limiter * Z :=
  if tokens l <=? 0 then
    let waitTime := GoInt.sub (interval l) (GoTime.Since now2 (lastRefill l)) in
    ({| enabled := enabled l;
        requestsPerMinute := requestsPerMinute l;
        interval := interval l;
        tokens := 1;
        lastRefill := now3 |},
     if waitTime >? 0 then waitTime else 0)
  else (l, 0).

Definition consume (l : Limiter) : Limiter :=
  {| enabled := enabled l;
     requestsPerMinute := requestsPerMinute l;
     interval := interval l;
     tokens := GoInt.sub (tokens l) 1;
     lastRefill := lastRefill l |}.

(** [Wait], run by one caller at a time.  The result is the limiter after
    the call and the time slept; [None] is a panic. *)
Definition Wait (now1 now2 now3 : Z) (l : Limiter) : option (Limiter * Z) :=
  if negb (enabled l) then Some (l, 0)
  else
    match refill now1 l with
    | None => None
    | Some l1 =>
        let '(l2, slept) := await now2 now3 l1 in
        Some (consume l2, slept)
    end.

(** The invariant of the data model: [tokens ∈ [0, capacity]]. *)
Definition tokens_ok (l : Limiter) : Prop :=
  0 <= tokens l <= requestsPerMinute l.

End Ratelimit.

(** ** utils/checkpoint/checkpoint.go *)

Module Checkpoint.

Record Stats := mkStats {
  TotalUsers : Z;
  TotalVideos : Z;
  TotalComments : Z;
  TotalProducts : Z
}.

(** A Go map with string keys.  [None] is the nil map: it reads as an
    empty map, and an assignment to one of its entries panics.  [make]
    gives [Some ∅].  [NewManager] allocates the four maps of [Data]; [Load]
    installs the record [json.Unmarshal] decoded, in which a map the
    snapshot does not mention is nil. *)
Definition gomap (V : Type) : Type := option (gmap string V).

Definition entries {V} (s : gomap V) : gmap string V := default ∅ s.

(** [s[k] = v]; [None] is the panic. *)
Definition assign {V} (k : string) (v : V) (s : gomap V) : option (gomap V) :=
  match s with
  | Some g => Some (Some (<[k := v]> g))
  | None => None
  end.

Record Data := mkData {
  Platform : string;
  StartTime : Z;
  LastUpdateTime : Z;
  ProcessedUsers : gomap bool;
  ProcessedVideos : gomap bool;
  UserCursors : gomap string;
  CommentCursors : gomap string;
  stats : Stats
}.

Record Config := mkConfig {
  Enabled : bool;
  Interval : Z;
  File : string
}.

(** [mutex] is [true] while the [sync.Mutex] is held.  A [sync.Mutex] is
    not reentrant: [Lock] on a held mutex blocks until somebody else
    releases it. *)
Record Manager := mkManager {
  enabled : bool;
  interval : Z;
  file : string;
  data : Data;
  mutex : bool;
  lastSave : Z
}.

Definition set_data (d : Data) (m : Manager) : Manager :=
  mkManager (enabled m) (interval m) (file m) d (mutex m) (lastSave m).
Definition set_mutex (b : bool) (m : Manager) : Manager :=
  mkManager (enabled m) (interval m) (file m) (data m) b (lastSave m).
Definition set_lastSave (t : Z) (m : Manager) : Manager :=
  mkManager (enabled m) (interval m) (file m) (data m) (mutex m) t.

Definition set_Platform (p : string) (d : Data) : Data :=
  mkData p (StartTime d) (LastUpdateTime d) (ProcessedUsers d)
    (ProcessedVideos d) (UserCursors d) (CommentCursors d) (stats d).
Definition set_LastUpdateTime (t : Z) (d : Data) : Data :=
  mkData (Platform d) (StartTime d) t (ProcessedUsers d)
    (ProcessedVideos d) (UserCursors d) (CommentCursors d) (stats d).
Definition set_ProcessedUsers (s : gomap bool) (d : Data) : Data :=
  mkData (Platform d) (StartTime d) (LastUpdateTime d) s
    (ProcessedVideos d) (UserCursors d) (CommentCursors d) (stats d).
Definition set_ProcessedVideos (s : gomap bool) (d : Data) : Data :=
  mkData (Platform d) (StartTime d) (LastUpdateTime d) (ProcessedUsers d)
    s (UserCursors d) (CommentCursors d) (stats d).
Definition set_UserCursors (c : gomap string) (d : Data) : Data :=
  mkData (Platform d) (StartTime d) (LastUpdateTime d) (ProcessedUsers d)
    (ProcessedVideos d) c (CommentCursors d) (stats d).
Definition set_CommentCursors (c : gomap string) (d : Data) : Data :=
  mkData (Platform d) (StartTime d) (LastUpdateTime d) (ProcessedUsers d)
    (ProcessedVideos d) (UserCursors d) c (stats d).
Definition set_stats (s : Stats) (d : Data) : Data :=
  mkData (Platform d) (StartTime d) (LastUpdateTime d) (ProcessedUsers d)
    (ProcessedVideos d) (UserCursors d) (CommentCursors d) s.

(** Reading a Go map at an absent key, or reading a nil map, gives the
    zero value. *)
Definition bool_at (s : gomap bool) (k : string) : bool :=
  default false (entries s !! k).
Definition string_at (c : gomap string) (k : string) : string :=
  default EmptyString (entries c !! k).

(** [NewManager]; [started], [updated] and [saved] are the clock as its
    three [time.Now()] read it, in this order. *)
Definition NewManager (config : Config) (started updated saved : Z) : Manager :=
  {| enabled := Enabled config;
     interval := Interval config;
     file := File config;
     data := {| Platform := EmptyString;
                StartTime := started;
                LastUpdateTime := updated;
                ProcessedUsers := Some ∅;
                ProcessedVideos := Some ∅;
                UserCursors := Some ∅;
                CommentCursors := Some ∅;
                stats := mkStats 0 0 0 0 |};
     mutex := false;
     lastSave := saved |}.

(** [time.Since(t).Seconds() >= float64(interval)] for [elapsed =
    time.Since(t)], in float64 arithmetic. *)
Definition reached (interval elapsed : Z) : bool :=
  GoFloat.leb (GoFloat.of_int interval) (GoTime.Seconds elapsed).

(** The test of [CheckSave], with the clock read as [now]. *)
Definition due (now : Z) (m : Manager) : bool :=
  reached (interval m) (GoTime.Since now (lastSave m)).

Section WithFiles.

(** The contents of a file, and the two calls into [encoding/json]
    ([json.MarshalIndent] on a [*Data], [json.Unmarshal] into a [Data]);
    [None] is an error result. *)
Context {Bytes : Type}.
Variable marshal : Data -> option Bytes.
Variable unmarshal : Bytes -> option Data.

(** The files on disk, by path.  [os.WriteFile] and [os.ReadFile] are
    taken to succeed (the former always, the latter on a file that
    exists). *)
Abbreviation Files := (gmap string Bytes).

(** How a method call ends: it returns [a]; or the calling goroutine is
    parked forever in [Lock] on a mutex that nobody will release; or it
    panics (an assignment to an entry of a nil map).  All three carry the
    manager and the files as the call left them. *)
Inductive Outcome (A : Type) : Type :=
| Returned (a : A) (m : Manager) (fs : Files)
| Blocked (m : Manager) (fs : Files)
| Panicked (m : Manager) (fs : Files).
Arguments Returned {A} a m fs.
Arguments Blocked {A} m fs.
Arguments Panicked {A} m fs.

Definition out_manager {A} (o : Outcome A) : Manager :=
  match o with
  | Returned _ m _ => m
  | Blocked m _ => m
  | Panicked m _ => m
  end.
Definition out_files {A} (o : Outcome A) : Files :=
  match o with
  | Returned _ _ fs => fs
  | Blocked _ fs => fs
  | Panicked _ fs => fs
  end.

(** Method bodies: state passing over the manager and the files. *)
Definition M (A : Type) : Type := Manager -> Files -> Outcome A.

Definition ret {A} (a : A) : M A := fun m fs => Returned a m fs.
Definition bind {A B} (c : M A) (k : A -> M B) : M B :=
  fun m fs =>
    match c m fs with
    | Returned a m' fs' => k a m' fs'
    | Blocked m' fs' => Blocked m' fs'
    | Panicked m' fs' => Panicked m' fs'
    end.
Definition Lock : M unit :=
  fun m fs => if mutex m then Blocked m fs else Returned tt (set_mutex true m) fs.
Definition modify_data (f : Data -> Data) : M unit :=
  fun m fs => Returned tt (set_data (f (data m)) m) fs.
(** A statement that assigns to an entry of a map of [m.data]. *)
Definition assign_data (f : Data -> option Data) : M unit :=
  fun m fs =>
    match f (data m) with
    | Some d => Returned tt (set_data d m) fs
    | None => Panicked m fs
    end.
Definition get {A} (f : Manager -> A) : M A :=
  fun m fs => Returned (f m) m fs.
Definition set_lastSave_now (now : Z) : M unit :=
  fun m fs => Returned tt (set_lastSave now m) fs.
Definition WriteFile (path : string) (bs : Bytes) : M unit :=
  fun m fs => Returned tt m (<[path := bs]> fs).
Definition ReadFile (path : string) : M (option Bytes) :=
  fun m fs => Returned (fs !! path) m fs.

Notation "'do' x <- c ; k" := (bind c (fun x => k))
  (at level 10, x name, c at level 100, k at level 200).
Notation "'run' c ; k" := (bind c (fun _ => k))
  (at level 10, c at level 100, k at level 200).

(** [m.mutex.Lock(); defer m.mutex.Unlock(); body].  The deferred
    [Unlock] runs when [body] returns and when it panics. *)
Definition locked {A} (body : M A) : M A :=
  fun m fs =>
    match Lock m fs with
    | Returned _ m1 fs1 =>
        match body m1 fs1 with
        | Returned a m2 fs2 => Returned a (set_mutex false m2) fs2
        | Blocked m2 fs2 => Blocked m2 fs2
        | Panicked m2 fs2 => Panicked (set_mutex false m2) fs2
        end
    | Blocked m1 fs1 => Blocked m1 fs1
    | Panicked m1 fs1 => Panicked m1 fs1
    end.

(** An [error] result: [None] is [nil]. *)
Inductive error := ErrParse | ErrMarshal.

Definition Load : M (option error) :=
  fun m fs =>
    if negb (enabled m) then ret None m fs
    else locked
      (do contents <- ReadFile (file m);
       match contents with
       | None => ret None (* os.IsNotExist: start from the empty state *)
       | Some bytes =>
           match unmarshal bytes with
           | None => ret (Some ErrParse)
           | Some checkpointData =>
               run modify_data (fun _ => checkpointData); ret None
           end
       end) m fs.

(** [Save]; [updated] and [saved] are the clock as its two [time.Now()]
    read it, in this order. *)
Definition Save (updated saved : Z) : M (option error) :=
  fun m fs =>
    if negb (enabled m) then ret None m fs
    else locked
      (run modify_data (set_LastUpdateTime updated);
       do d <- get data;
       match marshal d with
       | None => ret (Some ErrMarshal)
       | Some bytes =>
           run WriteFile (file m) bytes;
           run set_lastSave_now saved;
           ret None
       end) m fs.

(** [CheckSave]; [now] is the clock as [time.Since] reads it, [updated]
    and [saved] are the readings of the [Save] it may call. *)
Definition CheckSave (now updated saved : Z) : M (option error) :=
  fun m fs =>
    if negb (enabled m) || (interval m <=? 0) then ret None m fs
    else if due now m then Save updated saved m fs
    else ret None m fs.

Definition SetPlatform (platform : string) : M unit :=
  fun m fs =>
    if negb (enabled m) then ret tt m fs
    else locked (modify_data (set_Platform platform)) m fs.

Definition incr_users (d : Data) : Data :=
  let s := stats d in
  set_stats (mkStats (GoInt.add (TotalUsers s) 1) (TotalVideos s)
               (TotalComments s) (TotalProducts s)) d.
Definition incr_videos (d : Data) : Data :=
  let s := stats d in
  set_stats (mkStats (TotalUsers s) (GoInt.add (TotalVideos s) 1)
               (TotalComments s) (TotalProducts s)) d.
Definition incr_comments (d : Data) : Data :=
  let s := stats d in
  set_stats (mkStats (TotalUsers s) (TotalVideos s)
               (GoInt.add (TotalComments s) 1) (TotalProducts s)) d.
Definition incr_products (d : Data) : Data :=
  let s := stats d in
  set_stats (mkStats (TotalUsers s) (TotalVideos s)
               (TotalComments s) (GoInt.add (TotalProducts s) 1)) d.

(** [m.data.ProcessedUsers[userID] = true] and its three siblings. *)
Definition mark_user (userID : string) (d : Data) : option Data :=
  option_map (fun s => set_ProcessedUsers s d) (assign userID true (ProcessedUsers d)).
Definition mark_video (videoID : string) (d : Data) : option Data :=
  option_map (fun s => set_ProcessedVideos s d) (assign videoID true (ProcessedVideos d)).
Definition store_user_cursor (userID cursor : string) (d : Data) : option Data :=
  option_map (fun c => set_UserCursors c d) (assign userID cursor (UserCursors d)).
Definition store_comment_cursor (videoID cursor : string) (d : Data) : option Data :=
  option_map (fun c => set_CommentCursors c d) (assign videoID cursor (CommentCursors d)).

Definition MarkUserProcessed (now updated saved : Z) (userID : string) : M unit :=
  fun m fs =>
    if negb (enabled m) then ret tt m fs
    else locked
      (run assign_data (mark_user userID);
       run modify_data incr_users;
       run CheckSave now updated saved;
       ret tt) m fs.

Definition IsUserProcessed (userID : string) : M bool :=
  fun m fs =>
    if negb (enabled m) then ret false m fs
    else locked (get (fun m => bool_at (ProcessedUsers (data m)) userID)) m fs.

Definition MarkVideoProcessed (now updated saved : Z) (videoID : string) : M unit :=
  fun m fs =>
    if negb (enabled m) then ret tt m fs
    else locked
      (run assign_data (mark_video videoID);
       run modify_data incr_videos;
       run CheckSave now updated saved;
       ret tt) m fs.

Definition IsVideoProcessed (videoID : string) : M bool :=
  fun m fs =>
    if negb (enabled m) then ret false m fs
    else locked (get (fun m => bool_at (ProcessedVideos (data m)) videoID)) m fs.

Definition SetUserCursor (userID cursor : string) : M unit :=
  fun m fs =>
    if negb (enabled m) then ret tt m fs
    else locked (assign_data (store_user_cursor userID cursor)) m fs.

Definition GetUserCursor (userID : string) : M string :=
  fun m fs =>
    if negb (enabled m) then ret EmptyString m fs
    else locked (get (fun m => string_at (UserCursors (data m)) userID)) m fs.

Definition SetCommentCursor (videoID cursor : string) : M unit :=
  fun m fs =>
    if negb (enabled m) then ret tt m fs
    else locked (assign_data (store_comment_cursor videoID cursor)) m fs.

Definition GetCommentCursor (videoID : string) : M string :=
  fun m fs =>
    if negb (enabled m) then ret EmptyString m fs
    else locked (get (fun m => string_at (CommentCursors (data m)) videoID)) m fs.

Definition IncrementCommentCount : M unit :=
  fun m fs =>
    if negb (enabled m) then ret tt m fs
    else locked (modify_data incr_comments) m fs.

Definition IncrementProductCount : M unit :=
  fun m fs =>
    if negb (enabled m) then ret tt m fs
    else locked (modify_data incr_products) m fs.

Definition GetStats : M Stats :=
  fun m fs =>
    if negb (enabled m) then ret (mkStats 0 0 0 0) m fs
    else locked (get (fun m => stats (data m))) m fs.

(** The manager inside [MarkUserProcessed], after the two assignments and
    before [CheckSave]: the mutex is held. *)
Definition marked_user (userID : string) (m : Manager) : Manager :=
  set_data (incr_users
              (set_ProcessedUsers
                 (Some (<[userID := true]> (entries (ProcessedUsers (data m)))))
                 (data m)))
    (set_mutex true m).

Definition marked_video (videoID : string) (m : Manager) : Manager :=
  set_data (incr_videos
              (set_ProcessedVideos
                 (Some (<[videoID := true]> (entries (ProcessedVideos (data m)))))
                 (data m)))
    (set_mutex true m).

(** The fields a resumed crawl relies on: the two processed-sets, the two
    cursor maps and the counters. *)
Definition same_progress (d d' : Data) : Prop :=
  ProcessedUsers d = ProcessedUsers d' /\
  ProcessedVideos d = ProcessedVideos d' /\
  UserCursors d = UserCursors d' /\
  CommentCursors d = CommentCursors d' /\
  stats d = stats d'.

End WithFiles.

Arguments Returned {Bytes A} a m fs.
Arguments Blocked {Bytes A} m fs.
Arguments Panicked {Bytes A} m fs.

End Checkpoint.

(** * The snapshot file

    [Save] writes [json.MarshalIndent(m.data, "", "  ")] and [Load] reads
    the file back with [json.Unmarshal] into a zero [Data].  The file is
    modelled by what its text says about each field of [Data], and the two
    library calls by what they do between a [Data] and that. *)

Module Json.
Import Checkpoint.

(** ** UTF-8, as [unicode/utf8] decodes it *)

Definition between (lo hi : N) (a : ascii) : bool :=
  ((lo <=? N_of_ascii a) && (N_of_ascii a <=? hi))%N.

(** The bytes that follow the first byte of a sequence of [S n] bytes: the
    second within [lo..hi], the others continuation bytes.  The result is
    the length of the sequence. *)
Definition followed (n : nat) (lo hi : N) (rest : string) : option nat :=
  match n, rest with
  | 1%nat, String s1 _ =>
      if between lo hi s1 then Some 2%nat else None
  | 2%nat, String s1 (String s2 _) =>
      if between lo hi s1 && between 128 191 s2 then Some 3%nat else None
  | 3%nat, String s1 (String s2 (String s3 _)) =>
      if between lo hi s1 && between 128 191 s2 && between 128 191 s3
      then Some 4%nat else None
  | _, _ => None
  end.

(** [utf8.DecodeRuneInString]: the length of the well-formed sequence at
    the head of [s]; [None] is [(RuneError, 1)], and [(RuneError, 0)] on the
    empty string. *)
Definition rune_length (s : string) : option nat :=
  match s with
  | EmptyString => None
  | String s0 rest =>
      let x := N_of_ascii s0 in
      if (x <? 128)%N then Some 1%nat
      else if (x <? 194)%N then None
      else if (x <? 224)%N then followed 1 128 191 rest
      else if (x =? 224)%N then followed 2 160 191 rest
      else if (x =? 237)%N then followed 2 128 159 rest
      else if (x <? 240)%N then followed 2 128 191 rest
      else if (x =? 240)%N then followed 3 144 191 rest
      else if (x <? 244)%N then followed 3 128 191 rest
      else if (x =? 244)%N then followed 3 128 143 rest
      else None
  end.

(** U+FFFD, the replacement character, in UTF-8. *)
Definition replacement : string :=
  String "239" (String "191" (String "189" EmptyString)).

(** What the encoder writes for a Go string, read back: every byte that
    does not start a well-formed sequence has become U+FFFD.  [skip] counts
    the bytes still to copy of the sequence under way. *)
Fixpoint coerce_from (skip : nat) (s : string) : string :=
  match s with
  | EmptyString => EmptyString
  | String a rest =>
      match skip with
      | S k => String a (coerce_from k rest)
      | O =>
          match rune_length s with
          | Some n => String a (coerce_from (Nat.pred n) rest)
          | None => (replacement ++ coerce_from 0 rest)%string
          end
      end
  end.

Definition coerce (s : string) : string := coerce_from 0 s.

(** [utf8.ValidString]. *)
Fixpoint valid_from (skip : nat) (s : string) : bool :=
  match s with
  | EmptyString => true
  | String a rest =>
      match skip with
      | S k => valid_from k rest
      | O =>
          match rune_length s with
          | Some n => valid_from (Nat.pred n) rest
          | None => false
          end
      end
  end.

Definition ValidString (s : string) : bool := valid_from 0 s.

(** ** The text of a snapshot

    What a text that [json.Unmarshal] accepts for a [Data] says about each
    field: [None] where the text has no member for the field, or has
    [null]; the string it gives, unquoted; the instant it gives; for a map
    the members of the object, in the order of the text, keys unquoted
    (they may repeat); the numbers it gives.  The spelling of the text
    (indentation, escapes, the RFC 3339 form of an instant) is left out:
    [encoding/json] reads back the spelling it writes.  [Unreadable] is
    any text that [json.Unmarshal] refuses for a [Data]. *)
Record counts := mkCounts {
  total_users : option Z;
  total_videos : option Z;
  total_comments : option Z;
  total_products : option Z
}.

Record document := mkDocument {
  platform : option string;
  start_time : option Z;
  last_update_time : option Z;
  processed_users : option (list (string * bool));
  processed_videos : option (list (string * bool));
  user_cursors : option (list (string * string));
  comment_cursors : option (list (string * string));
  stats_member : option counts
}.

Inductive text :=
| Unreadable
| Document (d : document).

(** ** Encoding *)

(** The encoder writes the entries of a map sorted by key, the keys
    compared as Go compares strings, byte by byte, before they are quoted. *)
Definition key_le {V} (x y : string * V) : Prop := String.leb x.1 y.1 = true.

#[export] Instance key_le_dec {V} (x y : string * V) : Decision (key_le x y) :=
  decide (String.leb x.1 y.1 = true).

Definition sorted_entries {V} (g : gmap string V) : list (string * V) :=
  merge_sort key_le (map_to_list g).

(** A map as an object: [null] for the nil map; the keys are quoted, and
    so coerced, after the sort. *)
Definition encode_map {V} (value : V -> V) (s : gomap V)
  : option (list (string * V)) :=
  option_map (fun g => (fun kv => (coerce kv.1, value kv.2)) <$> sorted_entries g) s.

Definition encode (d : Data) : document :=
  {| platform := Some (coerce (Platform d));
     start_time := Some (StartTime d);
     last_update_time := Some (LastUpdateTime d);
     processed_users := encode_map id (ProcessedUsers d);
     processed_videos := encode_map id (ProcessedVideos d);
     user_cursors := encode_map coerce (UserCursors d);
     comment_cursors := encode_map coerce (CommentCursors d);
     stats_member :=
       Some (mkCounts (Some (TotalUsers (stats d))) (Some (TotalVideos (stats d)))
               (Some (TotalComments (stats d))) (Some (TotalProducts (stats d)))) |}.

(** [json.MarshalIndent] on a [*Data].  Instants are taken within the
    years 0 to 9999, as [time.Now()] gives them and RFC 3339 spells them;
    on those the call has no error. *)
Definition marshal (d : Data) : option text := Some (Document (encode d)).

(** ** Decoding *)

(** The zero [time.Time], on the scale of nanoseconds since 1970. *)
Definition zero_time : Z := -62135596800 * GoTime.Second.

(** An object read into a nil map: the decoder makes a map and assigns the
    members in the order of the text, so the last of two members with one
    key stays. *)
Definition decode_map {V} (members : option (list (string * V))) : gomap V :=
  option_map (foldl (fun g kv => <[kv.1 := kv.2]> g) ∅) members.

Definition decode_counts (c : option counts) : Stats :=
  match c with
  | Some c =>
      mkStats (default 0 (total_users c)) (default 0 (total_videos c))
        (default 0 (total_comments c)) (default 0 (total_products c))
  | None => mkStats 0 0 0 0
  end.

(** What [json.Unmarshal] leaves in a zero [Data]: a field the text does
    not give keeps its zero value, which for a map is nil. *)
Definition decode (t : document) : Data :=
  {| Platform := default EmptyString (platform t);
     StartTime := default zero_time (start_time t);
     LastUpdateTime := default zero_time (last_update_time t);
     ProcessedUsers := decode_map (processed_users t);
     ProcessedVideos := decode_map (processed_videos t);
     UserCursors := decode_map (user_cursors t);
     CommentCursors := decode_map (comment_cursors t);
     stats := decode_counts (stats_member t) |}.

Definition unmarshal (t : text) : option Data :=
  match t with
  | Unreadable => None
  | Document d => Some (decode d)
  end.

(** ** Snapshots without loss *)

(** Every ID and every cursor of the record is valid UTF-8. *)
Definition valid_keys {V} (s : gomap V) : Prop :=
  map_Forall (fun k _ => ValidString k = true) (entries s).
Definition valid_values (s : gomap string) : Prop :=
  map_Forall (fun _ v => ValidString v = true) (entries s).

Definition valid_progress (d : Data) : Prop :=
  valid_keys (ProcessedUsers d) /\ valid_keys (ProcessedVideos d) /\
  valid_keys (UserCursors d) /\ valid_values (UserCursors d) /\
  valid_keys (CommentCursors d) /\ valid_values (CommentCursors d).

End Json.


(** ** crawler/proxy.go *)

Module ProxyPool.

Record ProxyInfo := mkProxyInfo {
  IP : string;
  Port : string;
  Protocol : string;
  Username : string;
  Password : string;
  LastUsed : Z;
  FailCount : Z;
  IsValid : bool
}.

(** [proxies] is a slice of pointers.  The pool is modelled by the records
    the pointers lead to, in slice order; a pointer into the pool is an
    index of the list.  Callers are taken not to write through a pointer
    they have handed to or received from the pool.  The fire-and-forget
    [go p.SaveProxies()] only reads the pool and is left out. *)
Record ProxyPool := mkProxyPool {
  proxies : list ProxyInfo;
  proxyFile : string;
  testURL : string;
  maxFailures : Z
}.

Definition set_proxies (ps : list ProxyInfo) (p : ProxyPool) : ProxyPool :=
  mkProxyPool ps (proxyFile p) (testURL p) (maxFailures p).

(** [existingProxy.IP == proxy.IP && existingProxy.Port == proxy.Port]. *)
Definition same_endpoint (ip port : string) (existingProxy : ProxyInfo) : bool :=
  String.eqb (IP existingProxy) ip && String.eqb (Port existingProxy) port.

(** The four assignments of the update branch of [AddProxy]. *)
Definition refresh (proxy existingProxy : ProxyInfo) : ProxyInfo :=
  {| IP := IP existingProxy;
     Port := Port existingProxy;
     Protocol := Protocol proxy;
     Username := Username proxy;
     Password := Password proxy;
     LastUsed := LastUsed existingProxy;
     FailCount := FailCount existingProxy;
     IsValid := IsValid proxy |}.

(** The [for ... range p.proxies] of [AddProxy]: [Some] is the slice after
    the update and [return] at the first matching entry, [None] is a loop
    that ran to its end. *)
Fixpoint AddProxy_scan (proxy : ProxyInfo) (ps : list ProxyInfo)
  : option (list ProxyInfo) :=
  match ps with
  | [] => None
  | existingProxy :: rest =>
      if same_endpoint (IP proxy) (Port proxy) existingProxy
      then Some (refresh proxy existingProxy :: rest)
      else option_map (cons existingProxy) (AddProxy_scan proxy rest)
  end.

Definition AddProxy (proxy : ProxyInfo) (p : ProxyPool) : ProxyPool :=
  match AddProxy_scan proxy (proxies p) with
  | Some ps => set_proxies ps p
  | None => set_proxies (proxies p ++ [proxy]) p
  end.

(** The loop of [RemoveProxy]: drop the first matching entry and [break]. *)
Fixpoint RemoveProxy_scan (ip port : string) (ps : list ProxyInfo)
  : list ProxyInfo :=
  match ps with
  | [] => []
  | proxy :: rest =>
      if same_endpoint ip port proxy then rest
      else proxy :: RemoveProxy_scan ip port rest
  end.

Definition RemoveProxy (ip port : string) (p : ProxyPool) : ProxyPool :=
  set_proxies (RemoveProxy_scan ip port (proxies p)) p.

(** [proxy.IsValid && proxy.FailCount < p.maxFailures]. *)
Definition usable (maxFailures : Z) (proxy : ProxyInfo) : bool :=
  IsValid proxy && (FailCount proxy <? maxFailures).

(** [validProxies], as the positions in [p.proxies] of the pointers it
    collects; [i] is the position of the head of [ps]. *)
Fixpoint validProxies (maxFailures : Z) (i : nat) (ps : list ProxyInfo)
  : list nat :=
  match ps with
  | [] => []
  | proxy :: rest =>
      if usable maxFailures proxy
      then i :: validProxies maxFailures (S i) rest
      else validProxies maxFailures (S i) rest
  end.

Definition touch (now : Z) (proxy : ProxyInfo) : ProxyInfo :=
  {| IP := IP proxy;
     Port := Port proxy;
     Protocol := Protocol proxy;
     Username := Username proxy;
     Password := Password proxy;
     LastUsed := now;
     FailCount := FailCount proxy;
     IsValid := IsValid proxy |}.

(** [rand.Intn(n)] for [n > 0], from the raw draw [rnd] of the generator. *)
Definition Intn (rnd n : nat) : nat := rnd `mod` n.

(** [GetProxy]: the selected record ([None] is the nil pointer) and the pool
    after the write to [selectedProxy.LastUsed]. *)
Definition GetProxy (rnd : nat) (now : Z) (p : ProxyPool)
  : option ProxyInfo * ProxyPool :=
  let valid := validProxies (maxFailures p) 0 (proxies p) in
  if (length valid =? 0)%nat then (None, p)
  else
    match valid !! Intn rnd (length valid) with
    | None => (None, p) (* index out of range: not reached, Intn is below the length *)
    | Some i =>
        match proxies p !! i with
        | None => (None, p) (* dangling position: not reached *)
        | Some selectedProxy =>
            (Some (touch now selectedProxy),
             set_proxies (<[i := touch now selectedProxy]> (proxies p)) p)
        end
    end.

(** [GetProxyCount]. *)
Definition GetProxyCount (p : ProxyPool) : nat * nat :=
  (length (proxies p),
   length (filter (fun proxy => usable (maxFailures p) proxy = true) (proxies p))).

Definition endpoint (proxy : ProxyInfo) : string * string := (IP proxy, Port proxy).

(** A sequence of pool edits. *)
Inductive edit :=
| Add (proxy : ProxyInfo)
| Remove (ip port : string).

Definition apply_edit (p : ProxyPool) (e : edit) : ProxyPool :=
  match e with
  | Add proxy => AddProxy proxy p
  | Remove ip port => RemoveProxy ip port p
  end.

Definition apply_edits (es : list edit) (p : ProxyPool) : ProxyPool :=
  fold_left apply_edit es p.

End ProxyPool.


(** ** The main package: the pagination loops *)

Module Crawl.

(** crawler/types.go.  A field name that occurs in several structs carries
    the struct as a prefix from its second occurrence on.  [Price], a
    float64 the orchestration never reads, is left out of [ProductInfo]. *)
Record UserData := mkUserData {
  UserID : string;
  Nickname : string;
  Followers : Z;
  Following : Z;
  Description : string;
  Tags : list string
}.

Record ProductInfo := mkProductInfo {
  ProductID : string;
  Name : string;
  Category : string;
  ProductDescription : string;
  Sales : Z
}.

Record VideoData := mkVideoData {
  VideoID : string;
  VideoUserID : string;
  Title : string;
  VideoDescription : string;
  Likes : Z;
  Comments : Z;
  Shares : Z;
  VideoTags : list string;
  Product : option ProductInfo (* the pointer [ProductInfo]; [None] is nil *)
}.

Record CommentData := mkCommentData {
  CommentID : string;
  CommentVideoID : string;
  CommentUserID : string;
  Content : string;
  CommentLikes : Z;
  Replies : Z;
  Timestamp : Z
}.

(** The [Config] of the main package. *)
Record Config := mkConfig {
  Concurrency : Z;
  UserAgent : string;
  Timeout : Z;
  Retries : Z;
  Cookies : string;
  Platform : string;
  OutputDir : string
}.

(** What a crawl does to the outside world, one entry per call. *)
Inductive event :=
| CallGetUserInfo (userID : string)
| CallGetUserVideos (userID cursor : string)
| CallGetVideoComments (videoID cursor : string)
| CallGetProductInfo (productID : string)
| SaveUser (userData : UserData)
| SaveVideo (videoData : VideoData)
| SaveComment (commentData : CommentData)
| SaveProduct (productInfo : ProductInfo)
| Sleep (d : Z).

(** The effects so far, latest first. *)
Abbreviation history := (list event).

(** The three results of a paginated call: [err] is [true] for a non-nil
    error. *)
Record page (A : Type) := mkPage {
  items : list A;
  nextCursor : string;
  err : bool
}.
Arguments mkPage {A} items nextCursor err.
Arguments items {A} p.
Arguments nextCursor {A} p.
Arguments err {A} p.

(** The [crawler.Scraper] interface.  The remote platform is outside the
    program: the answer to a call may depend on everything that happened
    before it, so each method reads the history; [None] is an error. *)
Record Scraper := mkScraper {
  GetUserInfo : history -> string -> option UserData;
  GetUserVideos : history -> string -> string -> page VideoData;
  GetVideoComments : history -> string -> string -> page CommentData;
  GetProductInfo : history -> string -> option ProductInfo
}.

Record Crawler := mkCrawler {
  config : Config;
  scraper : Scraper
}.

(** The two variables of a pagination loop. *)
Record walk := mkWalk {
  cursor : string;
  retryCount : Z
}.

(** How one pass through the body of a [for { ... }] ends. *)
Inductive pass :=
| Continue (w : walk) (h : history)
| Break (h : history).

Definition saveCommentData (commentData : CommentData) (h : history) : history :=
  SaveComment commentData :: h.
Definition saveVideoData (videoData : VideoData) (h : history) : history :=
  SaveVideo videoData :: h.
Definition saveProductInfo (productInfo : ProductInfo) (h : history) : history :=
  SaveProduct productInfo :: h.

Definition crawlProductInfo (c : Crawler) (productID : string) (h : history)
  : history :=
  let h1 := CallGetProductInfo productID :: h in
  match GetProductInfo (scraper c) h productID with
  | None => h1
  | Some productInfo => saveProductInfo productInfo h1
  end.

(** One pass through the loop of [crawlVideoComments] (lines 167-199). *)
Definition crawlVideoComments_pass (c : Crawler) (videoID : string)
  (w : walk) (h : history) : pass :=
  let r := GetVideoComments (scraper c) h videoID (cursor w) in
  let h1 := CallGetVideoComments videoID (cursor w) :: h in
  if err r then
    let retryCount := GoInt.add (retryCount w) 1 in
    if retryCount >? Retries (config c) then Break h1
    else Continue (mkWalk (cursor w) retryCount)
           (Sleep (GoInt.mul (Timeout (config c)) GoTime.Second) :: h1)
  else
    let h2 := fold_left (fun h comment => saveCommentData comment h) (items r) h1 in
    if String.eqb (nextCursor r) EmptyString || String.eqb (nextCursor r) (cursor w)
    then Break h2
    else Continue (mkWalk (nextCursor r) 0) (Sleep (3 * GoTime.Second) :: h2).

(** The loop, cut off after [fuel] passes ([None]). *)
Fixpoint crawlVideoComments_loop (fuel : nat) (c : Crawler) (videoID : string)
  (w : walk) (h : history) : option history :=
  match fuel with
  | O => None
  | S fuel' =>
      match crawlVideoComments_pass c videoID w h with
      | Break h' => Some h'
      | Continue w' h' => crawlVideoComments_loop fuel' c videoID w' h'
      end
  end.

Definition crawlVideoComments (fuel : nat) (c : Crawler) (videoID : string)
  (h : history) : option history :=
  crawlVideoComments_loop fuel c videoID (mkWalk EmptyString 0) h.

(** The [for _, video := range videos] of [crawlUserVideos] (lines 134-147). *)
Fixpoint crawlUserVideos_each (fuel : nat) (c : Crawler)
  (videos : list VideoData) (h : history) : option history :=
  match videos with
  | [] => Some h
  | video :: rest =>
      match crawlVideoComments fuel c (VideoID video) (saveVideoData video h) with
      | None => None
      | Some h1 =>
          let h2 :=
            match Product video with
            | Some productInfo =>
                if negb (String.eqb (ProductID productInfo) EmptyString)
                then crawlProductInfo c (ProductID productInfo) h1
                else h1
            | None => h1
            end in
          crawlUserVideos_each fuel c rest (Sleep (2 * GoTime.Second) :: h2)
      end
  end.

(** One pass through the loop of [crawlUserVideos] (lines 116-159); [None]
    when a nested comment walk is cut off. *)
Definition crawlUserVideos_pass (fuel : nat) (c : Crawler) (userID : string)
  (w : walk) (h : history) : option pass :=
  let r := GetUserVideos (scraper c) h userID (cursor w) in
  let h1 := CallGetUserVideos userID (cursor w) :: h in
  if err r then
    let retryCount := GoInt.add (retryCount w) 1 in
    if retryCount >? Retries (config c) then Some (Break h1)
    else Some (Continue (mkWalk (cursor w) retryCount)
                 (Sleep (GoInt.mul (Timeout (config c)) GoTime.Second) :: h1))
  else
    match crawlUserVideos_each fuel c (items r) h1 with
    | None => None
    | Some h2 =>
        if String.eqb (nextCursor r) EmptyString || String.eqb (nextCursor r) (cursor w)
        then Some (Break h2)
        else Some (Continue (mkWalk (nextCursor r) 0) (Sleep (5 * GoTime.Second) :: h2))
    end.

(** The loop, cut off after [fuel] passes; [nested] bounds each comment
    walk started from it. *)
Fixpoint crawlUserVideos_loop (fuel nested : nat) (c : Crawler) (userID : string)
  (w : walk) (h : history) : option history :=
  match fuel with
  | O => None
  | S fuel' =>
      match crawlUserVideos_pass nested c userID w h with
      | None => None
      | Some (Break h') => Some h'
      | Some (Continue w' h') => crawlUserVideos_loop fuel' nested c userID w' h'
      end
  end.

Definition crawlUserVideos (fuel : nat) (c : Crawler) (userID : string)
  (h : history) : option history :=
  crawlUserVideos_loop fuel fuel c userID (mkWalk EmptyString 0) h.

(** The loop variables and the history at the head of pass number [k]
    (from 0) of a comment walk; [None] when the loop has ended before. *)
Fixpoint crawlVideoComments_at (k : nat) (c : Crawler) (videoID : string)
  (w : walk) (h : history) : option (walk * history) :=
  match k with
  | O => Some (w, h)
  | S k' =>
      match crawlVideoComments_pass c videoID w h with
      | Break _ => None
      | Continue w' h' => crawlVideoComments_at k' c videoID w' h'
      end
  end.

(** The same for a video walk; [None] also when a nested comment walk of an
    earlier pass is cut off by [nested]. *)
Fixpoint crawlUserVideos_at (k nested : nat) (c : Crawler) (userID : string)
  (w : walk) (h : history) : option (walk * history) :=
  match k with
  | O => Some (w, h)
  | S k' =>
      match crawlUserVideos_pass nested c userID w h with
      | Some (Continue w' h') => crawlUserVideos_at k' nested c userID w' h'
      | _ => None
      end
  end.

(** *** Reading a history *)

(** The cursors submitted to [GetVideoComments] for [videoID], oldest
    first. *)
Fixpoint comment_cursors (videoID : string) (h : history) : list string :=
  match h with
  | [] => []
  | CallGetVideoComments v cur :: h' =>
      if String.eqb v videoID then comment_cursors videoID h' ++ [cur]
      else comment_cursors videoID h'
  | _ :: h' => comment_cursors videoID h'
  end.

(** The cursors submitted to [GetUserVideos] for [userID], oldest first. *)
Fixpoint video_cursors (userID : string) (h : history) : list string :=
  match h with
  | [] => []
  | CallGetUserVideos u cur :: h' =>
      if String.eqb u userID then video_cursors userID h' ++ [cur]
      else video_cursors userID h'
  | _ :: h' => video_cursors userID h'
  end.

(** A successful answer that the loops take as the end of the walk. *)
Definition terminal {A} (cur : string) (r : page A) : bool :=
  negb (err r) &&
  (String.eqb (nextCursor r) EmptyString || String.eqb (nextCursor r) cur).

(** *** [Start] and [worker]

    The goroutines of [Start] as an interleaving of atomic steps on the
    channel, the wait group and the position of each goroutine.  The body of
    the [worker] loop (profile, save, [crawlUserVideos], sleep) touches none
    of these and is one step, [Processing] to [Receiving]. *)

Inductive worker_state :=
| Receiving                     (* at [for userID := range c.urlChannel] *)
| Processing (userID : string)  (* in the loop body, holding [userID] *)
| Exited.                       (* past the deferred [c.wg.Done()] *)

Inductive main_state :=
| Spawning (i : Z)              (* first loop of [Start], at its test *)
| Sending (rest : list string)  (* second loop, [rest] still to send *)
| Waiting                       (* in [c.wg.Wait()] *)
| Finished.                     (* [Start] has returned *)

(** [urlChannel] is the buffer of the channel, oldest first; its capacity is
    [Concurrency].  [received] and [processed] record which worker took and
    which worker completed which ID, latest first. *)
Record run := mkRun {
  main : main_state;
  urlChannel : list string;
  closed : bool;
  workers : list worker_state;
  wg : Z;
  received : list (nat * string);
  processed : list (nat * string)
}.

Definition start_run : run :=
  mkRun (Spawning 0) [] false [] 0 [] [].

(** A step of the goroutine running [Start]; [None] when it is blocked (a
    send on a full buffer, [Wait] on a positive counter) or has returned. *)
Definition main_step (cfg : Config) (userIDs : list string) (s : run)
  : option run :=
  match main s with
  | Spawning i =>
      if i <? Concurrency cfg
      then Some (mkRun (Spawning (i + 1)) (urlChannel s) (closed s)
                   (workers s ++ [Receiving]) (wg s + 1)
                   (received s) (processed s))
      else Some (mkRun (Sending userIDs) (urlChannel s) (closed s)
                   (workers s) (wg s) (received s) (processed s))
  | Sending (userID :: rest) =>
      if Z.of_nat (length (urlChannel s)) <? Concurrency cfg
      then Some (mkRun (Sending rest) (urlChannel s ++ [userID]) (closed s)
                   (workers s) (wg s) (received s) (processed s))
      else None
  | Sending [] =>
      Some (mkRun Waiting (urlChannel s) true
              (workers s) (wg s) (received s) (processed s))
  | Waiting =>
      if wg s =? 0
      then Some (mkRun Finished (urlChannel s) (closed s)
                   (workers s) (wg s) (received s) (processed s))
      else None
  | Finished => None
  end.

(** A step of worker number [n]; [None] when it is blocked (receive on an
    empty open channel), has exited or was never started. *)
Definition worker_step (n : nat) (s : run) : option run :=
  match workers s !! n with
  | Some Receiving =>
      match urlChannel s with
      | userID :: queue =>
          Some (mkRun (main s) queue (closed s)
                  (<[n := Processing userID]> (workers s)) (wg s)
                  ((n, userID) :: received s) (processed s))
      | [] =>
          if closed s
          then Some (mkRun (main s) [] (closed s)
                       (<[n := Exited]> (workers s)) (wg s - 1)
                       (received s) (processed s))
          else None
      end
  | Some (Processing userID) =>
      Some (mkRun (main s) (urlChannel s) (closed s)
              (<[n := Receiving]> (workers s)) (wg s)
              (received s) ((n, userID) :: processed s))
  | Some Exited => None
  | None => None
  end.

(** Who moves next is up to the scheduler. *)
Inductive step (cfg : Config) (userIDs : list string) : run -> run -> Prop :=
| step_main s s' :
    main_step cfg userIDs s = Some s' -> step cfg userIDs s s'
| step_worker n s s' :
    worker_step n s = Some s' -> step cfg userIDs s s'.

(** The states [Start cfg userIDs] can be in. *)
Definition reachable (cfg : Config) (userIDs : list string) (s : run) : Prop :=
  rtc (step cfg userIDs) start_run s.


(** *** Reading a run *)






End Crawl.


(** ** Concrete inputs used in the examples *)

Module Fixtures.

(** A stand-in for the JSON encoding that keeps the snapshot as it is. *)
Definition keep (d : Checkpoint.Data) : option Checkpoint.Data := Some d.

Definition checkpoint_config : Checkpoint.Config :=
  Checkpoint.mkConfig true 5 "checkpoint.json".

(** A manager created at instant 0 with a save interval of five seconds. *)
Definition fresh_manager : Checkpoint.Manager :=
  Checkpoint.NewManager checkpoint_config 0 0 0.

Definition no_files : gmap string Checkpoint.Data := ∅.

(** A pool of two proxies, the second one failing. *)
Definition proxy_a : ProxyPool.ProxyInfo :=
  ProxyPool.mkProxyInfo "10.0.0.1" "8080" "http" "" "" 100 2 true.
Definition proxy_b : ProxyPool.ProxyInfo :=
  ProxyPool.mkProxyInfo "10.0.0.2" "3128" "socks5" "bob" "secret" 200 3 false.
Definition two_proxies : ProxyPool.ProxyPool :=
  ProxyPool.mkProxyPool [proxy_a; proxy_b] "proxies.json" "http://probe" 3.

(** A record for the endpoint of [proxy_a], as [ImportProxiesFromAPI]
    builds one. *)
Definition proxy_a_again : ProxyPool.ProxyInfo :=
  ProxyPool.mkProxyInfo "10.0.0.1" "8080" "https" "amy" "pw" 0 0 true.

(** A platform that serves one video on the first page and then repeats
    the cursor ["c1"]; its comment endpoint fails on the first call for a
    video and then serves a single last page. *)
Definition product1 : Crawl.ProductInfo :=
  Crawl.mkProductInfo "p1" "apples" "fruit" "" 12.
Definition video1 : Crawl.VideoData :=
  Crawl.mkVideoData "v1" "u1" "harvest" "" 10 1 0 [] (Some product1).
Definition comment1 : Crawl.CommentData :=
  Crawl.mkCommentData "k1" "v1" "u9" "nice" 0 0 1700000000.

Definition platform : Crawl.Scraper :=
  {| Crawl.GetUserInfo := fun _ userID =>
       Some (Crawl.mkUserData userID "grower" 1 2 "" []);
     Crawl.GetUserVideos := fun _ _ cursor =>
       if String.eqb cursor "" then Crawl.mkPage [video1] "c1" false
       else Crawl.mkPage [] "c1" false;
     Crawl.GetVideoComments := fun h videoID _ =>
       match Crawl.comment_cursors videoID h with
       | [] => Crawl.mkPage [] "" true
       | _ => Crawl.mkPage [comment1] "" false
       end;
     Crawl.GetProductInfo := fun _ _ => Some product1 |}.

Definition crawler : Crawl.Crawler :=
  Crawl.mkCrawler
    (Crawl.mkConfig 2 "Mozilla/5.0" 30 3 "sid=1" "kuaishou" "output") platform.

(** One way for two workers to share the seeds ["u1"] and ["u2"]: [Start]
    spawns both and sends both IDs, worker 1 takes ["u1"], worker 0 takes
    ["u2"] and completes it, [Start] closes the channel, worker 1 completes,
    both workers leave, [Start] returns. *)
Definition two_seeds : list string := ["u1"; "u2"].

(** A checkpoint that holds the cursor ["c7"] for the account ["u1"]. *)
Definition resumable_manager : Checkpoint.Manager :=
  Checkpoint.out_manager (Checkpoint.SetUserCursor "u1" "c7" fresh_manager no_files).

End Fixtures.


(** ** The methods of the checkpoint manager, as calls *)

Module CheckpointCalls.
Import Checkpoint.

(** One constructor for each exported method of [Manager], with the
    arguments of the call and the readings of the clock the method can
    make, in the order it makes them. *)
Inductive call :=
| CallLoad
| CallSave (updated saved : Z)
| CallCheckSave (now updated saved : Z)
| CallSetPlatform (platform : string)
| CallMarkUserProcessed (now updated saved : Z) (userID : string)
| CallIsUserProcessed (userID : string)
| CallMarkVideoProcessed (now updated saved : Z) (videoID : string)
| CallIsVideoProcessed (videoID : string)
| CallSetUserCursor (userID cursor : string)
| CallGetUserCursor (userID : string)
| CallSetCommentCursor (videoID cursor : string)
| CallGetCommentCursor (videoID : string)
| CallIncrementCommentCount
| CallIncrementProductCount
| CallGetStats.

(** Calls that mark nothing. *)
Definition marks_nothing (c : call) : Prop :=
  match c with
  | CallMarkUserProcessed _ _ _ _ | CallMarkVideoProcessed _ _ _ _ => False
  | _ => True
  end.

(** Calls that do not replace the record: every one but [Load]. *)
Definition loads_nothing (c : call) : Prop :=
  match c with
  | CallLoad => False
  | _ => True
  end.

(** The map a call assigns to, if it assigns to one. *)
Definition assigned_map (c : call) (d : Data) : option bool :=
  match c with
  | CallMarkUserProcessed _ _ _ _ => Some (bool_decide (ProcessedUsers d = None))
  | CallMarkVideoProcessed _ _ _ _ => Some (bool_decide (ProcessedVideos d = None))
  | CallSetUserCursor _ _ => Some (bool_decide (UserCursors d = None))
  | CallSetCommentCursor _ _ => Some (bool_decide (CommentCursors d = None))
  | _ => None
  end.

(** The two cursor maps are allocated. *)
Definition cursors_allocated (d : Data) : Prop :=
  UserCursors d <> None /\ CommentCursors d <> None.

Section WithFiles.
Context {Bytes : Type}.
Variable marshal : Data -> option Bytes.
Variable unmarshal : Bytes -> option Data.

(** The outcome of a call with its result dropped. *)
Definition forget {A} (o : @Outcome Bytes A) : @Outcome Bytes unit :=
  match o with
  | Returned _ m fs => Returned tt m fs
  | Blocked m fs => Blocked m fs
  | Panicked m fs => Panicked m fs
  end.

Definition perform (c : call) (m : Manager) (fs : gmap string Bytes)
  : @Outcome Bytes unit :=
  match c with
  | CallLoad => forget (Load unmarshal m fs)
  | CallSave updated saved => forget (Save marshal updated saved m fs)
  | CallCheckSave now updated saved =>
      forget (CheckSave marshal now updated saved m fs)
  | CallSetPlatform platform => SetPlatform platform m fs
  | CallMarkUserProcessed now updated saved userID =>
      MarkUserProcessed marshal now updated saved userID m fs
  | CallIsUserProcessed userID => forget (IsUserProcessed userID m fs)
  | CallMarkVideoProcessed now updated saved videoID =>
      MarkVideoProcessed marshal now updated saved videoID m fs
  | CallIsVideoProcessed videoID => forget (IsVideoProcessed videoID m fs)
  | CallSetUserCursor userID cursor => SetUserCursor userID cursor m fs
  | CallGetUserCursor userID => forget (GetUserCursor userID m fs)
  | CallSetCommentCursor videoID cursor => SetCommentCursor videoID cursor m fs
  | CallGetCommentCursor videoID => forget (GetCommentCursor videoID m fs)
  | CallIncrementCommentCount => IncrementCommentCount m fs
  | CallIncrementProductCount => IncrementProductCount m fs
  | CallGetStats => forget (GetStats m fs)
  end.

(** The calls of one goroutine, one after the other; a call that blocks
    or panics is the last one made. *)
Fixpoint perform_all (cs : list call) (m : Manager) (fs : gmap string Bytes)
  : @Outcome Bytes unit :=
  match cs with
  | [] => Returned tt m fs
  | c :: cs' =>
      match perform c m fs with
      | Returned _ m' fs' => perform_all cs' m' fs'
      | Blocked m' fs' => Blocked m' fs'
      | Panicked m' fs' => Panicked m' fs'
      end
  end.

End WithFiles.

End CheckpointCalls.


(** ** Successive calls of [Wait] *)

Module RatelimitRuns.
Import Ratelimit.

(** The calls of [Wait] made one after the other, each with the three
    readings of the clock it makes: the limiter after the last call and the
    time slept in each call, in call order.  [None] is a panic. *)
Fixpoint Waits (clock : list (Z * Z * Z)) (l : Limiter)
  : option (Limiter * list Z) :=
  match clock with
  | [] => Some (l, [])
  | (now1, now2, now3) :: rest =>
      match Wait now1 now2 now3 l with
      | None => None
      | Some (l', slept) =>
          match Waits rest l' with
          | None => None
          | Some (l'', sleeps) => Some (l'', slept :: sleeps)
          end
      end
  end.

(** Instants and durations up to [horizon] (about 73 years in nanoseconds)
    keep every sum and product of [Wait] within an int64. *)
Definition horizon : Z := 2 ^ 61.

(** An enabled limiter whose numbers are below the horizon and whose
    bucket is within its bounds. *)
Definition in_service (l : Limiter) : Prop :=
  enabled l = true /\
  0 < interval l <= horizon /\
  requestsPerMinute l <= horizon /\
  0 <= lastRefill l <= horizon /\
  tokens_ok l.

(** The first reading of the clock in each call lies between [from] and
    [upto]. *)
Definition read_within (from upto : Z) (clock : list (Z * Z * Z)) : Prop :=
  Forall (fun t => from <= fst (fst t) <= upto) clock.

End RatelimitRuns.


(** ** crawler/proxy.go: validation, import, and the proxy file *)

Module ProxyPoolMore.
Import ProxyPool.

(** [fmt.Sprintf] with the two formats of [ProxyString]. *)
Definition ProxyString (p : ProxyInfo) : string :=
  if negb (String.eqb (Username p) EmptyString)
     && negb (String.eqb (Password p) EmptyString)
  then Protocol p +:+ "://" +:+ Username p +:+ ":" +:+ Password p +:+ "@"
       +:+ IP p +:+ ":" +:+ Port p
  else Protocol p +:+ "://" +:+ IP p +:+ ":" +:+ Port p.

(** What the request through the proxy comes to: an error of
    [client.Get], or a response with its status code. *)
Inductive probe :=
| GetError
| Status (code : Z).

Definition StatusOK : Z := 200.

Definition failed (proxy : ProxyInfo) : ProxyInfo :=
  {| IP := IP proxy; Port := Port proxy; Protocol := Protocol proxy;
     Username := Username proxy; Password := Password proxy;
     LastUsed := LastUsed proxy;
     FailCount := GoInt.add (FailCount proxy) 1;
     IsValid := false |}.

Definition passed (proxy : ProxyInfo) : ProxyInfo :=
  {| IP := IP proxy; Port := Port proxy; Protocol := Protocol proxy;
     Username := Username proxy; Password := Password proxy;
     LastUsed := LastUsed proxy;
     FailCount := 0;
     IsValid := true |}.

(** One record as [ImportProxiesFromAPI] decodes it. *)
Record apiProxy := mkApiProxy {
  apiIP : string;
  apiPort : string;
  apiProtocol : string;
  apiUsername : string;
  apiPassword : string
}.

(** What [AddProxy] leaves of the record at a position of the pool. *)
Definition kept (e e' : ProxyInfo) : Prop :=
  endpoint e' = endpoint e /\ FailCount e' = FailCount e /\
  LastUsed e' = LastUsed e.

Section Outside.

(** Whether [url.Parse] accepts a proxy string, and the zero [time.Time]. *)
Variable parses : string -> bool.
Variable zeroTime : Z.

(** [ValidateProxy]: the record after the call and the result. *)
Definition ValidateProxy (r : probe) (proxy : ProxyInfo) : ProxyInfo * bool :=
  if negb (parses (ProxyString proxy)) then (proxy, false)
  else
    match r with
    | GetError => (failed proxy, false)
    | Status code =>
        if negb (code =? StatusOK) then (failed proxy, false)
        else (passed proxy, true)
    end.

(** [ValidateAllProxies]: one [ValidateProxy] per record of the pool, each
    in a goroutine of its own that touches that record only; [probes n] is
    what the request for the record at position [n] comes to.  The closing
    [SaveProxies] only reads the pool. *)
Definition ValidateAllProxies (probes : nat -> probe) (p : ProxyPool) : ProxyPool :=
  set_proxies (imap (fun n proxy => fst (ValidateProxy (probes n) proxy)) (proxies p)) p.

(** The record [ImportProxiesFromAPI] builds from a decoded one. *)
Definition imported (a : apiProxy) : ProxyInfo :=
  {| IP := apiIP a; Port := apiPort a; Protocol := apiProtocol a;
     Username := apiUsername a; Password := apiPassword a;
     LastUsed := zeroTime; FailCount := 0; IsValid := true |}.

(** The loop of [ImportProxiesFromAPI] over the decoded response. *)
Definition ImportProxies (apiProxies : list apiProxy) (p : ProxyPool) : ProxyPool :=
  fold_left (fun pool a => AddProxy (imported a) pool) apiProxies p.

End Outside.

(** *** The proxy file and the lock *)

(** The pool with its [sync.RWMutex]: [writing] while the lock is held for
    writing, [reading] the number of read locks held. *)
Record guarded := mkGuarded {
  pool : ProxyPool;
  writing : bool;
  reading : nat
}.

Section WithFiles.

(** [json.MarshalIndent] of the slice, and [json.Unmarshal] into the slice
    the pool holds: the slice after the call and whether an error came
    back. *)
Variable marshal : list ProxyInfo -> option string.
Variable unmarshal : string -> list ProxyInfo -> list ProxyInfo * bool.

Inductive outcome (A : Type) : Type :=
| Returned (a : A) (g : guarded) (fs : gmap string string)
| Blocked (g : guarded) (fs : gmap string string).
Arguments Returned {A} a g fs.
Arguments Blocked {A} g fs.

Definition with_pool (p : ProxyPool) (g : guarded) : guarded :=
  mkGuarded p (writing g) (reading g).

(** [SaveProxies]; the result is [true] for a non-nil error.  [RLock] waits
    for as long as the lock is held for writing.  The write of the file is
    taken to succeed. *)
Definition SaveProxies (g : guarded) (fs : gmap string string) : outcome bool :=
  if writing g then Blocked g fs
  else
    let g1 := mkGuarded (pool g) (writing g) (S (reading g)) in
    match marshal (proxies (pool g1)) with
    | None => Returned true (mkGuarded (pool g1) (writing g1) (pred (reading g1))) fs
    | Some data =>
        Returned false (mkGuarded (pool g1) (writing g1) (pred (reading g1)))
          (<[proxyFile (pool g1) := data]> fs)
    end.

(** [LoadProxies].  [Lock] waits for as long as the lock is held at all.
    A file that exists is taken to be readable. *)
Definition LoadProxies (g : guarded) (fs : gmap string string) : outcome bool :=
  if writing g || (0 <? reading g)%nat then Blocked g fs
  else
    let g1 := mkGuarded (pool g) true (reading g) in
    match fs !! proxyFile (pool g1) with
    | None =>
        let g2 := with_pool (set_proxies [] (pool g1)) g1 in
        match SaveProxies g2 fs with
        | Returned e g3 fs3 => Returned e (mkGuarded (pool g3) false (reading g3)) fs3
        | Blocked g3 fs3 => Blocked g3 fs3
        end
    | Some data =>
        if (0 <? String.length data)%nat then
          let '(ps, e) := unmarshal data (proxies (pool g1)) in
          let g2 := with_pool (set_proxies ps (pool g1)) g1 in
          Returned e (mkGuarded (pool g2) false (reading g2)) fs
        else Returned false (mkGuarded (pool g1) false (reading g1)) fs
    end.

(** [NewProxyPool], up to the start of the validation goroutine. *)
Definition NewProxyPool (proxyFile testURL : string) (maxFailures : Z)
  (fs : gmap string string) : outcome unit :=
  let g := mkGuarded (mkProxyPool [] proxyFile testURL maxFailures) false O in
  match LoadProxies g fs with
  | Returned _ g' fs' => Returned tt g' fs'
  | Blocked g' fs' => Blocked g' fs'
  end.

End WithFiles.

Arguments Returned {A} a g fs.
Arguments Blocked {A} g fs.

End ProxyPoolMore.


(** ** utils/proxy/proxy.go: the rotating proxy list *)

Module ProxyRotation.

(** The field [Type] of [Config] is [ProxyType] here. *)
Record Config := mkConfig {
  Enabled : bool;
  ProxyType : string;
  List : list string;
  RotationInterval : Z
}.

(** Every method takes the [sync.Mutex] for its whole critical section and
    calls no other method inside it, so the calls of a run are taken one
    after the other and the mutex is left out. *)
Record Manager := mkManager {
  enabled : bool;
  proxyType : string;
  proxyList : list string;
  currentIndex : Z;
  rotationInterval : Z;
  lastRotation : Z
}.

Definition NewManager (config : Config) (now : Z) : Manager :=
  {| enabled := Enabled config;
     proxyType := ProxyType config;
     proxyList := List config;
     currentIndex := 0;
     rotationInterval := RotationInterval config;
     lastRotation := now |}.

(** [l[i]]; [None] is the run-time panic on an index out of range. *)
Definition index (l : list string) (i : Z) : option string :=
  if i <? 0 then None else l !! Z.to_nat i.

(** [!m.enabled || len(m.proxyList) == 0]. *)
Definition off (m : Manager) : bool :=
  negb (enabled m) || (Z.of_nat (length (proxyList m)) =? 0).

(** The two assignments of a rotation; Go's [%] is the remainder of the
    truncated division. *)
Definition rotate (rotated : Z) (m : Manager) : Manager :=
  {| enabled := enabled m;
     proxyType := proxyType m;
     proxyList := proxyList m;
     currentIndex := Z.rem (GoInt.add (currentIndex m) 1)
                       (Z.of_nat (length (proxyList m)));
     rotationInterval := rotationInterval m;
     lastRotation := rotated |}.

(** [time.Since(m.lastRotation).Seconds() > float64(m.rotationInterval)],
    in float64 arithmetic. *)
Definition due (now : Z) (m : Manager) : bool :=
  GoFloat.ltb (GoFloat.of_int (rotationInterval m))
    (GoTime.Seconds (GoTime.Since now (lastRotation m))).

(** The indexing [m.proxyList[m.currentIndex]] that ends both getters. *)
Definition current (m : Manager) : option (string * Manager) :=
  option_map (fun proxy => (proxy, m)) (index (proxyList m) (currentIndex m)).

(** [GetProxy]: [now] is the clock read by [time.Since], [rotated] the one
    read by [time.Now()] in a rotation. *)
Definition GetProxy (now rotated : Z) (m : Manager) : option (string * Manager) :=
  if off m then Some (EmptyString, m)
  else if (0 <? rotationInterval m) && due now m
       then current (rotate rotated m)
       else current m.

Definition RotateProxy (rotated : Z) (m : Manager) : option (string * Manager) :=
  if off m then Some (EmptyString, m)
  else current (rotate rotated m).

Definition IsEnabled (m : Manager) : bool := enabled m.

(** A run of the manager: the calls made on it, in order. *)
Inductive call :=
| CallGetProxy (now rotated : Z)
| CallRotateProxy (rotated : Z).

Definition perform (c : call) (m : Manager) : option (string * Manager) :=
  match c with
  | CallGetProxy now rotated => GetProxy now rotated m
  | CallRotateProxy rotated => RotateProxy rotated m
  end.

(** The results of the calls, first call first, and the manager after the
    last one. *)
Fixpoint perform_all (cs : list call) (m : Manager)
  : option (list string * Manager) :=
  match cs with
  | [] => Some ([], m)
  | c :: cs' =>
      match perform c m with
      | None => None
      | Some (proxy, m1) =>
          match perform_all cs' m1 with
          | None => None
          | Some (out, m2) => Some (proxy :: out, m2)
          end
      end
  end.

(** The index points into the list. *)
Definition in_list (m : Manager) : Prop :=
  0 <= currentIndex m < Z.of_nat (length (proxyList m)).

End ProxyRotation.


(** ** The main package: one worker, and [main] *)

Module CrawlRuns.
Import Crawl.

Definition saveUserData (userData : UserData) (h : history) : history :=
  SaveUser userData :: h.

(** One pass through the loop of [worker], for the ID received (lines
    93-107); [None] when a walk is cut off by [fuel]. *)
Definition worker_pass (fuel : nat) (c : Crawler) (userID : string)
  (h : history) : option history :=
  let h1 := CallGetUserInfo userID :: h in
  match GetUserInfo (scraper c) h userID with
  | None => Some h1
  | Some userData =>
      match crawlUserVideos fuel c userID (saveUserData userData h1) with
      | None => None
      | Some h2 =>
          Some (Sleep (GoInt.mul (Timeout (config c)) GoTime.Second) :: h2)
      end
  end.

(** A worker that runs alone, on the IDs it receives in the order it
    receives them. *)
Fixpoint worker (fuel : nat) (c : Crawler) (userIDs : list string)
  (h : history) : option history :=
  match userIDs with
  | [] => Some h
  | userID :: rest =>
      match worker_pass fuel c userID h with
      | None => None
      | Some h1 => worker fuel c rest h1
      end
  end.

(** *** Walks that have not ended

    The history a walk has built when it is cut off after [fuel] passes, or
    has ended before: a walk against a platform that never ends it has a
    history at every moment, and no last one. *)

Fixpoint crawlVideoComments_upto (fuel : nat) (c : Crawler) (videoID : string)
  (w : walk) (h : history) : history :=
  match fuel with
  | O => h
  | S fuel' =>
      match crawlVideoComments_pass c videoID w h with
      | Break h' => h'
      | Continue w' h' => crawlVideoComments_upto fuel' c videoID w' h'
      end
  end.

(** The loop over the videos of a page; the flag says whether it got to
    its end. *)
Fixpoint crawlUserVideos_each_upto (fuel : nat) (c : Crawler)
  (videos : list VideoData) (h : history) : history * bool :=
  match videos with
  | [] => (h, true)
  | video :: rest =>
      match crawlVideoComments fuel c (VideoID video) (saveVideoData video h) with
      | None =>
          (crawlVideoComments_upto fuel c (VideoID video) (mkWalk EmptyString 0)
             (saveVideoData video h), false)
      | Some h1 =>
          let h2 :=
            match Product video with
            | Some productInfo =>
                if negb (String.eqb (ProductID productInfo) EmptyString)
                then crawlProductInfo c (ProductID productInfo) h1
                else h1
            | None => h1
            end in
          crawlUserVideos_each_upto fuel c rest (Sleep (2 * GoTime.Second) :: h2)
      end
  end.

Fixpoint crawlUserVideos_upto (fuel nested : nat) (c : Crawler) (userID : string)
  (w : walk) (h : history) : history :=
  match fuel with
  | O => h
  | S fuel' =>
      let r := GetUserVideos (scraper c) h userID (cursor w) in
      let h1 := CallGetUserVideos userID (cursor w) :: h in
      if err r then
        let retryCount := GoInt.add (retryCount w) 1 in
        if retryCount >? Retries (config c) then h1
        else crawlUserVideos_upto fuel' nested c userID
               (mkWalk (cursor w) retryCount)
               (Sleep (GoInt.mul (Timeout (config c)) GoTime.Second) :: h1)
      else
        match crawlUserVideos_each_upto nested c (items r) h1 with
        | (h2, false) => h2
        | (h2, true) =>
            if String.eqb (nextCursor r) EmptyString
               || String.eqb (nextCursor r) (cursor w)
            then h2
            else crawlUserVideos_upto fuel' nested c userID
                   (mkWalk (nextCursor r) 0) (Sleep (5 * GoTime.Second) :: h2)
        end
  end.

Definition pass_history (p : pass) : history :=
  match p with
  | Continue _ h => h
  | Break h => h
  end.

(** *** Reading a history *)

(** What a history holds of one kind of event, oldest first. *)
Definition pick {A} (f : event -> option A) (h : history) : list A :=
  omap f (reverse h).

Definition profile_call (e : event) : option string :=
  match e with CallGetUserInfo userID => Some userID | _ => None end.
Definition product_call (e : event) : option string :=
  match e with CallGetProductInfo productID => Some productID | _ => None end.
Definition video_saved (e : event) : option VideoData :=
  match e with SaveVideo videoData => Some videoData | _ => None end.
Definition comment_saved (e : event) : option CommentData :=
  match e with SaveComment commentData => Some commentData | _ => None end.

(** The events of a comment walk, and those of a video walk. *)
Definition comment_event (e : event) : bool :=
  match e with
  | CallGetVideoComments _ _ | SaveComment _ | Sleep _ => true
  | _ => false
  end.
Definition walk_event (e : event) : bool :=
  match e with
  | CallGetUserInfo _ | SaveUser _ => false
  | _ => true
  end.

(** [h'] is [h] with events of one sort added. *)
Definition extends (P : event -> bool) (h h' : history) : Prop :=
  exists added, h' = added ++ h /\ Forall (fun e => P e = true) added.

(** The product ID [crawlUserVideos] looks up for a video (line 141). *)
Definition wanted_product (video : VideoData) : option string :=
  match Product video with
  | Some productInfo =>
      if negb (String.eqb (ProductID productInfo) EmptyString)
      then Some (ProductID productInfo) else None
  | None => None
  end.

(** The history of a walk that fails [n] times and again: [n] retries,
    each after a sleep of [d], and the call that exhausts them. *)
Definition given_up (call : event) (d : Z) (n : nat) (h : history) : history :=
  Nat.iter n (fun past => call :: Sleep d :: past) (call :: h).

(** *** [main] *)

(** [Initialize]; [scraperReady] and [dirMade] say whether
    [c.scraper.Initialize()] and [os.MkdirAll] succeed.  The result is
    [true] for a non-nil error. *)
Definition Initialize (cfg : Config) (scraperReady dirMade : bool) : bool :=
  if String.eqb (Platform cfg) "douyin" || String.eqb (Platform cfg) "kuaishou"
  then negb scraperReady || negb dirMade
  else true.

(** The list [main] hands to [Start] (lines 343-353): the positional
    arguments that are not empty or, without any, the value of [-users] as
    it stands. *)
Definition userIDList (args : list string) (users : string) : list string :=
  let ids := filter (fun id => id <> EmptyString) args in
  if (length ids =? 0)%nat && negb (String.eqb users EmptyString)
  then [users] else ids.

Inductive main_outcome :=
| Fatal                                          (* [log.Fatal] *)
| Panics                                         (* [make] of a channel of negative size *)
| Starts (cfg : Config) (userIDs : list string). (* the call of [Start] *)

(** The flags as parsed. *)
Record flags := mkFlags {
  flag_platform : string;
  flag_concurrency : Z;
  flag_timeout : Z;
  flag_retries : Z;
  flag_cookies : string;
  flag_output : string;
  flag_users : string;
  flag_args : list string
}.

Definition mainUserAgent : string :=
  "Mozilla/5.0 (Macintosh; Intel Mac OS X 10_15_7) AppleWebKit/537.36 (KHTML, like Gecko) Chrome/122.0.0.0 Safari/537.36".

Definition main_run (f : flags) (scraperReady dirMade : bool) : main_outcome :=
  if String.eqb (flag_cookies f) EmptyString then Fatal
  else if String.eqb (flag_users f) EmptyString then Fatal
  else
    let cfg := mkConfig (flag_concurrency f) mainUserAgent (flag_timeout f)
                 (flag_retries f) (flag_cookies f) (flag_platform f)
                 (flag_output f) in
    if flag_concurrency f <? 0 then Panics
    else if Initialize cfg scraperReady dirMade then Fatal
    else Starts cfg (userIDList (flag_args f) (flag_users f)).

End CrawlRuns.


(** ** Further concrete inputs *)

Module MoreFixtures.

(** A stand-in for the JSON encoding of an empty proxy list. *)
Definition empty_array (ps : list ProxyPool.ProxyInfo) : option string :=
  Some "[]".
Definition read_nothing (data : string) (into : list ProxyPool.ProxyInfo)
  : list ProxyPool.ProxyInfo * bool := (into, false).

Definition empty_pool : ProxyPool.ProxyPool :=
  ProxyPool.mkProxyPool [] "proxies.json" "http://probe" 3.

(** A text encoding of a proxy list that stands in for the JSON one: the
    records between square brackets and separated by semicolons, the fields
    of a record in the order of [ProxyInfo] and separated by commas, the
    two numbers in decimal, the flag as [true] or [false].  [read_proxies]
    parses that text; it reports an error, and keeps the slice it was
    given, for a text without the brackets, a record without eight fields,
    a number that is not decimal or a flag that is neither word. *)
Fixpoint fields (sep : Ascii.ascii) (s : string) : list string :=
  match s with
  | EmptyString => [EmptyString]
  | String a rest =>
      if Ascii.eqb a sep then EmptyString :: fields sep rest
      else match fields sep rest with
           | f :: fs => String a f :: fs
           | [] => [String a EmptyString]
           end
  end.

Fixpoint before_bracket (s : string) : option string :=
  match s with
  | EmptyString => None
  | String a rest =>
      match rest with
      | EmptyString => if Ascii.eqb a "]"%char then Some EmptyString else None
      | String _ _ => option_map (String a) (before_bracket rest)
      end
  end.

Definition write_number (z : Z) : string := NilEmpty.string_of_int (Z.to_int z).
Definition read_number (s : string) : option Z :=
  match s with
  | EmptyString => None
  | String _ _ => option_map Z.of_int (NilEmpty.int_of_string s)
  end.

Definition write_proxy (p : ProxyPool.ProxyInfo) : string :=
  String.concat ","
    [ProxyPool.IP p; ProxyPool.Port p; ProxyPool.Protocol p;
     ProxyPool.Username p; ProxyPool.Password p;
     write_number (ProxyPool.LastUsed p); write_number (ProxyPool.FailCount p);
     if ProxyPool.IsValid p then "true" else "false"].

Definition read_proxy (s : string) : option ProxyPool.ProxyInfo :=
  match fields ","%char s with
  | [ip; port; protocol; username; password; lastUsed; failCount; isValid] =>
      match read_number lastUsed, read_number failCount with
      | Some used, Some failures =>
          if String.eqb isValid "true"
          then Some (ProxyPool.mkProxyInfo ip port protocol username password
                       used failures true)
          else if String.eqb isValid "false"
          then Some (ProxyPool.mkProxyInfo ip port protocol username password
                       used failures false)
          else None
      | _, _ => None
      end
  | _ => None
  end.

Definition write_proxies (ps : list ProxyPool.ProxyInfo) : option string :=
  Some ("[" ++ String.concat ";" (write_proxy <$> ps) ++ "]")%string.

Definition read_proxies (data : string) (into : list ProxyPool.ProxyInfo)
  : list ProxyPool.ProxyInfo * bool :=
  match data with
  | String "["%char rest =>
      match before_bracket rest with
      | Some EmptyString => ([], false)
      | Some records =>
          match mapM read_proxy (fields ";"%char records) with
          | Some ps => (ps, false)
          | None => (into, true)
          end
      | None => (into, true)
      end
  | _ => (into, true)
  end.

(** A [url.Parse] that accepts every proxy string. *)
Definition any_url (s : string) : bool := true.

(** The first request succeeds, every other one is refused. *)
Definition first_passes (n : nat) : ProxyPoolMore.probe :=
  match n with
  | O => ProxyPoolMore.Status 200
  | S _ => ProxyPoolMore.Status 407
  end.

Definition from_api : list ProxyPoolMore.apiProxy :=
  [ProxyPoolMore.mkApiProxy "10.0.0.2" "3128" "http" "" "";
   ProxyPoolMore.mkApiProxy "10.0.0.3" "1080" "socks5" "" ""].

(** Three proxies, rotated every minute. *)
Definition rotation_config : ProxyRotation.Config :=
  ProxyRotation.mkConfig true "http"
    ["http://10.0.0.1:8080"; "http://10.0.0.2:8080"; "http://10.0.0.3:8080"] 60.

(** A platform that is down, behind the configuration of
    [Fixtures.crawler] (three retries, thirty seconds apart). *)
Definition down : Crawl.Scraper :=
  {| Crawl.GetUserInfo := fun _ _ => None;
     Crawl.GetUserVideos := fun _ _ _ => Crawl.mkPage [] "" true;
     Crawl.GetVideoComments := fun _ _ _ => Crawl.mkPage [] "" true;
     Crawl.GetProductInfo := fun _ _ => None |}.

Definition stranded : Crawl.Crawler :=
  Crawl.mkCrawler (Crawl.config Fixtures.crawler) down.

(** The same platform behind a configuration that asks for as many retries
    as an [int] holds. *)
Definition stubborn : Crawl.Crawler :=
  Crawl.mkCrawler
    (Crawl.mkConfig 2 "Mozilla/5.0" 30 GoInt.max_int "sid=1" "kuaishou" "output") down.

(** A platform like [Fixtures.platform] whose first page holds three
    videos: one with a product, one without, and one whose product has no
    ID. *)
Definition video2 : Crawl.VideoData :=
  Crawl.mkVideoData "v2" "u1" "sowing" "" 7 0 0 [] None.
Definition video3 : Crawl.VideoData :=
  Crawl.mkVideoData "v3" "u1" "market day" "" 3 0 0 []
    (Some (Crawl.mkProductInfo "" "pears" "fruit" "" 8)).

Definition market : Crawl.Scraper :=
  {| Crawl.GetUserInfo := Crawl.GetUserInfo Fixtures.platform;
     Crawl.GetUserVideos := fun _ _ cursor =>
       if String.eqb cursor "" then Crawl.mkPage [Fixtures.video1; video2; video3] "c1" false
       else Crawl.mkPage [] "c1" false;
     Crawl.GetVideoComments := Crawl.GetVideoComments Fixtures.platform;
     Crawl.GetProductInfo := Crawl.GetProductInfo Fixtures.platform |}.

Definition stall : Crawl.Crawler :=
  Crawl.mkCrawler (Crawl.config Fixtures.crawler) market.

(** A manager that has marked the account ["u1"], the account whose ID is
    the UTF-8 of U+4E2D, and the video ["v1"], and holds a cursor for
    ["u1"]. *)
Definition zhong : string := String "228" (String "184" (String "173" EmptyString)).
Definition progressed_manager : Checkpoint.Manager :=
  Checkpoint.out_manager
    (CheckpointCalls.perform_all Json.marshal Json.unmarshal
       [CheckpointCalls.CallMarkUserProcessed 1 1 1 "u1";
        CheckpointCalls.CallMarkUserProcessed 2 2 2 zhong;
        CheckpointCalls.CallMarkVideoProcessed 3 3 3 "v1";
        CheckpointCalls.CallSetUserCursor "u1" "c7"]
       Fixtures.fresh_manager ∅).

(** A manager that has marked an account whose ID is the single byte 255,
    which is not UTF-8. *)
Definition stray_id : string := String "255" EmptyString.
Definition stray_manager : Checkpoint.Manager :=
  Checkpoint.out_manager
    (Checkpoint.MarkUserProcessed Json.marshal 1 1 1 stray_id
       Fixtures.fresh_manager ∅).

(** A snapshot that names no map, as the file [{"platform": "kuaishou"}]
    decodes: [json.Unmarshal] leaves the four maps nil.  [loaded_manager]
    is the manager [Load] leaves behind for it. *)
Definition partial_snapshot : Checkpoint.Data :=
  Checkpoint.mkData "kuaishou" 0 0 None None None None (Checkpoint.mkStats 0 0 0 0).
Definition loaded_manager : Checkpoint.Manager :=
  Checkpoint.set_data partial_snapshot Fixtures.fresh_manager.

(** A manager with a save interval of 33554432 seconds, 2^25. *)
Definition patient_manager : Checkpoint.Manager :=
  Checkpoint.NewManager (Checkpoint.mkConfig true 33554432 "checkpoint.json") 0 0 0.

(** [crawler -cookies sid=1 -users u1,u2 -concurrency 0]. *)
Definition no_workers : CrawlRuns.flags :=
  CrawlRuns.mkFlags "douyin" 0 30 3 "sid=1" "output" "u1,u2" [].

End MoreFixtures.


(** * Properties *)

(** ** Machine integers *)

Ltac int_range :=
  unfold GoInt.in_range, GoInt.min_int, GoInt.max_int in *; lia.

Lemma wrap_in_range (z : Z) : GoInt.in_range z -> GoInt.wrap z = z.
Proof.
  unfold GoInt.in_range, GoInt.wrap, GoInt.min_int, GoInt.max_int. intros Hz.
  rewrite Z.mod_small; lia.
Qed.

Lemma wrap_range (z : Z) : GoInt.in_range (GoInt.wrap z).
Proof.
  unfold GoInt.in_range, GoInt.wrap, GoInt.min_int, GoInt.max_int.
  pose proof (Z.mod_pos_bound (z + 2 ^ 63) (2 ^ 64)). lia.
Qed.

Lemma saturate_range (z : Z) : GoInt.in_range (GoInt.saturate z).
Proof.
  unfold GoInt.in_range, GoInt.saturate, GoInt.min_int, GoInt.max_int. lia.
Qed.

Lemma quot_pos_divisor (a b : Z) :
  GoInt.in_range a -> 0 < b -> GoInt.quot a b = Some (Z.quot a b).
Proof.
  intros Ha Hb. unfold GoInt.quot.
  destruct (Z.eqb_spec b 0) as [->|_]; [lia|].
  f_equal. apply wrap_in_range.
  unfold GoInt.in_range, GoInt.min_int, GoInt.max_int in *.
  destruct (Z.le_gt_cases 0 a) as [Hpos|Hneg].
  - pose proof (Z.quot_pos a b Hpos Hb).
    assert (Z.quot a b <= a) by (apply Z.quot_le_upper_bound; nia). lia.
  - assert (Hopp : Z.quot a b = - Z.quot (- a) b)
      by (rewrite Z.quot_opp_l by lia; lia).
    assert (0 <= Z.quot (- a) b) by (apply Z.quot_pos; lia).
    assert (Z.quot (- a) b <= - a) by (apply Z.quot_le_upper_bound; nia). lia.
Qed.

Lemma quot_neg_dividend (a b : Z) : a < 0 -> 0 < b -> Z.quot a b <= 0.
Proof.
  intros Ha Hb. replace a with (- - a) by lia.
  rewrite Z.quot_opp_l by lia.
  assert (0 <= Z.quot (- a) b) by (apply Z.quot_pos; lia). lia.
Qed.

(** ** The rate limiter *)

Section RatelimitFacts.
Import Ratelimit.

Lemma min_is_Zmin (a b : Z) : Ratelimit.min a b = Z.min a b.
Proof. unfold Ratelimit.min. destruct (Z.ltb_spec a b); lia. Qed.

Lemma NewLimiter_capacity (config : Config) (now : Z) :
  requestsPerMinute (NewLimiter config now) =
    (if RequestsPerMinute config <=? 0 then 60 else RequestsPerMinute config)
  /\ tokens (NewLimiter config now) = requestsPerMinute (NewLimiter config now)
  /\ 0 < requestsPerMinute (NewLimiter config now).
Proof.
  unfold NewLimiter; simpl. repeat split.
  destruct (Z.leb_spec (RequestsPerMinute config) 0); lia.
Qed.

Lemma NewLimiter_tokens_ok (config : Config) (now : Z) :
  tokens_ok (NewLimiter config now).
Proof.
  destruct (NewLimiter_capacity config now) as (_ & Ht & Hpos).
  unfold tokens_ok. lia.
Qed.

Lemma refill_capacity (now : Z) (l l1 : Limiter) :
  refill now l = Some l1 ->
  requestsPerMinute l1 = requestsPerMinute l /\
  (tokens l1 = tokens l \/ tokens l1 <= requestsPerMinute l).
Proof.
  unfold refill. destruct (GoInt.quot _ _) as [n|]; [|discriminate].
  destruct (n >? 0); intros [= <-]; simpl; [|auto].
  split; [reflexivity|right]. rewrite min_is_Zmin. lia.
Qed.

Lemma await_tokens (now2 now3 : Z) (l : Limiter) :
  requestsPerMinute (fst (await now2 now3 l)) = requestsPerMinute l /\
  1 <= tokens (fst (await now2 now3 l)) /\
  (tokens (fst (await now2 now3 l)) = 1 \/
   tokens (fst (await now2 now3 l)) = tokens l) /\
  0 <= snd (await now2 now3 l).
Proof.
  unfold await. destruct (Z.leb_spec (tokens l) 0); simpl.
  - repeat split; auto; try lia.
    destruct (Z.gtb_spec (GoInt.sub (interval l)
                (GoTime.Since now2 (lastRefill l))) 0); lia.
  - repeat split; auto; lia.
Qed.

Lemma Wait_tokens_ok (now1 now2 now3 : Z) (l l' : Limiter) (slept : Z) :
  GoInt.in_range (requestsPerMinute l) ->
  tokens_ok l ->
  Wait now1 now2 now3 l = Some (l', slept) ->
  tokens_ok l' /\ requestsPerMinute l' = requestsPerMinute l /\ 0 <= slept.
Proof.
  unfold tokens_ok, Wait. intros Hcapr Hl.
  destruct (enabled l); simpl; [|intros [= <- <-]; repeat split; lia].
  destruct (refill now1 l) as [l1|] eqn:Hr; [|discriminate].
  destruct (refill_capacity _ _ _ Hr) as [Hcap Htok].
  pose proof (await_tokens now2 now3 l1) as (Hcap2 & Hone & Hcase & Hs).
  destruct (await now2 now3 l1) as [l2 s]; simpl in *.
  intros [= <- <-]. unfold consume; simpl. unfold GoInt.sub.
  assert (Hle : tokens l2 - 1 <= requestsPerMinute l) by (destruct Hcase, Htok; lia).
  rewrite wrap_in_range.
  - repeat split; [lia | lia | congruence | lia].
  - int_range.
Qed.

Lemma Wait_returns (now1 now2 now3 : Z) (l : Limiter) :
  interval l <> 0 -> exists l' slept, Wait now1 now2 now3 l = Some (l', slept).
Proof.
  intros Hi. unfold Wait. destruct (enabled l); simpl; [|eauto].
  unfold refill, GoInt.quot. destruct (Z.eqb_spec (interval l) 0); [contradiction|].
  destruct (_ >? 0); destruct (await _ _ _); eauto.
Qed.

Lemma refill_amount (now : Z) (l l1 : Limiter) :
  tokens_ok l ->
  0 < interval l ->
  tokens l + Z.div (GoTime.Since now (lastRefill l)) (interval l) <= GoInt.max_int ->
  refill now l = Some l1 ->
  tokens l1 =
    Z.min (requestsPerMinute l)
      (tokens l + Z.max 0 (Z.div (GoTime.Since now (lastRefill l)) (interval l)))
  /\ tokens l <= tokens l1.
Proof.
  unfold tokens_ok, refill. intros Hl Hi Hmax.
  pose proof (saturate_range (now - lastRefill l)) as Hel.
  fold (GoTime.Since now (lastRefill l)) in Hel.
  rewrite quot_pos_divisor by assumption.
  set (elapsed := GoTime.Since now (lastRefill l)) in *.
  destruct (Z.gtb_spec (Z.quot elapsed (interval l)) 0) as [Hadd|Hnone];
    intros [= <-]; simpl.
  - assert (Hpos : 0 <= elapsed).
    { destruct (Z.le_gt_cases 0 elapsed); [assumption|].
      pose proof (quot_neg_dividend elapsed (interval l)). lia. }
    rewrite Z.quot_div_nonneg in * by lia.
    rewrite min_is_Zmin. unfold GoInt.add. rewrite wrap_in_range.
    + lia.
    + int_range.
  - destruct (Z.le_gt_cases 0 elapsed) as [Hpos|Hneg].
    + rewrite Z.quot_div_nonneg in Hnone by lia.
      pose proof (Z.div_pos elapsed (interval l) Hpos Hi). lia.
    + assert (Z.div elapsed (interval l) < 0) by (apply Z.div_lt_upper_bound; lia).
      lia.
Qed.

(** C7.  The token count stays within [[0, requestsPerMinute]]: it is so
    after [NewLimiter]; every call of [Wait] that starts within the bounds
    ends within them, with the capacity unchanged, and [Wait] does return
    whenever the refill interval is not zero.  The lazy refill sets the
    count to [min capacity (tokens + floor (elapsed / interval))], adding
    nothing when the quotient is not positive, so it never takes tokens
    away; the bounds after [Wait] include that consuming a token leaves the
    count at zero or above. *)
Theorem limiter_tokens_invariant :
  (forall config now, tokens_ok (NewLimiter config now)) /\
  (forall now1 now2 now3 l l' slept,
      GoInt.in_range (requestsPerMinute l) ->
      tokens_ok l ->
      Wait now1 now2 now3 l = Some (l', slept) ->
      tokens_ok l' /\ requestsPerMinute l' = requestsPerMinute l) /\
  (forall now1 now2 now3 l,
      interval l <> 0 ->
      exists l' slept, Wait now1 now2 now3 l = Some (l', slept)) /\
  (forall now l l1,
      tokens_ok l ->
      0 < interval l ->
      tokens l + Z.div (GoTime.Since now (lastRefill l)) (interval l)
        <= GoInt.max_int ->
      refill now l = Some l1 ->
      tokens l1 =
        Z.min (requestsPerMinute l)
          (tokens l + Z.max 0 (Z.div (GoTime.Since now (lastRefill l)) (interval l)))
      /\ tokens l <= tokens l1 <= requestsPerMinute l).
Proof.
  split; [exact NewLimiter_tokens_ok|].
  split.
  { intros now1 now2 now3 l l' slept Hr Hl HW.
    destruct (Wait_tokens_ok _ _ _ _ _ _ Hr Hl HW) as (? & ? & _). auto. }
  split; [exact Wait_returns|].
  intros now l l1 Hl Hi Hmax Hr.
  destruct (refill_amount _ _ _ Hl Hi Hmax Hr) as [Heq Hle].
  split; [exact Heq|]. split; [exact Hle|]. rewrite Heq. apply Z.le_min_l.
Qed.

(** A limiter of two requests per minute, drained and then left alone for
    ninety-five seconds: the refill gives back [min 2 (0 + 3) = 2] tokens and
    [Wait] takes one. *)
Lemma limiter_tokens_invariant_witness :
  let l := mkLimiter true 2 30000000000 0 0 in
  let l1 := mkLimiter true 2 30000000000 2 90000000000 in
  let l' := mkLimiter true 2 30000000000 1 90000000000 in
  (tokens_ok l' /\ requestsPerMinute l' = requestsPerMinute l) /\
  (exists l'' slept, Wait 95000000000 95000000000 95000000000 l = Some (l'', slept)) /\
  (tokens l1 = Z.min 2 (0 + Z.max 0 3) /\ tokens l <= tokens l1 <= requestsPerMinute l).
Proof.
  intros l l1 l'.
  destruct limiter_tokens_invariant as (_ & Hwait & Hret & Hrefill).
  split; [|split].
  - apply (Hwait 95000000000 95000000000 95000000000 l l' 0).
    + unfold GoInt.in_range, GoInt.min_int, GoInt.max_int; simpl; lia.
    + unfold tokens_ok; simpl; lia.
    + reflexivity.
  - apply Hret. simpl; lia.
  - apply (Hrefill 95000000000 l l1).
    + unfold tokens_ok; simpl; lia.
    + simpl; lia.
    + vm_compute; discriminate.
    + reflexivity.
Defined.

(** C10.  [NewLimiter] on a configuration with [RequestsPerMinute <= 0]
    gives capacity 60, a refill interval of one second and a full bucket of
    60 tokens; on a positive [RequestsPerMinute] the capacity is the
    configured value (and the bucket starts full). *)
Theorem NewLimiter_defaults (config : Config) (now : Z) :
  (RequestsPerMinute config <= 0 ->
     requestsPerMinute (NewLimiter config now) = 60 /\
     interval (NewLimiter config now) = GoTime.Second /\
     interval (NewLimiter config now) = Z.quot GoTime.Minute 60 /\
     tokens (NewLimiter config now) = 60) /\
  (0 < RequestsPerMinute config ->
     requestsPerMinute (NewLimiter config now) = RequestsPerMinute config /\
     tokens (NewLimiter config now) = RequestsPerMinute config).
Proof.
  unfold NewLimiter. split; intros Hc; simpl.
  - destruct (Z.leb_spec (RequestsPerMinute config) 0); [|lia].
    repeat split; reflexivity.
  - destruct (Z.leb_spec (RequestsPerMinute config) 0); [lia|].
    split; reflexivity.
Qed.

Lemma NewLimiter_defaults_witness :
  (requestsPerMinute (NewLimiter (mkConfig true (-5)) 7) = 60 /\
   interval (NewLimiter (mkConfig true (-5)) 7) = GoTime.Second /\
   interval (NewLimiter (mkConfig true (-5)) 7) = Z.quot GoTime.Minute 60 /\
   tokens (NewLimiter (mkConfig true (-5)) 7) = 60) /\
  (requestsPerMinute (NewLimiter (mkConfig true 120) 7) = 120 /\
   tokens (NewLimiter (mkConfig true 120) 7) = 120).
Proof.
  split.
  - apply (proj1 (NewLimiter_defaults (mkConfig true (-5)) 7)). simpl; lia.
  - apply (proj2 (NewLimiter_defaults (mkConfig true 120) 7)). simpl; lia.
Defined.

End RatelimitFacts.


(** ** The checkpoint manager *)

Ltac run_method :=
  unfold Checkpoint.bind, Checkpoint.modify_data, Checkpoint.assign_data,
    Checkpoint.get, Checkpoint.ret, Checkpoint.ReadFile, Checkpoint.WriteFile,
    Checkpoint.set_lastSave_now.

Section CheckpointFacts.
Import Checkpoint.
Context {Bytes : Type}.
Variable marshal : Data -> option Bytes.
Variable unmarshal : Bytes -> option Data.

Lemma locked_held {A} (body : M A) (m : Manager) (fs : gmap string Bytes) :
  mutex m = true -> locked body m fs = Blocked m fs.
Proof. intros Hheld. unfold locked, Lock. now rewrite Hheld. Qed.

Lemma locked_free {A} (body : M A) (m : Manager) (fs : gmap string Bytes) :
  mutex m = false ->
  locked body m fs =
    match body (set_mutex true m) fs with
    | Returned a m2 fs2 => Returned a (set_mutex false m2) fs2
    | Blocked m2 fs2 => Blocked m2 fs2
    | Panicked m2 fs2 => Panicked (set_mutex false m2) fs2
    end.
Proof. intros Hfree. unfold locked, Lock. now rewrite Hfree. Qed.

Lemma relock (m : Manager) :
  mutex m = false -> set_mutex false (set_mutex true m) = m.
Proof. destruct m; simpl. now intros ->. Qed.

Lemma relock_data (d : Data) (m : Manager) :
  mutex m = false ->
  set_mutex false (set_data d (set_mutex true m)) = set_data d m.
Proof. destruct m; simpl. now intros ->. Qed.

(** Called with the mutex held, [CheckSave] either decides against a save
    or walks into [Save], whose [Lock] then never returns. *)
Lemma CheckSave_mutex_held (now updated saved : Z) (m : Manager)
  (fs : gmap string Bytes) :
  mutex m = true ->
  CheckSave marshal now updated saved m fs =
    if enabled m && (0 <? interval m) && due now m
    then Blocked m fs
    else Returned None m fs.
Proof.
  intros Hheld. unfold CheckSave, Save, ret.
  destruct (enabled m); simpl; [|reflexivity].
  destruct (Z.leb_spec (interval m) 0), (Z.ltb_spec 0 (interval m));
    try lia; simpl; [reflexivity|].
  destruct (due now m); [|reflexivity]. now apply locked_held.
Qed.

Lemma MarkUserProcessed_outcome (now updated saved : Z) (userID : string)
  (m : Manager) (fs : gmap string Bytes) :
  enabled m = true -> mutex m = false ->
  MarkUserProcessed marshal now updated saved userID m fs =
    match ProcessedUsers (data m) with
    | None => Panicked m fs
    | Some _ =>
        if (0 <? interval m) && due now m
        then Blocked (marked_user userID m) fs
        else Returned tt (set_mutex false (marked_user userID m)) fs
    end.
Proof.
  intros Hen Hfree. unfold MarkUserProcessed. rewrite Hen; simpl.
  rewrite locked_free by assumption. run_method. unfold mark_user. simpl.
  destruct (ProcessedUsers (data m)) as [users|] eqn:Hmap; simpl.
  - rewrite CheckSave_mutex_held by reflexivity. simpl. rewrite Hen; simpl.
    unfold marked_user. rewrite Hmap. simpl.
    change (due now _) with (due now m).
    destruct (_ && _); reflexivity.
  - now rewrite relock.
Qed.

Lemma MarkVideoProcessed_outcome (now updated saved : Z) (videoID : string)
  (m : Manager) (fs : gmap string Bytes) :
  enabled m = true -> mutex m = false ->
  MarkVideoProcessed marshal now updated saved videoID m fs =
    match ProcessedVideos (data m) with
    | None => Panicked m fs
    | Some _ =>
        if (0 <? interval m) && due now m
        then Blocked (marked_video videoID m) fs
        else Returned tt (set_mutex false (marked_video videoID m)) fs
    end.
Proof.
  intros Hen Hfree. unfold MarkVideoProcessed. rewrite Hen; simpl.
  rewrite locked_free by assumption. run_method. unfold mark_video. simpl.
  destruct (ProcessedVideos (data m)) as [videos|] eqn:Hmap; simpl.
  - rewrite CheckSave_mutex_held by reflexivity. simpl. rewrite Hen; simpl.
    unfold marked_video. rewrite Hmap. simpl.
    change (due now _) with (due now m).
    destruct (_ && _); reflexivity.
  - now rewrite relock.
Qed.

Lemma add_one (x : Z) :
  GoInt.in_range x -> x < GoInt.max_int -> GoInt.add x 1 = x + 1.
Proof.
  intros Hx Hlt. unfold GoInt.add. apply wrap_in_range.
  unfold GoInt.in_range in *. lia.
Qed.

(** A call that has returned found its map allocated and has released the
    mutex. *)
Lemma MarkUserProcessed_returned (now updated saved : Z) (userID : string)
  (m m1 : Manager) (fs fs1 : gmap string Bytes) :
  enabled m = true -> mutex m = false ->
  MarkUserProcessed marshal now updated saved userID m fs = Returned tt m1 fs1 ->
  m1 = set_mutex false (marked_user userID m) /\ fs1 = fs /\
  ProcessedUsers (data m) <> None.
Proof.
  intros Hen Hfree. rewrite MarkUserProcessed_outcome by assumption.
  destruct (ProcessedUsers (data m)); [|discriminate].
  destruct (_ && _); [discriminate|]. intros [= <- <-]. auto.
Qed.

Lemma MarkVideoProcessed_returned (now updated saved : Z) (videoID : string)
  (m m1 : Manager) (fs fs1 : gmap string Bytes) :
  enabled m = true -> mutex m = false ->
  MarkVideoProcessed marshal now updated saved videoID m fs = Returned tt m1 fs1 ->
  m1 = set_mutex false (marked_video videoID m) /\ fs1 = fs /\
  ProcessedVideos (data m) <> None.
Proof.
  intros Hen Hfree. rewrite MarkVideoProcessed_outcome by assumption.
  destruct (ProcessedVideos (data m)); [|discriminate].
  destruct (_ && _); [discriminate|]. intros [= <- <-]. auto.
Qed.

(** With its map allocated: without a save falling due, or with the
    auto-save switched off, the call returns and the file is not touched;
    with a save falling due the call never returns, and the file is not
    touched either. *)
Lemma MarkUserProcessed_never_saves (now updated saved : Z) (userID : string)
  (m : Manager) (fs : gmap string Bytes) :
  enabled m = true -> mutex m = false ->
  out_files (MarkUserProcessed marshal now updated saved userID m fs) = fs /\
  (ProcessedUsers (data m) <> None -> 0 < interval m -> due now m = true ->
     MarkUserProcessed marshal now updated saved userID m fs =
       Blocked (marked_user userID m) fs) /\
  (ProcessedUsers (data m) <> None -> interval m <= 0 \/ due now m = false ->
     MarkUserProcessed marshal now updated saved userID m fs =
       Returned tt (set_mutex false (marked_user userID m)) fs).
Proof.
  intros Hen Hfree. rewrite MarkUserProcessed_outcome by assumption.
  destruct (ProcessedUsers (data m)); [|repeat split; congruence].
  split; [destruct (_ && _); reflexivity|]. split.
  - intros _ Hi ->. destruct (Z.ltb_spec 0 (interval m)); [reflexivity|lia].
  - intros _ [Hi| ->].
    + destruct (Z.ltb_spec 0 (interval m)); [lia|reflexivity].
    + now rewrite andb_false_r.
Qed.

Lemma MarkVideoProcessed_never_saves (now updated saved : Z) (videoID : string)
  (m : Manager) (fs : gmap string Bytes) :
  enabled m = true -> mutex m = false ->
  out_files (MarkVideoProcessed marshal now updated saved videoID m fs) = fs /\
  (ProcessedVideos (data m) <> None -> 0 < interval m -> due now m = true ->
     MarkVideoProcessed marshal now updated saved videoID m fs =
       Blocked (marked_video videoID m) fs) /\
  (ProcessedVideos (data m) <> None -> interval m <= 0 \/ due now m = false ->
     MarkVideoProcessed marshal now updated saved videoID m fs =
       Returned tt (set_mutex false (marked_video videoID m)) fs).
Proof.
  intros Hen Hfree. rewrite MarkVideoProcessed_outcome by assumption.
  destruct (ProcessedVideos (data m)); [|repeat split; congruence].
  split; [destruct (_ && _); reflexivity|]. split.
  - intros _ Hi ->. destruct (Z.ltb_spec 0 (interval m)); [reflexivity|lia].
  - intros _ [Hi| ->].
    + destruct (Z.ltb_spec 0 (interval m)); [lia|reflexivity].
    + now rewrite andb_false_r.
Qed.

(** C4.  On an enabled manager, a [MarkUserProcessed] that returns has put
    the ID into the processed-set and added one to [TotalUsers]; a second
    call with the same ID leaves the processed-set as it was (the same
    map, hence the same members and the same size) and adds one to
    [TotalUsers] again.  The same holds of [MarkVideoProcessed],
    [ProcessedVideos] and [TotalVideos].  The state after the second call
    is read where the call leaves it, whether it returns or not.  A call
    returns when the processed-set is allocated (as [NewManager] leaves
    it) and no auto-save falls due in it; on a nil processed-set (as
    [Load] leaves it for a snapshot without the field) it panics. *)
Theorem MarkProcessed_twice (now1 updated1 saved1 now2 updated2 saved2 : Z)
  (id : string) (m : Manager) (fs : gmap string Bytes) :
  enabled m = true -> mutex m = false ->
  (let first := MarkUserProcessed marshal now1 updated1 saved1 id m fs in
   (ProcessedUsers (data m) <> None ->
    interval m <= 0 \/ due now1 m = false ->
    exists m1, first = Returned tt m1 fs) /\
   (ProcessedUsers (data m) = None -> first = Panicked m fs) /\
   forall m1 fs1, first = Returned tt m1 fs1 ->
     let second := MarkUserProcessed marshal now2 updated2 saved2 id m1 fs1 in
     ProcessedUsers (data m1) =
       Some (<[id := true]> (entries (ProcessedUsers (data m)))) /\
     bool_at (ProcessedUsers (data m1)) id = true /\
     TotalUsers (stats (data m1)) = GoInt.add (TotalUsers (stats (data m))) 1 /\
     ProcessedUsers (data (out_manager second)) = ProcessedUsers (data m1) /\
     size (entries (ProcessedUsers (data (out_manager second)))) =
       size (entries (ProcessedUsers (data m1))) /\
     TotalUsers (stats (data (out_manager second))) =
       GoInt.add (TotalUsers (stats (data m1))) 1 /\
     (interval m <= 0 \/ due now2 m = false ->
      exists m2, second = Returned tt m2 fs1) /\
     (0 <= TotalUsers (stats (data m)) -> TotalUsers (stats (data m)) + 2 <= GoInt.max_int ->
      TotalUsers (stats (data m1)) = TotalUsers (stats (data m)) + 1 /\
      TotalUsers (stats (data (out_manager second))) = TotalUsers (stats (data m)) + 2)) /\
  (let first := MarkVideoProcessed marshal now1 updated1 saved1 id m fs in
   (ProcessedVideos (data m) <> None ->
    interval m <= 0 \/ due now1 m = false ->
    exists m1, first = Returned tt m1 fs) /\
   (ProcessedVideos (data m) = None -> first = Panicked m fs) /\
   forall m1 fs1, first = Returned tt m1 fs1 ->
     let second := MarkVideoProcessed marshal now2 updated2 saved2 id m1 fs1 in
     ProcessedVideos (data m1) =
       Some (<[id := true]> (entries (ProcessedVideos (data m)))) /\
     bool_at (ProcessedVideos (data m1)) id = true /\
     TotalVideos (stats (data m1)) = GoInt.add (TotalVideos (stats (data m))) 1 /\
     ProcessedVideos (data (out_manager second)) = ProcessedVideos (data m1) /\
     size (entries (ProcessedVideos (data (out_manager second)))) =
       size (entries (ProcessedVideos (data m1))) /\
     TotalVideos (stats (data (out_manager second))) =
       GoInt.add (TotalVideos (stats (data m1))) 1 /\
     (interval m <= 0 \/ due now2 m = false ->
      exists m2, second = Returned tt m2 fs1) /\
     (0 <= TotalVideos (stats (data m)) -> TotalVideos (stats (data m)) + 2 <= GoInt.max_int ->
      TotalVideos (stats (data m1)) = TotalVideos (stats (data m)) + 1 /\
      TotalVideos (stats (data (out_manager second))) = TotalVideos (stats (data m)) + 2)).
Proof.
  intros Hen Hfree. split.
  - cbv zeta. split; [|split].
    + intros Hmap Hquiet.
      destruct (MarkUserProcessed_never_saves now1 updated1 saved1 id m fs Hen Hfree)
        as (_ & _ & Hret).
      rewrite (Hret Hmap Hquiet). eauto.
    + intros Hnil. rewrite MarkUserProcessed_outcome by assumption.
      now rewrite Hnil.
    + intros m1 fs1 Hret.
      destruct (MarkUserProcessed_returned _ _ _ _ _ _ _ _ Hen Hfree Hret)
        as (-> & -> & _).
      set (m1 := set_mutex false (marked_user id m)).
      assert (Hsecond : data (out_manager
                (MarkUserProcessed marshal now2 updated2 saved2 id m1 fs)) =
              data (marked_user id m1)).
      { rewrite MarkUserProcessed_outcome by (assumption || reflexivity).
        simpl. destruct (_ && _); reflexivity. }
      rewrite Hsecond. simpl.
      split; [reflexivity|].
      split; [unfold bool_at; simpl; now rewrite lookup_insert_eq|].
      split; [reflexivity|].
      rewrite insert_insert_eq.
      split; [reflexivity|]. split; [reflexivity|]. split; [reflexivity|].
      split.
      * intros Hquiet.
        destruct (MarkUserProcessed_never_saves now2 updated2 saved2 id m1 fs)
          as (_ & _ & Hret2); [assumption|reflexivity|].
        rewrite Hret2; [eauto|discriminate|exact Hquiet].
      * intros Hlo Hhi.
        rewrite (add_one (TotalUsers (stats (data m)))); [|int_range..].
        split; [reflexivity|]. rewrite add_one; int_range.
  - cbv zeta. split; [|split].
    + intros Hmap Hquiet.
      destruct (MarkVideoProcessed_never_saves now1 updated1 saved1 id m fs Hen Hfree)
        as (_ & _ & Hret).
      rewrite (Hret Hmap Hquiet). eauto.
    + intros Hnil. rewrite MarkVideoProcessed_outcome by assumption.
      now rewrite Hnil.
    + intros m1 fs1 Hret.
      destruct (MarkVideoProcessed_returned _ _ _ _ _ _ _ _ Hen Hfree Hret)
        as (-> & -> & _).
      set (m1 := set_mutex false (marked_video id m)).
      assert (Hsecond : data (out_manager
                (MarkVideoProcessed marshal now2 updated2 saved2 id m1 fs)) =
              data (marked_video id m1)).
      { rewrite MarkVideoProcessed_outcome by (assumption || reflexivity).
        simpl. destruct (_ && _); reflexivity. }
      rewrite Hsecond. simpl.
      split; [reflexivity|].
      split; [unfold bool_at; simpl; now rewrite lookup_insert_eq|].
      split; [reflexivity|].
      rewrite insert_insert_eq.
      split; [reflexivity|]. split; [reflexivity|]. split; [reflexivity|].
      split.
      * intros Hquiet.
        destruct (MarkVideoProcessed_never_saves now2 updated2 saved2 id m1 fs)
          as (_ & _ & Hret2); [assumption|reflexivity|].
        rewrite Hret2; [eauto|discriminate|exact Hquiet].
      * intros Hlo Hhi.
        rewrite (add_one (TotalVideos (stats (data m)))); [|int_range..].
        split; [reflexivity|]. rewrite add_one; int_range.
Qed.

(** C6.  A manager with a five-second save interval whose last save was at
    instant 0 is asked to mark a user (a video) at instant 5s, when a save
    is due.  [CheckSave] calls [Save] while [MarkUserProcessed] still holds
    the mutex; [Save] blocks in [Lock].  The call does not return and no
    file is written. *)
Theorem autosave_blocks (updated saved : Z) :
  let m := NewManager (mkConfig true 5 "checkpoint.json") 0 0 0 in
  let fs : gmap string Bytes := ∅ in
  due (5 * GoTime.Second) m = true /\
  MarkUserProcessed marshal (5 * GoTime.Second) updated saved "u1" m fs =
    Blocked (marked_user "u1" m) fs /\
  MarkVideoProcessed marshal (5 * GoTime.Second) updated saved "v1" m fs =
    Blocked (marked_video "v1" m) fs /\
  mutex (marked_user "u1" m) = true /\
  fs !! file m = None.
Proof.
  cbv zeta.
  assert (Hdue : due (5 * GoTime.Second)
                   (NewManager (mkConfig true 5 "checkpoint.json") 0 0 0) = true)
    by (vm_compute; reflexivity).
  split; [exact Hdue|].
  split.
  { apply MarkUserProcessed_never_saves;
      [reflexivity|reflexivity|discriminate|reflexivity|exact Hdue]. }
  split.
  { apply MarkVideoProcessed_never_saves;
      [reflexivity|reflexivity|discriminate|reflexivity|exact Hdue]. }
  split; reflexivity.
Qed.

Lemma Save_free (updated saved : Z) (m : Manager) (fs : gmap string Bytes) :
  enabled m = true -> mutex m = false ->
  Save marshal updated saved m fs =
    match marshal (set_LastUpdateTime updated (data m)) with
    | Some bytes =>
        Returned None
          (set_lastSave saved (set_data (set_LastUpdateTime updated (data m)) m))
          (<[file m := bytes]> fs)
    | None =>
        Returned (Some ErrMarshal)
          (set_data (set_LastUpdateTime updated (data m)) m) fs
    end.
Proof.
  intros Hen Hfree. unfold Save. rewrite Hen; simpl.
  rewrite locked_free by assumption. run_method. simpl.
  destruct m; simpl in *; subst.
  destruct (marshal _); reflexivity.
Qed.

Lemma Save_returned (updated saved : Z) (m m' : Manager)
  (fs fs' : gmap string Bytes) :
  enabled m = true ->
  Save marshal updated saved m fs = Returned None m' fs' ->
  mutex m = false /\
  exists bytes, marshal (set_LastUpdateTime updated (data m)) = Some bytes /\
                fs' = <[file m := bytes]> fs.
Proof.
  intros Hen Hsave. destruct (mutex m) eqn:Hmutex.
  - unfold Save in Hsave. rewrite Hen in Hsave; simpl in Hsave.
    rewrite locked_held in Hsave by assumption. discriminate.
  - rewrite Save_free in Hsave by assumption.
    destruct (marshal _) as [bytes|]; [|discriminate].
    injection Hsave as _ <-. eauto.
Qed.

Lemma Load_free (m : Manager) (fs : gmap string Bytes) :
  enabled m = true -> mutex m = false ->
  Load unmarshal m fs =
    match fs !! file m with
    | None => Returned None m fs
    | Some bytes =>
        match unmarshal bytes with
        | None => Returned (Some ErrParse) m fs
        | Some checkpointData => Returned None (set_data checkpointData m) fs
        end
    end.
Proof.
  intros Hen Hfree. unfold Load. rewrite Hen; simpl.
  rewrite locked_free by assumption. run_method. simpl.
  destruct (fs !! _) as [bytes|]; [|now rewrite relock].
  destruct (unmarshal bytes); simpl; [now rewrite relock_data|now rewrite relock].
Qed.

End CheckpointFacts.

Lemma MarkProcessed_twice_witness :
  let first := Checkpoint.MarkUserProcessed Fixtures.keep 1000000000 0 0 "u1"
                 Fixtures.fresh_manager Fixtures.no_files in
  let second := Checkpoint.MarkUserProcessed Fixtures.keep 2000000000 0 0 "u1"
                  (Checkpoint.out_manager first) (Checkpoint.out_files first) in
  (exists m1, first = Checkpoint.Returned tt m1 Fixtures.no_files) /\
  Checkpoint.ProcessedUsers (Checkpoint.data (Checkpoint.out_manager second)) =
    Checkpoint.ProcessedUsers (Checkpoint.data (Checkpoint.out_manager first)) /\
  Checkpoint.TotalUsers (Checkpoint.stats (Checkpoint.data (Checkpoint.out_manager second))) = 2.
Proof.
  intros first second.
  destruct (MarkProcessed_twice Fixtures.keep 1000000000 0 0 2000000000 0 0 "u1"
              Fixtures.fresh_manager Fixtures.no_files eq_refl eq_refl)
    as [(Hreturns & _ & Hsecond) _].
  split.
  - apply Hreturns; [discriminate|]. right. vm_compute. reflexivity.
  - destruct (Hsecond (Checkpoint.out_manager first) (Checkpoint.out_files first))
      as (_ & _ & _ & Hset & _ & _ & _ & Hcount).
    + vm_compute. reflexivity.
    + split; [exact Hset|]. apply Hcount; vm_compute; discriminate.
Defined.

(** ** The snapshot file *)

Section SnapshotFacts.
Import Checkpoint Json.

Lemma coerce_from_valid (skip : nat) (s : string) :
  valid_from skip s = true -> coerce_from skip s = s.
Proof.
  revert skip. induction s as [|a rest IH]; intros skip; [reflexivity|].
  destruct skip as [|k]; cbn [valid_from coerce_from].
  - destruct (rune_length (String a rest)); [|discriminate].
    intros Hrest. now rewrite IH.
  - intros Hrest. now rewrite IH.
Qed.

Lemma coerce_valid (s : string) : ValidString s = true -> coerce s = s.
Proof. apply coerce_from_valid. Qed.

Lemma assigned_in_order {V} (members : list (string * V)) :
  foldl (fun g kv => <[kv.1 := kv.2]> g) (∅ : gmap string V) members =
    list_to_map (reverse members).
Proof.
  induction members as [|kv members IH] using rev_ind; [reflexivity|].
  rewrite foldl_app, reverse_app. simpl. now rewrite IH.
Qed.

(** A map whose keys are valid UTF-8, and whose values the encoder writes
    as they are, is read back as it was. *)
Lemma decode_encode_map {V} (value : V -> V) (s : gomap V) :
  map_Forall (fun k v => ValidString k = true /\ value v = v) (entries s) ->
  decode_map (encode_map value s) = s.
Proof.
  destruct s as [g|]; [|reflexivity]. simpl. intros Hvalid. f_equal.
  assert (Hperm : sorted_entries g ≡ₚ map_to_list g)
    by apply merge_sort_Permutation.
  assert (Hsame : (fun kv : string * V => (coerce kv.1, value kv.2)) <$>
                    sorted_entries g = sorted_entries g).
  { rewrite <- (list_fmap_id (sorted_entries g)) at 2.
    apply Forall_fmap_ext. rewrite Hperm.
    apply map_Forall_to_list in Hvalid.
    eapply Forall_impl; [exact Hvalid|].
    intros [k v] [Hk Hv]; simpl in *. now rewrite (coerce_valid k Hk), Hv. }
  rewrite Hsame, assigned_in_order.
  rewrite <- (list_to_map_to_list g) at 2.
  apply list_to_map_proper.
  - rewrite fmap_reverse, reverse_Permutation, Hperm.
    apply NoDup_fst_map_to_list.
  - now rewrite reverse_Permutation.
Qed.

Lemma decode_encode_stats (d : Data) : stats (decode (encode d)) = stats d.
Proof. simpl. now destruct (stats d). Qed.

(** A nil map is written as [null] and read back as nil; an allocated one
    is read back allocated. *)
Lemma decode_encode_nil {V} (value : V -> V) (s : gomap V) :
  decode_map (encode_map value s) = None <-> s = None.
Proof. destruct s; simpl; split; congruence. Qed.

(** Validity of a record, by running [utf8.ValidString] over its entries. *)
Lemma valid_keys_check {V} (s : gomap V) :
  forallb (fun kv => ValidString kv.1) (map_to_list (entries s)) = true ->
  valid_keys s.
Proof.
  intros Hall. apply map_Forall_to_list, Forall_forall.
  intros [k v] Hin. rewrite forallb_forall in Hall.
  apply (Hall (k, v)). now apply list_elem_of_In.
Qed.

Lemma valid_values_check (s : gomap string) :
  forallb (fun kv => ValidString kv.2) (map_to_list (entries s)) = true ->
  valid_values s.
Proof.
  intros Hall. apply map_Forall_to_list, Forall_forall.
  intros [k v] Hin. rewrite forallb_forall in Hall.
  apply (Hall (k, v)). now apply list_elem_of_In.
Qed.

(** C5, as the code has it.  [Save] on a manager in service writes the
    snapshot and returns without error, and [Load] into a fresh manager
    for the same file returns without error with the record the file
    gives.  The counters of that record are those saved, and a map of it is
    nil exactly when the saved one was.  A processed-set whose IDs are
    valid UTF-8 is reproduced, and so is a cursor map whose IDs and cursors
    are valid UTF-8. *)
Theorem Save_Load_roundtrip (updated saved started updated' saved' : Z)
  (config : Config) (m : Manager) (fs : gmap string text) :
  enabled m = true -> mutex m = false ->
  Enabled config = true -> File config = file m ->
  exists m1 fs1 m2,
    Save marshal updated saved m fs = Returned None m1 fs1 /\
    same_progress (data m1) (data m) /\
    Load unmarshal (NewManager config started updated' saved') fs1 =
      Returned None m2 fs1 /\
    data m2 = decode (encode (data m1)) /\
    stats (data m2) = stats (data m) /\
    (ProcessedUsers (data m2) = None <-> ProcessedUsers (data m) = None) /\
    (ProcessedVideos (data m2) = None <-> ProcessedVideos (data m) = None) /\
    (UserCursors (data m2) = None <-> UserCursors (data m) = None) /\
    (CommentCursors (data m2) = None <-> CommentCursors (data m) = None) /\
    (valid_keys (ProcessedUsers (data m)) ->
       ProcessedUsers (data m2) = ProcessedUsers (data m)) /\
    (valid_keys (ProcessedVideos (data m)) ->
       ProcessedVideos (data m2) = ProcessedVideos (data m)) /\
    (valid_keys (UserCursors (data m)) -> valid_values (UserCursors (data m)) ->
       UserCursors (data m2) = UserCursors (data m)) /\
    (valid_keys (CommentCursors (data m)) ->
     valid_values (CommentCursors (data m)) ->
       CommentCursors (data m2) = CommentCursors (data m)) /\
    (valid_progress (data m) -> same_progress (data m2) (data m)).
Proof.
  intros Hen Hfree Hon Hfile.
  assert (Hsets : forall s : gomap bool,
             valid_keys s -> decode_map (encode_map id s) = s).
  { intros s Hs. apply decode_encode_map.
    intros k v Hkv. split; [exact (Hs k v Hkv)|reflexivity]. }
  assert (Hcursors : forall s : gomap string,
             valid_keys s -> valid_values s ->
             decode_map (encode_map coerce s) = s).
  { intros s Hk Hv. apply decode_encode_map.
    intros k v Hkv. split; [exact (Hk k v Hkv)|].
    apply coerce_valid. exact (Hv k v Hkv). }
  eexists _, _, _.
  split; [rewrite Save_free by assumption; reflexivity|].
  split; [repeat split|].
  split.
  { rewrite Load_free by (simpl; (assumption || reflexivity)). simpl.
    rewrite Hfile, lookup_insert_eq. reflexivity. }
  simpl. split; [reflexivity|].
  split; [now destruct (stats (data m))|].
  do 4 (split; [apply decode_encode_nil|]).
  split; [apply Hsets|]. split; [apply Hsets|].
  split; [apply Hcursors|]. split; [apply Hcursors|].
  intros (Hu & Hv & Huk & Huv & Hck & Hcv). unfold same_progress. simpl.
  split; [now apply Hsets|]. split; [now apply Hsets|].
  split; [now apply Hcursors|]. split; [now apply Hcursors|].
  now destruct (stats (data m)).
Qed.

End SnapshotFacts.

Lemma Save_Load_roundtrip_witness :
  let m := MoreFixtures.progressed_manager in
  Checkpoint.bool_at (Checkpoint.ProcessedUsers (Checkpoint.data m))
    MoreFixtures.zhong = true /\
  exists m1 fs1 m2,
    Checkpoint.Save Json.marshal 4 5 m ∅ = Checkpoint.Returned None m1 fs1 /\
    Checkpoint.Load Json.unmarshal Fixtures.fresh_manager fs1 =
      Checkpoint.Returned None m2 fs1 /\
    Checkpoint.same_progress (Checkpoint.data m2) (Checkpoint.data m).
Proof.
  intros m. split; [vm_compute; reflexivity|].
  destruct (Save_Load_roundtrip 4 5 0 0 0 Fixtures.checkpoint_config m ∅
              eq_refl eq_refl eq_refl eq_refl)
    as (m1 & fs1 & m2 & Hsave & _ & Hload & _ & _ & _ & _ & _ & _ & _ & _ & _ & _ &
        Hall).
  exists m1, fs1, m2. split; [exact Hsave|]. split; [exact Hload|].
  apply Hall.
  repeat split;
    (apply valid_keys_check || apply valid_values_check); vm_compute; reflexivity.
Defined.

(** C5 as stated fails on an ID that is not UTF-8: the encoder writes
    U+FFFD for the byte 255, so the manager that loads the snapshot holds
    the account under another ID and no longer counts it as processed. *)
Lemma roundtrip_loses_invalid_utf8 :
  let m := MoreFixtures.stray_manager in
  let saved := Checkpoint.Save Json.marshal 2 3 m ∅ in
  let m1 := Checkpoint.out_manager saved in
  let fs1 := Checkpoint.out_files saved in
  let m2 := Checkpoint.out_manager
              (Checkpoint.Load Json.unmarshal Fixtures.fresh_manager fs1) in
  Checkpoint.enabled m = true /\
  saved = Checkpoint.Returned None m1 fs1 /\
  Checkpoint.Load Json.unmarshal Fixtures.fresh_manager fs1 =
    Checkpoint.Returned None m2 fs1 /\
  Checkpoint.IsUserProcessed MoreFixtures.stray_id m1 fs1 =
    Checkpoint.Returned true m1 fs1 /\
  Checkpoint.IsUserProcessed MoreFixtures.stray_id m2 fs1 =
    Checkpoint.Returned false m2 fs1 /\
  Checkpoint.IsUserProcessed Json.replacement m2 fs1 =
    Checkpoint.Returned true m2 fs1 /\
  Checkpoint.ProcessedUsers (Checkpoint.data m2) <>
    Checkpoint.ProcessedUsers (Checkpoint.data m1) /\
  ~ Checkpoint.same_progress (Checkpoint.data m2) (Checkpoint.data m).
Proof.
  intros m saved m1 fs1 m2.
  assert (Hdiffer : forall s,
            Checkpoint.ProcessedUsers (Checkpoint.data m2) = s ->
            Checkpoint.bool_at s MoreFixtures.stray_id = false).
  { intros s <-. vm_compute. reflexivity. }
  split; [reflexivity|].
  split; [vm_compute; reflexivity|].
  split; [vm_compute; reflexivity|].
  split; [vm_compute; reflexivity|].
  split; [vm_compute; reflexivity|].
  split; [vm_compute; reflexivity|].
  split.
  - intros Heq. apply Hdiffer in Heq. vm_compute in Heq. discriminate.
  - intros (Heq & _). apply Hdiffer in Heq. vm_compute in Heq. discriminate.
Qed.

(** ** The proxy pool *)

Section ProxyPoolFacts.
Import ProxyPool.

Lemma same_endpoint_spec (ip port : string) (proxy : ProxyInfo) :
  same_endpoint ip port proxy = true <-> endpoint proxy = (ip, port).
Proof.
  unfold same_endpoint, endpoint. rewrite andb_true_iff, !String.eqb_eq.
  split; [intros [-> ->]; reflexivity | intros [= -> ->]; auto].
Qed.

Lemma usable_spec (limit : Z) (proxy : ProxyInfo) :
  usable limit proxy = true <-> IsValid proxy = true /\ FailCount proxy < limit.
Proof. unfold usable. rewrite andb_true_iff, Z.ltb_lt. reflexivity. Qed.

Lemma usable_touch (limit now : Z) (proxy : ProxyInfo) :
  usable limit (touch now proxy) = usable limit proxy.
Proof. reflexivity. Qed.

(** Every position collected by [validProxies] holds a usable record. *)
Lemma validProxies_sound (limit : Z) (ps : list ProxyInfo) (k i : nat) :
  i ∈ validProxies limit k ps ->
  exists proxy, (k <= i)%nat /\ ps !! (i - k)%nat = Some proxy /\ usable limit proxy = true.
Proof.
  revert k. induction ps as [|p ps IH]; intros k; simpl.
  - intros H. inversion H.
  - destruct (usable limit p) eqn:Hp.
    + rewrite elem_of_cons. intros [->|Hin].
      * exists p. rewrite Nat.sub_diag. auto.
      * destruct (IH _ Hin) as (q & Hle & Hq & Hu). exists q.
        replace (i - k)%nat with (S (i - S k)) by lia. auto with lia.
    + intros Hin. destruct (IH _ Hin) as (q & Hle & Hq & Hu). exists q.
      replace (i - k)%nat with (S (i - S k)) by lia. auto with lia.
Qed.

(** No usable record is missed. *)
Lemma validProxies_nil (limit : Z) (ps : list ProxyInfo) (k : nat) :
  validProxies limit k ps = [] <->
  forall proxy, proxy ∈ ps -> usable limit proxy = false.
Proof.
  revert k. induction ps as [|p ps IH]; intros k; simpl.
  - split; [intros _ q Hq; inversion Hq | reflexivity].
  - destruct (usable limit p) eqn:Hp.
    + split; [discriminate|]. intros H.
      specialize (H p (list_elem_of_here _ _)). congruence.
    + rewrite IH. split.
      * intros H q. rewrite elem_of_cons. intros [->|Hq]; auto.
      * intros H q Hq. apply H. now apply list_elem_of_further.
Qed.

Lemma Intn_below (rnd n : nat) : (n <> 0 -> Intn rnd n < n)%nat.
Proof. intros Hn. unfold Intn. now apply Nat.mod_upper_bound. Qed.

(** What [GetProxy] does when some record is usable. *)
Lemma GetProxy_selects (rnd : nat) (now : Z) (p : ProxyPool) :
  validProxies (maxFailures p) 0 (proxies p) <> [] ->
  exists i original,
    proxies p !! i = Some original /\
    usable (maxFailures p) original = true /\
    GetProxy rnd now p =
      (Some (touch now original),
       set_proxies (<[i := touch now original]> (proxies p)) p).
Proof.
  intros Hne. unfold GetProxy.
  set (valid := validProxies (maxFailures p) 0 (proxies p)) in *.
  destruct (Nat.eqb_spec (length valid) 0) as [Hz|Hnz].
  { destruct valid; [contradiction|discriminate]. }
  destruct (lookup_lt_is_Some_2 valid (Intn rnd (length valid))
              (Intn_below _ _ Hnz)) as [i Hi].
  rewrite Hi.
  assert (Hin : i ∈ valid) by (apply list_elem_of_lookup; eauto).
  destruct (validProxies_sound _ _ _ _ Hin) as (q & _ & Hq & Hu).
  rewrite Nat.sub_0_r in Hq. rewrite Hq. eauto.
Qed.

(** C8.  [GetProxy] returns nil exactly when no record of the pool has
    [IsValid] set and [FailCount] below [maxFailures]; a record it returns
    has [IsValid] set and [FailCount] below [maxFailures], and it is the
    record at some position of the pool, there and in the result with
    [LastUsed] brought up to date. *)
Theorem GetProxy_usable (rnd : nat) (now : Z) (p : ProxyPool) :
  (fst (GetProxy rnd now p) = None <->
   forall proxy, proxy ∈ proxies p ->
     ~ (IsValid proxy = true /\ FailCount proxy < maxFailures p)) /\
  (forall selected, fst (GetProxy rnd now p) = Some selected ->
     IsValid selected = true /\
     FailCount selected < maxFailures p /\
     selected ∈ proxies (snd (GetProxy rnd now p)) /\
     exists i original,
       proxies p !! i = Some original /\
       selected = touch now original /\
       proxies (snd (GetProxy rnd now p)) = <[i := selected]> (proxies p)).
Proof.
  destruct (validProxies (maxFailures p) 0 (proxies p)) as [|i0 rest] eqn:Hvalid.
  - assert (Hnone : GetProxy rnd now p = (None, p))
      by (unfold GetProxy; rewrite Hvalid; reflexivity).
    rewrite Hnone; simpl. split; [|discriminate].
    split; [|reflexivity]. intros _ q Hq Hu.
    apply usable_spec in Hu.
    pose proof (proj1 (validProxies_nil _ _ _) Hvalid q Hq). congruence.
  - destruct (GetProxy_selects rnd now p) as (i & original & Hi & Hu & Hget).
    { rewrite Hvalid. discriminate. }
    rewrite Hget; simpl. split.
    + split; [discriminate|]. intros Hall. exfalso.
      apply (Hall original); [apply list_elem_of_lookup; eauto|].
      now apply usable_spec.
    + intros selected [= <-].
      apply usable_spec in Hu. destruct Hu as [Hv Hf].
      repeat split; try assumption.
      * apply list_elem_of_lookup. exists i.
        apply list_lookup_insert_eq. eapply lookup_lt_Some; eauto.
      * eauto.
Qed.

Lemma endpoint_refresh (proxy existing : ProxyInfo) :
  endpoint (refresh proxy existing) = endpoint existing.
Proof. reflexivity. Qed.

(** The scan stops at the first entry with the endpoint of [proxy] and
    rewrites that entry alone. *)
Lemma AddProxy_scan_Some (proxy : ProxyInfo) (ps ps' : list ProxyInfo) :
  AddProxy_scan proxy ps = Some ps' ->
  exists i existing,
    ps !! i = Some existing /\
    endpoint existing = endpoint proxy /\
    ps' = <[i := refresh proxy existing]> ps.
Proof.
  revert ps'. induction ps as [|e ps IH]; intros ps'; simpl; [discriminate|].
  destruct (same_endpoint (IP proxy) (Port proxy) e) eqn:He.
  - intros [= <-]. exists 0%nat, e. apply same_endpoint_spec in He. auto.
  - destruct (AddProxy_scan proxy ps) as [qs|]; [|discriminate].
    intros [= <-]. destruct (IH qs eq_refl) as (i & x & Hi & Hx & ->).
    exists (S i), x. auto.
Qed.

Lemma AddProxy_scan_None (proxy : ProxyInfo) (ps : list ProxyInfo) :
  AddProxy_scan proxy ps = None <->
  forall existing, existing ∈ ps -> endpoint existing <> endpoint proxy.
Proof.
  induction ps as [|e ps IH]; simpl.
  - split; [intros _ q Hq; inversion Hq | reflexivity].
  - destruct (same_endpoint (IP proxy) (Port proxy) e) eqn:He.
    + split; [discriminate|]. intros H. exfalso.
      apply (H e); [apply list_elem_of_here|]. now apply same_endpoint_spec.
    + destruct (AddProxy_scan proxy ps) as [qs|]; simpl.
      * split; [discriminate|]. intros H.
        assert (Hno : Some qs = None); [|discriminate].
        apply IH. intros q Hq. apply H. now apply list_elem_of_further.
      * split; [|reflexivity]. intros _ q. rewrite elem_of_cons.
        intros [->|Hq]; [|now apply (proj1 IH)].
        intros Heq. apply same_endpoint_spec in Heq. congruence.
Qed.

Lemma endpoints_insert_refresh (proxy existing : ProxyInfo)
  (ps : list ProxyInfo) (i : nat) :
  ps !! i = Some existing ->
  endpoint <$> <[i := refresh proxy existing]> ps = endpoint <$> ps.
Proof.
  intros Hi. rewrite list_fmap_insert, endpoint_refresh.
  apply list_insert_id. now rewrite list_lookup_fmap, Hi.
Qed.

Lemma AddProxy_NoDup (proxy : ProxyInfo) (p : ProxyPool) :
  NoDup (endpoint <$> proxies p) -> NoDup (endpoint <$> proxies (AddProxy proxy p)).
Proof.
  intros Hnd. unfold AddProxy.
  destruct (AddProxy_scan proxy (proxies p)) as [ps|] eqn:Hscan; simpl.
  - destruct (AddProxy_scan_Some _ _ _ Hscan) as (i & x & Hi & _ & ->).
    now rewrite endpoints_insert_refresh.
  - rewrite fmap_app. apply NoDup_app. split; [assumption|]. split.
    + intros ep Hep Hin.
      apply list_elem_of_fmap in Hin as (q' & -> & Hq').
      apply list_elem_of_singleton in Hq' as ->.
      apply list_elem_of_fmap in Hep as (q & Heq & Hq).
      now apply (proj1 (AddProxy_scan_None _ _) Hscan q).
    + apply NoDup_singleton.
Qed.

Lemma RemoveProxy_scan_subset (ip port : string) (ps : list ProxyInfo)
  (q : ProxyInfo) :
  q ∈ RemoveProxy_scan ip port ps -> q ∈ ps.
Proof.
  induction ps as [|e ps IH]; simpl; [auto|].
  destruct (same_endpoint ip port e).
  - apply list_elem_of_further.
  - rewrite !elem_of_cons. intros [->|Hq]; auto.
Qed.

Lemma RemoveProxy_NoDup (ip port : string) (p : ProxyPool) :
  NoDup (endpoint <$> proxies p) ->
  NoDup (endpoint <$> proxies (RemoveProxy ip port p)).
Proof.
  unfold RemoveProxy; simpl. induction (proxies p) as [|e ps IH]; simpl; [auto|].
  rewrite NoDup_cons. intros [Hnotin Hnd].
  destruct (same_endpoint ip port e); [assumption|].
  rewrite fmap_cons. apply NoDup_cons. split; [|auto].
  intros Hin. apply Hnotin.
  apply list_elem_of_fmap in Hin as (q & -> & Hq).
  apply list_elem_of_fmap_2. eapply RemoveProxy_scan_subset; eauto.
Qed.

Lemma apply_edits_NoDup (es : list edit) (p : ProxyPool) :
  NoDup (endpoint <$> proxies p) ->
  NoDup (endpoint <$> proxies (apply_edits es p)).
Proof.
  unfold apply_edits. revert p. induction es as [|e es IH]; intros p Hnd; simpl.
  - assumption.
  - apply IH. destruct e; simpl; [now apply AddProxy_NoDup | now apply RemoveProxy_NoDup].
Qed.

(** C9.  From a pool in which no two entries share (IP, Port), no sequence
    of [AddProxy] and [RemoveProxy] calls leads to a pool in which two
    entries do.  When [AddProxy] finds an entry with the (IP, Port) of its
    argument, the pool keeps its length and every other entry; the matched
    entry takes [Protocol], [Username], [Password] and [IsValid] from the
    argument and keeps its [IP], [Port], [FailCount] and [LastUsed]. *)
Theorem AddProxy_upsert :
  (forall es p,
      NoDup (endpoint <$> proxies p) ->
      NoDup (endpoint <$> proxies (apply_edits es p))) /\
  (forall proxy p,
      (exists existing, existing ∈ proxies p /\ endpoint existing = endpoint proxy) ->
      exists i existing updated,
        proxies p !! i = Some existing /\
        endpoint existing = endpoint proxy /\
        proxies (AddProxy proxy p) = <[i := updated]> (proxies p) /\
        length (proxies (AddProxy proxy p)) = length (proxies p) /\
        (forall j, j <> i -> proxies (AddProxy proxy p) !! j = proxies p !! j) /\
        (IP updated = IP existing /\ Port updated = Port existing /\
         FailCount updated = FailCount existing /\
         LastUsed updated = LastUsed existing) /\
        (Protocol updated = Protocol proxy /\ Username updated = Username proxy /\
         Password updated = Password proxy /\ IsValid updated = IsValid proxy) /\
        (proxyFile (AddProxy proxy p) = proxyFile p /\
         testURL (AddProxy proxy p) = testURL p /\
         maxFailures (AddProxy proxy p) = maxFailures p)).
Proof.
  split; [exact apply_edits_NoDup|].
  intros proxy p (e & He & Hep). unfold AddProxy.
  destruct (AddProxy_scan proxy (proxies p)) as [ps|] eqn:Hscan.
  - destruct (AddProxy_scan_Some _ _ _ Hscan) as (i & x & Hi & Hx & ->).
    exists i, x, (refresh proxy x). simpl.
    split; [assumption|]. split; [assumption|]. split; [reflexivity|].
    split; [apply length_insert|].
    split; [intros j Hj; now apply list_lookup_insert_ne|].
    repeat split.
  - exfalso. now apply (proj1 (AddProxy_scan_None _ _) Hscan e).
Qed.

End ProxyPoolFacts.

Lemma GetProxy_usable_witness :
  let selected := ProxyPool.touch 500 Fixtures.proxy_a in
  fst (ProxyPool.GetProxy 7 500 Fixtures.two_proxies) = Some selected /\
  ProxyPool.IsValid selected = true /\
  ProxyPool.FailCount selected < 3 /\
  ~ (fst (ProxyPool.GetProxy 7 500 Fixtures.two_proxies) = None).
Proof.
  intros selected.
  destruct (GetProxy_usable 7 500 Fixtures.two_proxies) as [Hnone Hsome].
  destruct (Hsome selected eq_refl) as (Hvalid & Hfail & _).
  split; [reflexivity|]. split; [exact Hvalid|]. split; [exact Hfail|].
  intros Hnil. apply (proj1 Hnone Hnil Fixtures.proxy_a).
  - apply list_elem_of_here.
  - split; [reflexivity|]. simpl. lia.
Defined.

Lemma AddProxy_upsert_witness :
  NoDup (ProxyPool.endpoint <$>
           ProxyPool.proxies
             (ProxyPool.apply_edits
                [ProxyPool.Add Fixtures.proxy_a_again;
                 ProxyPool.Remove "10.0.0.2" "3128";
                 ProxyPool.Add Fixtures.proxy_b]
                Fixtures.two_proxies)) /\
  length (ProxyPool.proxies (ProxyPool.AddProxy Fixtures.proxy_a_again Fixtures.two_proxies)) = 2%nat.
Proof.
  destruct AddProxy_upsert as [Hnodup Hmatch]. split.
  - apply Hnodup. simpl.
    apply NoDup_cons. split; [|apply NoDup_singleton].
    rewrite list_elem_of_singleton. discriminate.
  - destruct (Hmatch Fixtures.proxy_a_again Fixtures.two_proxies)
      as (i & existing & updated & _ & _ & _ & Hlen & _).
    + exists Fixtures.proxy_a. split; [apply list_elem_of_here | reflexivity].
    + exact Hlen.
Defined.

(** ** The pagination loops *)

Section PaginationFacts.
Import Crawl.
Variable c : Crawler.

(** *** Comment walks *)

Lemma comment_cursors_saved (videoID : string) (comments : list CommentData)
  (h : history) :
  comment_cursors videoID
    (fold_left (fun h comment => saveCommentData comment h) comments h)
  = comment_cursors videoID h.
Proof.
  revert h. induction comments as [|x xs IH]; intros h; simpl; [reflexivity|].
  now rewrite IH.
Qed.

(** Each pass submits the cursor of the walk once, and nothing else. *)
Lemma crawlVideoComments_pass_calls (videoID : string) (w : walk) (h : history) :
  match crawlVideoComments_pass c videoID w h with
  | Continue _ h' | Break h' =>
      comment_cursors videoID h' = comment_cursors videoID h ++ [cursor w]
  end.
Proof.
  unfold crawlVideoComments_pass.
  destruct (err _).
  - destruct (_ >? _); simpl; now rewrite String.eqb_refl.
  - destruct (_ || _); simpl; rewrite comment_cursors_saved; simpl;
      now rewrite String.eqb_refl.
Qed.

(** A terminal answer ends the loop in that pass. *)
Lemma crawlVideoComments_pass_terminal (videoID : string) (w : walk) (h : history) :
  terminal (cursor w) (GetVideoComments (scraper c) h videoID (cursor w)) = true ->
  exists h', crawlVideoComments_pass c videoID w h = Break h'.
Proof.
  unfold terminal, crawlVideoComments_pass. rewrite andb_true_iff.
  intros [Hok Hend]. apply negb_true_iff in Hok. rewrite Hok, Hend. eauto.
Qed.

(** A pass that goes round again either repeats its cursor after an error,
    or moves on to the cursor it was given, which is then neither empty nor
    the cursor just used. *)
Lemma crawlVideoComments_pass_continue (videoID : string) (w w' : walk)
  (h h' : history) :
  crawlVideoComments_pass c videoID w h = Continue w' h' ->
  let r := GetVideoComments (scraper c) h videoID (cursor w) in
  (err r = true /\ cursor w' = cursor w) \/
  (err r = false /\ cursor w' = nextCursor r /\
   cursor w' <> EmptyString /\ cursor w' <> cursor w).
Proof.
  unfold crawlVideoComments_pass.
  destruct (err _) eqn:Herr.
  - destruct (_ >? _); [discriminate|]. intros [= <- _]. left; auto.
  - destruct (String.eqb_spec (nextCursor (GetVideoComments (scraper c) h videoID (cursor w)))
                EmptyString) as [|Hne]; [discriminate|].
    destruct (String.eqb_spec (nextCursor (GetVideoComments (scraper c) h videoID (cursor w)))
                (cursor w)) as [|Hne']; [discriminate|].
    simpl. intros [= <- _]. right; auto.
Qed.

Lemma crawlVideoComments_at_plus (j n : nat) (videoID : string) (w : walk)
  (h : history) :
  crawlVideoComments_at (j + n) c videoID w h =
    match crawlVideoComments_at j c videoID w h with
    | Some (w', h') => crawlVideoComments_at n c videoID w' h'
    | None => None
    end.
Proof.
  revert w h. induction j as [|j IH]; intros w h; simpl; [reflexivity|].
  destruct (crawlVideoComments_pass c videoID w h); [apply IH|reflexivity].
Qed.

(** The loop run with [fuel] from the start is the loop run with what is
    left of [fuel] from the head of pass [k]. *)
Lemma crawlVideoComments_loop_at (k : nat) (videoID : string) (w wk : walk)
  (h hk : history) :
  crawlVideoComments_at k c videoID w h = Some (wk, hk) ->
  forall fuel,
    crawlVideoComments_loop fuel c videoID w h =
      if (fuel <=? k)%nat then None
      else crawlVideoComments_loop (fuel - k) c videoID wk hk.
Proof.
  revert w h. induction k as [|k IH]; intros w h; simpl.
  - intros [= -> ->] fuel. destruct fuel; simpl; [reflexivity|].
    reflexivity.
  - destruct (crawlVideoComments_pass c videoID w h) as [w1 h1|] eqn:Hpass;
      [|discriminate].
    intros Hat fuel. destruct fuel as [|fuel]; [reflexivity|].
    simpl. rewrite Hpass. apply (IH _ _ Hat).
Qed.

Lemma crawlVideoComments_at_calls (k : nat) (videoID : string) (w wk : walk)
  (h hk : history) :
  crawlVideoComments_at k c videoID w h = Some (wk, hk) ->
  length (comment_cursors videoID hk) = (length (comment_cursors videoID h) + k)%nat.
Proof.
  revert w h. induction k as [|k IH]; intros w h; simpl.
  - intros [= -> ->]. lia.
  - pose proof (crawlVideoComments_pass_calls videoID w h) as Hcalls.
    destruct (crawlVideoComments_pass c videoID w h) as [w1 h1|]; [|discriminate].
    intros Hat. rewrite (IH _ _ Hat), Hcalls, length_app. simpl. lia.
Qed.

(** Once a page has come back, the cursor of the walk is never empty
    again. *)
Lemma crawlVideoComments_at_nonempty (n : nat) (videoID : string) (w wn : walk)
  (h hn : history) :
  cursor w <> EmptyString ->
  crawlVideoComments_at n c videoID w h = Some (wn, hn) ->
  cursor wn <> EmptyString.
Proof.
  revert w h. induction n as [|n IH]; intros w h Hw; simpl.
  - now intros [= <- _].
  - destruct (crawlVideoComments_pass c videoID w h) as [w1 h1|] eqn:Hpass;
      [|discriminate].
    apply IH. destruct (crawlVideoComments_pass_continue _ _ _ _ _ Hpass)
      as [[_ ->]|(_ & _ & Hne & _)]; assumption.
Qed.

Lemma crawlVideoComments_at_S (k : nat) (videoID : string) (w : walk) (h : history) :
  crawlVideoComments_at (S k) c videoID w h =
    match crawlVideoComments_at k c videoID w h with
    | Some (wk, hk) =>
        match crawlVideoComments_pass c videoID wk hk with
        | Continue w' h' => Some (w', h')
        | Break _ => None
        end
    | None => None
    end.
Proof.
  replace (S k) with (k + 1)%nat by lia. rewrite crawlVideoComments_at_plus.
  destruct (crawlVideoComments_at k c videoID w h) as [[wk hk]|]; [|reflexivity].
  simpl. destruct (crawlVideoComments_pass c videoID wk hk); reflexivity.
Qed.

(** The comment walk ends in the pass that receives a terminal answer. *)
Lemma crawlVideoComments_ends (videoID : string) (h : history) (k : nat)
  (w : walk) (hk : history) :
  crawlVideoComments_at k c videoID (mkWalk EmptyString 0) h = Some (w, hk) ->
  terminal (cursor w) (GetVideoComments (scraper c) hk videoID (cursor w)) = true ->
  exists h',
    (forall fuel,
        crawlVideoComments fuel c videoID h =
          if (fuel <=? k)%nat then None else Some h') /\
    comment_cursors videoID h' = comment_cursors videoID hk ++ [cursor w] /\
    length (comment_cursors videoID h') =
      (length (comment_cursors videoID h) + S k)%nat /\
    crawlVideoComments_at (S k) c videoID (mkWalk EmptyString 0) h = None.
Proof.
  intros Hat Hterm.
  destruct (crawlVideoComments_pass_terminal _ _ _ Hterm) as [h' Hpass].
  pose proof (crawlVideoComments_pass_calls videoID w hk) as Hcalls.
  rewrite Hpass in Hcalls.
  exists h'. split; [|split; [|split]].
  - intros fuel. unfold crawlVideoComments.
    rewrite (crawlVideoComments_loop_at _ _ _ _ _ _ Hat).
    destruct (Nat.leb_spec fuel k); [reflexivity|].
    destruct (fuel - k)%nat eqn:Hd; [lia|]. simpl. now rewrite Hpass.
  - exact Hcalls.
  - rewrite Hcalls, length_app, (crawlVideoComments_at_calls _ _ _ _ _ _ Hat).
    simpl. lia.
  - rewrite crawlVideoComments_at_S, Hat, Hpass. reflexivity.
Qed.

(** From one pass of a comment walk to the next. *)
Lemma crawlVideoComments_next (videoID : string) (h : history) (k : nat)
  (w w' : walk) (hk hk' : history) :
  crawlVideoComments_at k c videoID (mkWalk EmptyString 0) h = Some (w, hk) ->
  crawlVideoComments_at (S k) c videoID (mkWalk EmptyString 0) h = Some (w', hk') ->
  let r := GetVideoComments (scraper c) hk videoID (cursor w) in
  terminal (cursor w) r = false /\
  ((err r = true /\ cursor w' = cursor w) \/
   (err r = false /\ cursor w' = nextCursor r /\
    cursor w' <> EmptyString /\ cursor w' <> cursor w)).
Proof.
  intros Hat HatS. rewrite crawlVideoComments_at_S, Hat in HatS.
  destruct (crawlVideoComments_pass c videoID w hk) as [w1 h1|] eqn:Hpass;
    [|discriminate].
  injection HatS as -> ->. split.
  - destruct (terminal _ _) eqn:Hterm; [|reflexivity].
    destruct (crawlVideoComments_pass_terminal _ _ _ Hterm) as [? ?]. congruence.
  - exact (crawlVideoComments_pass_continue _ _ _ _ _ Hpass).
Qed.

(** After a page has come back the empty cursor is not submitted again. *)
Lemma crawlVideoComments_empty_once (videoID : string) (h : history) (j k : nat)
  (wj wk : walk) (hj hk : history) :
  (j < k)%nat ->
  crawlVideoComments_at j c videoID (mkWalk EmptyString 0) h = Some (wj, hj) ->
  err (GetVideoComments (scraper c) hj videoID (cursor wj)) = false ->
  crawlVideoComments_at k c videoID (mkWalk EmptyString 0) h = Some (wk, hk) ->
  cursor wk <> EmptyString.
Proof.
  intros Hlt Hj Hok Hk.
  replace k with (S j + (k - S j))%nat in Hk by lia.
  rewrite crawlVideoComments_at_plus in Hk.
  destruct (crawlVideoComments_at (S j) c videoID (mkWalk EmptyString 0) h)
    as [[w1 h1]|] eqn:HS; [|discriminate].
  destruct (crawlVideoComments_next _ _ _ _ _ _ _ Hj HS) as [_ [[Herr _]|(_ & _ & Hne & _)]];
    [congruence|].
  eapply crawlVideoComments_at_nonempty; eauto.
Qed.

(** *** Video walks *)

Lemma video_cursors_saved (userID : string) (comments : list CommentData)
  (h : history) :
  video_cursors userID
    (fold_left (fun h comment => saveCommentData comment h) comments h)
  = video_cursors userID h.
Proof.
  revert h. induction comments as [|x xs IH]; intros h; simpl; [reflexivity|].
  now rewrite IH.
Qed.

Lemma crawlVideoComments_pass_video_cursors (userID videoID : string) (w : walk)
  (h : history) :
  match crawlVideoComments_pass c videoID w h with
  | Continue _ h' | Break h' => video_cursors userID h' = video_cursors userID h
  end.
Proof.
  unfold crawlVideoComments_pass.
  destruct (err _).
  - destruct (_ >? _); reflexivity.
  - destruct (_ || _); simpl; now rewrite video_cursors_saved.
Qed.

Lemma crawlVideoComments_loop_video_cursors (userID videoID : string) (fuel : nat)
  (w : walk) (h h' : history) :
  crawlVideoComments_loop fuel c videoID w h = Some h' ->
  video_cursors userID h' = video_cursors userID h.
Proof.
  revert w h. induction fuel as [|fuel IH]; intros w h; simpl; [discriminate|].
  pose proof (crawlVideoComments_pass_video_cursors userID videoID w h) as Hp.
  destruct (crawlVideoComments_pass c videoID w h) as [w1 h1|].
  - intros Hl. now rewrite (IH _ _ Hl).
  - now intros [= <-].
Qed.

Lemma crawlProductInfo_video_cursors (userID productID : string) (h : history) :
  video_cursors userID (crawlProductInfo c productID h) = video_cursors userID h.
Proof. unfold crawlProductInfo. destruct (GetProductInfo _ _ _); reflexivity. Qed.

Lemma crawlUserVideos_each_video_cursors (userID : string) (nested : nat)
  (videos : list VideoData) (h h' : history) :
  crawlUserVideos_each nested c videos h = Some h' ->
  video_cursors userID h' = video_cursors userID h.
Proof.
  revert h. induction videos as [|video rest IH]; intros h; simpl.
  - now intros [= <-].
  - destruct (crawlVideoComments nested c (VideoID video) (saveVideoData video h))
      as [h1|] eqn:Hcomments; [|discriminate].
    intros Hrest. rewrite (IH _ Hrest). simpl.
    apply (crawlVideoComments_loop_video_cursors userID) in Hcomments.
    destruct (Product video) as [productInfo|]; [|exact Hcomments].
    destruct (negb _); [|exact Hcomments].
    now rewrite crawlProductInfo_video_cursors.
Qed.

(** More fuel does not change a result already reached. *)
Lemma crawlVideoComments_loop_mono (fuel fuel' : nat) (videoID : string)
  (w : walk) (h h' : history) :
  (fuel <= fuel')%nat ->
  crawlVideoComments_loop fuel c videoID w h = Some h' ->
  crawlVideoComments_loop fuel' c videoID w h = Some h'.
Proof.
  revert fuel' w h. induction fuel as [|fuel IH]; intros fuel' w h Hle; simpl;
    [discriminate|].
  destruct fuel' as [|fuel']; [lia|]. simpl.
  destruct (crawlVideoComments_pass c videoID w h); [|auto].
  apply IH. lia.
Qed.

Lemma crawlUserVideos_each_mono (nested nested' : nat) (videos : list VideoData)
  (h h' : history) :
  (nested <= nested')%nat ->
  crawlUserVideos_each nested c videos h = Some h' ->
  crawlUserVideos_each nested' c videos h = Some h'.
Proof.
  intros Hle. revert h. induction videos as [|video rest IH]; intros h; simpl;
    [auto|].
  destruct (crawlVideoComments nested c (VideoID video) (saveVideoData video h))
    as [h1|] eqn:Hcomments; [|discriminate].
  unfold crawlVideoComments in *.
  rewrite (crawlVideoComments_loop_mono _ _ _ _ _ _ Hle Hcomments). apply IH.
Qed.

Lemma crawlUserVideos_pass_mono (nested nested' : nat) (userID : string)
  (w : walk) (h : history) (r : pass) :
  (nested <= nested')%nat ->
  crawlUserVideos_pass nested c userID w h = Some r ->
  crawlUserVideos_pass nested' c userID w h = Some r.
Proof.
  intros Hle. unfold crawlUserVideos_pass.
  destruct (err _); [auto|].
  destruct (crawlUserVideos_each nested c _ _) as [h2|] eqn:Heach; [|discriminate].
  now rewrite (crawlUserVideos_each_mono _ _ _ _ _ Hle Heach).
Qed.

Lemma crawlUserVideos_at_mono (k nested nested' : nat) (userID : string)
  (w wk : walk) (h hk : history) :
  (nested <= nested')%nat ->
  crawlUserVideos_at k nested c userID w h = Some (wk, hk) ->
  crawlUserVideos_at k nested' c userID w h = Some (wk, hk).
Proof.
  intros Hle. revert w h. induction k as [|k IH]; intros w h; simpl; [auto|].
  destruct (crawlUserVideos_pass nested c userID w h) as [r|] eqn:Hpass;
    [|discriminate].
  rewrite (crawlUserVideos_pass_mono _ _ _ _ _ _ Hle Hpass).
  destruct r; [apply IH|discriminate].
Qed.

Lemma crawlUserVideos_loop_mono (fuel fuel' nested nested' : nat)
  (userID : string) (w : walk) (h h' : history) :
  (fuel <= fuel')%nat -> (nested <= nested')%nat ->
  crawlUserVideos_loop fuel nested c userID w h = Some h' ->
  crawlUserVideos_loop fuel' nested' c userID w h = Some h'.
Proof.
  intros Hf Hn. revert fuel' Hf w h.
  induction fuel as [|fuel IH]; intros fuel' Hf w h; simpl; [discriminate|].
  destruct fuel' as [|fuel']; [lia|]. simpl.
  destruct (crawlUserVideos_pass nested c userID w h) as [r|] eqn:Hpass;
    [|discriminate].
  rewrite (crawlUserVideos_pass_mono _ _ _ _ _ _ Hn Hpass).
  destruct r; [apply IH; lia|auto].
Qed.

(** Each completed pass submits the cursor of the walk once to
    [GetUserVideos]; the nested walks submit none. *)
Lemma crawlUserVideos_pass_calls (nested : nat) (userID : string) (w : walk)
  (h : history) :
  match crawlUserVideos_pass nested c userID w h with
  | Some (Continue _ h') | Some (Break h') =>
      video_cursors userID h' = video_cursors userID h ++ [cursor w]
  | None => True
  end.
Proof.
  unfold crawlUserVideos_pass.
  destruct (err _).
  - destruct (_ >? _); simpl; now rewrite String.eqb_refl.
  - destruct (crawlUserVideos_each nested c _ _) as [h2|] eqn:Heach; [|exact I].
    apply (crawlUserVideos_each_video_cursors userID) in Heach.
    destruct (_ || _); simpl; rewrite Heach; simpl; now rewrite String.eqb_refl.
Qed.

Lemma crawlUserVideos_pass_terminal (nested : nat) (userID : string) (w : walk)
  (h : history) :
  let r := GetUserVideos (scraper c) h userID (cursor w) in
  terminal (cursor w) r = true ->
  crawlUserVideos_pass nested c userID w h =
    option_map Break
      (crawlUserVideos_each nested c (items r) (CallGetUserVideos userID (cursor w) :: h)).
Proof.
  unfold terminal, crawlUserVideos_pass. cbv zeta. rewrite andb_true_iff.
  intros [Hok Hend]. apply negb_true_iff in Hok. rewrite Hok, Hend.
  destruct (crawlUserVideos_each _ _ _ _); reflexivity.
Qed.

Lemma crawlUserVideos_pass_continue (nested : nat) (userID : string)
  (w w' : walk) (h h' : history) :
  crawlUserVideos_pass nested c userID w h = Some (Continue w' h') ->
  let r := GetUserVideos (scraper c) h userID (cursor w) in
  (err r = true /\ cursor w' = cursor w) \/
  (err r = false /\ cursor w' = nextCursor r /\
   cursor w' <> EmptyString /\ cursor w' <> cursor w).
Proof.
  unfold crawlUserVideos_pass.
  destruct (err _) eqn:Herr.
  - destruct (_ >? _); [discriminate|]. intros [= <- _]. left; auto.
  - destruct (crawlUserVideos_each _ _ _ _); [|discriminate].
    destruct (String.eqb_spec (nextCursor (GetUserVideos (scraper c) h userID (cursor w)))
                EmptyString) as [|Hne]; [discriminate|].
    destruct (String.eqb_spec (nextCursor (GetUserVideos (scraper c) h userID (cursor w)))
                (cursor w)) as [|Hne']; [discriminate|].
    simpl. intros [= <- _]. right; auto.
Qed.

Lemma crawlUserVideos_at_plus (j n nested : nat) (userID : string) (w : walk)
  (h : history) :
  crawlUserVideos_at (j + n) nested c userID w h =
    match crawlUserVideos_at j nested c userID w h with
    | Some (w', h') => crawlUserVideos_at n nested c userID w' h'
    | None => None
    end.
Proof.
  revert w h. induction j as [|j IH]; intros w h; simpl; [reflexivity|].
  destruct (crawlUserVideos_pass nested c userID w h) as [[w1 h1|h1]|];
    [apply IH|reflexivity..].
Qed.

Lemma crawlUserVideos_at_S (k nested : nat) (userID : string) (w : walk)
  (h : history) :
  crawlUserVideos_at (S k) nested c userID w h =
    match crawlUserVideos_at k nested c userID w h with
    | Some (wk, hk) =>
        match crawlUserVideos_pass nested c userID wk hk with
        | Some (Continue w' h') => Some (w', h')
        | _ => None
        end
    | None => None
    end.
Proof.
  replace (S k) with (k + 1)%nat by lia. rewrite crawlUserVideos_at_plus.
  destruct (crawlUserVideos_at k nested c userID w h) as [[wk hk]|]; [|reflexivity].
  simpl. destruct (crawlUserVideos_pass nested c userID wk hk) as [[? ?|?]|];
    reflexivity.
Qed.

Lemma crawlUserVideos_loop_at (k nested : nat) (userID : string) (w wk : walk)
  (h hk : history) :
  crawlUserVideos_at k nested c userID w h = Some (wk, hk) ->
  forall fuel,
    crawlUserVideos_loop fuel nested c userID w h =
      if (fuel <=? k)%nat then None
      else crawlUserVideos_loop (fuel - k) nested c userID wk hk.
Proof.
  revert w h. induction k as [|k IH]; intros w h; simpl.
  - intros [= -> ->] fuel. destruct fuel; reflexivity.
  - destruct (crawlUserVideos_pass nested c userID w h) as [[w1 h1|h1]|] eqn:Hpass;
      try discriminate.
    intros Hat fuel. destruct fuel as [|fuel]; [reflexivity|].
    simpl. rewrite Hpass. apply (IH _ _ Hat).
Qed.

Lemma crawlUserVideos_at_calls (k nested : nat) (userID : string) (w wk : walk)
  (h hk : history) :
  crawlUserVideos_at k nested c userID w h = Some (wk, hk) ->
  length (video_cursors userID hk) = (length (video_cursors userID h) + k)%nat.
Proof.
  revert w h. induction k as [|k IH]; intros w h; simpl.
  - intros [= -> ->]. lia.
  - pose proof (crawlUserVideos_pass_calls nested userID w h) as Hcalls.
    destruct (crawlUserVideos_pass nested c userID w h) as [[w1 h1|h1]|];
      try discriminate.
    intros Hat. rewrite (IH _ _ Hat), Hcalls, length_app. simpl. lia.
Qed.

Lemma crawlUserVideos_at_nonempty (n nested : nat) (userID : string)
  (w wn : walk) (h hn : history) :
  cursor w <> EmptyString ->
  crawlUserVideos_at n nested c userID w h = Some (wn, hn) ->
  cursor wn <> EmptyString.
Proof.
  revert w h. induction n as [|n IH]; intros w h Hw; simpl.
  - now intros [= <- _].
  - destruct (crawlUserVideos_pass nested c userID w h) as [[w1 h1|h1]|] eqn:Hpass;
      try discriminate.
    apply IH. destruct (crawlUserVideos_pass_continue _ _ _ _ _ _ Hpass)
      as [[_ ->]|(_ & _ & Hne & _)]; assumption.
Qed.

(** The video walk ends in the pass that receives a terminal answer: no
    run goes past it, every run that returns has made [k + 1] calls, and the
    walk does return once the comment walks of that last page do. *)
Lemma crawlUserVideos_ends (userID : string) (h : history) (k nested : nat)
  (w : walk) (hk : history) :
  crawlUserVideos_at k nested c userID (mkWalk EmptyString 0) h = Some (w, hk) ->
  let r := GetUserVideos (scraper c) hk userID (cursor w) in
  terminal (cursor w) r = true ->
  (forall n, crawlUserVideos_at (S k) n c userID (mkWalk EmptyString 0) h = None) /\
  (forall fuel h',
      crawlUserVideos fuel c userID h = Some h' ->
      length (video_cursors userID h') = (length (video_cursors userID h) + S k)%nat) /\
  (forall h2,
      crawlUserVideos_each nested c (items r)
        (CallGetUserVideos userID (cursor w) :: hk) = Some h2 ->
      forall fuel, (k < fuel)%nat -> (nested <= fuel)%nat ->
        crawlUserVideos fuel c userID h = Some h2).
Proof.
  intros Hat r Hterm. split; [|split].
  - intros n. rewrite crawlUserVideos_at_S.
    destruct (crawlUserVideos_at k n c userID (mkWalk EmptyString 0) h)
      as [[wn hn]|] eqn:Hn; [|reflexivity].
    apply (crawlUserVideos_at_mono _ _ (Nat.max n nested)) in Hn; [|lia].
    apply (crawlUserVideos_at_mono _ _ (Nat.max n nested)) in Hat; [|lia].
    rewrite Hat in Hn. injection Hn as <- <-.
    rewrite (crawlUserVideos_pass_terminal n userID w hk Hterm).
    destruct (crawlUserVideos_each _ _ _ _); reflexivity.
  - intros fuel h' Hrun. unfold crawlUserVideos in Hrun.
    set (N := Nat.max fuel nested).
    apply (crawlUserVideos_loop_mono _ N _ N) in Hrun; [|lia..].
    apply (crawlUserVideos_at_mono _ _ N) in Hat; [|lia].
    rewrite (crawlUserVideos_loop_at _ _ _ _ _ _ _ Hat) in Hrun.
    destruct (Nat.leb_spec N k); [discriminate|].
    destruct (N - k)%nat eqn:Hd; [lia|]. simpl in Hrun.
    pose proof (crawlUserVideos_pass_calls N userID w hk) as Hcalls.
    rewrite (crawlUserVideos_pass_terminal N userID w hk Hterm) in Hrun, Hcalls.
    destruct (crawlUserVideos_each _ _ _ _); simpl in *; [|discriminate].
    injection Hrun as <-.
    rewrite Hcalls, length_app, (crawlUserVideos_at_calls _ _ _ _ _ _ _ Hat).
    simpl. lia.
  - intros h2 Heach fuel Hk Hn. unfold crawlUserVideos.
    apply (crawlUserVideos_at_mono _ _ fuel) in Hat; [|assumption].
    rewrite (crawlUserVideos_loop_at _ _ _ _ _ _ _ Hat).
    destruct (Nat.leb_spec fuel k); [lia|].
    destruct (fuel - k)%nat eqn:Hd; [lia|]. simpl.
    rewrite (crawlUserVideos_pass_terminal fuel userID w hk Hterm).
    fold r. now rewrite (crawlUserVideos_each_mono _ _ _ _ _ Hn Heach).
Qed.

Lemma crawlUserVideos_next (userID : string) (h : history) (k nested : nat)
  (w w' : walk) (hk hk' : history) :
  crawlUserVideos_at k nested c userID (mkWalk EmptyString 0) h = Some (w, hk) ->
  crawlUserVideos_at (S k) nested c userID (mkWalk EmptyString 0) h = Some (w', hk') ->
  let r := GetUserVideos (scraper c) hk userID (cursor w) in
  terminal (cursor w) r = false /\
  ((err r = true /\ cursor w' = cursor w) \/
   (err r = false /\ cursor w' = nextCursor r /\
    cursor w' <> EmptyString /\ cursor w' <> cursor w)).
Proof.
  intros Hat HatS. cbv zeta. split.
  - destruct (terminal _ _) eqn:Hterm; [|reflexivity].
    destruct (crawlUserVideos_ends _ _ _ _ _ _ Hat Hterm) as (Hstop & _).
    rewrite Hstop in HatS. discriminate.
  - rewrite crawlUserVideos_at_S, Hat in HatS.
    destruct (crawlUserVideos_pass nested c userID w hk) as [[w1 h1|h1]|] eqn:Hpass;
      try discriminate.
    injection HatS as -> ->.
    exact (crawlUserVideos_pass_continue _ _ _ _ _ _ Hpass).
Qed.

Lemma crawlUserVideos_empty_once (userID : string) (h : history) (j k nested : nat)
  (wj wk : walk) (hj hk : history) :
  (j < k)%nat ->
  crawlUserVideos_at j nested c userID (mkWalk EmptyString 0) h = Some (wj, hj) ->
  err (GetUserVideos (scraper c) hj userID (cursor wj)) = false ->
  crawlUserVideos_at k nested c userID (mkWalk EmptyString 0) h = Some (wk, hk) ->
  cursor wk <> EmptyString.
Proof.
  intros Hlt Hj Hok Hk.
  replace k with (S j + (k - S j))%nat in Hk by lia.
  rewrite crawlUserVideos_at_plus in Hk.
  destruct (crawlUserVideos_at (S j) nested c userID (mkWalk EmptyString 0) h)
    as [[w1 h1]|] eqn:HS; [|discriminate].
  destruct (crawlUserVideos_next _ _ _ _ _ _ _ _ Hj HS)
    as [_ [[Herr _]|(_ & _ & Hne & _)]]; [congruence|].
  eapply crawlUserVideos_at_nonempty; eauto.
Qed.

(** C1.  Let a pagination loop reach its pass number [k] and let the fetch
    of that pass succeed with a [nextCursor] that is empty or equal to the
    cursor submitted.  Then the loop makes no further fetch: a comment walk
    returns for every fuel above [k], having made [k + 1] fetches; a video
    walk makes [k + 1] fetches in every run that returns, and returns as
    soon as the comment walks of its last page do.  From one fetch to the
    next the cursor is either the same, after an error, or the cursor just
    received, which is then not empty and not the one just submitted; and
    once a page has come back the empty cursor is never submitted again. *)
Theorem pagination_terminates :
  (forall videoID h k w hk,
      crawlVideoComments_at k c videoID (mkWalk EmptyString 0) h = Some (w, hk) ->
      terminal (cursor w) (GetVideoComments (scraper c) hk videoID (cursor w)) = true ->
      exists h',
        (forall fuel,
            crawlVideoComments fuel c videoID h =
              if (fuel <=? k)%nat then None else Some h') /\
        comment_cursors videoID h' = comment_cursors videoID hk ++ [cursor w] /\
        length (comment_cursors videoID h') =
          (length (comment_cursors videoID h) + S k)%nat /\
        crawlVideoComments_at (S k) c videoID (mkWalk EmptyString 0) h = None) /\
  (forall userID h k nested w hk,
      crawlUserVideos_at k nested c userID (mkWalk EmptyString 0) h = Some (w, hk) ->
      terminal (cursor w) (GetUserVideos (scraper c) hk userID (cursor w)) = true ->
      (forall n, crawlUserVideos_at (S k) n c userID (mkWalk EmptyString 0) h = None) /\
      (forall fuel h',
          crawlUserVideos fuel c userID h = Some h' ->
          length (video_cursors userID h') =
            (length (video_cursors userID h) + S k)%nat) /\
      (forall h2,
          crawlUserVideos_each nested c
            (items (GetUserVideos (scraper c) hk userID (cursor w)))
            (CallGetUserVideos userID (cursor w) :: hk) = Some h2 ->
          forall fuel, (k < fuel)%nat -> (nested <= fuel)%nat ->
            crawlUserVideos fuel c userID h = Some h2)) /\
  (forall videoID h k w w' hk hk',
      crawlVideoComments_at k c videoID (mkWalk EmptyString 0) h = Some (w, hk) ->
      crawlVideoComments_at (S k) c videoID (mkWalk EmptyString 0) h = Some (w', hk') ->
      let r := GetVideoComments (scraper c) hk videoID (cursor w) in
      terminal (cursor w) r = false /\
      ((err r = true /\ cursor w' = cursor w) \/
       (err r = false /\ cursor w' = nextCursor r /\
        cursor w' <> EmptyString /\ cursor w' <> cursor w))) /\
  (forall userID h k nested w w' hk hk',
      crawlUserVideos_at k nested c userID (mkWalk EmptyString 0) h = Some (w, hk) ->
      crawlUserVideos_at (S k) nested c userID (mkWalk EmptyString 0) h = Some (w', hk') ->
      let r := GetUserVideos (scraper c) hk userID (cursor w) in
      terminal (cursor w) r = false /\
      ((err r = true /\ cursor w' = cursor w) \/
       (err r = false /\ cursor w' = nextCursor r /\
        cursor w' <> EmptyString /\ cursor w' <> cursor w))) /\
  (forall videoID h j k wj wk hj hk,
      (j < k)%nat ->
      crawlVideoComments_at j c videoID (mkWalk EmptyString 0) h = Some (wj, hj) ->
      err (GetVideoComments (scraper c) hj videoID (cursor wj)) = false ->
      crawlVideoComments_at k c videoID (mkWalk EmptyString 0) h = Some (wk, hk) ->
      cursor wk <> EmptyString) /\
  (forall userID h j k nested wj wk hj hk,
      (j < k)%nat ->
      crawlUserVideos_at j nested c userID (mkWalk EmptyString 0) h = Some (wj, hj) ->
      err (GetUserVideos (scraper c) hj userID (cursor wj)) = false ->
      crawlUserVideos_at k nested c userID (mkWalk EmptyString 0) h = Some (wk, hk) ->
      cursor wk <> EmptyString).
Proof.
  split; [exact crawlVideoComments_ends|].
  split; [exact crawlUserVideos_ends|].
  split; [exact crawlVideoComments_next|].
  split; [exact crawlUserVideos_next|].
  split; [exact crawlVideoComments_empty_once|exact crawlUserVideos_empty_once].
Qed.

End PaginationFacts.

Lemma pagination_terminates_witness :
  (exists h',
      Crawl.crawlVideoComments 2 Fixtures.crawler "v1" [] = Some h' /\
      length (Crawl.comment_cursors "v1" h') = 2%nat) /\
  (exists h2,
      Crawl.crawlUserVideos 2 Fixtures.crawler "u1" [] = Some h2 /\
      length (Crawl.video_cursors "u1" h2) = 2%nat) /\
  (exists w1 h1,
      Crawl.crawlVideoComments_at 1 Fixtures.crawler "v1"
        (Crawl.mkWalk "" 0) [] = Some (w1, h1) /\
      Crawl.cursor w1 = "") /\
  (exists w1 h1,
      Crawl.crawlUserVideos_at 1 2 Fixtures.crawler "u1"
        (Crawl.mkWalk "" 0) [] = Some (w1, h1) /\
      Crawl.cursor w1 = "c1" /\ Crawl.cursor w1 <> "").
Proof.
  destruct (pagination_terminates Fixtures.crawler)
    as (Hcomments & Hvideos & Hcnext & Hvnext & _ & Hvonce).
  split; [|split; [|split]].
  - destruct (Hcomments "v1" [] 1%nat
                (Crawl.mkWalk "" 1)
                [Crawl.Sleep 30000000000; Crawl.CallGetVideoComments "v1" ""]
                eq_refl eq_refl) as (h' & Hrun & _ & Hlen & _).
    exists h'. split; [exact (Hrun 2%nat) | exact Hlen].
  - destruct (Hvideos "u1" [] 1%nat 2%nat) with
      (w := Crawl.mkWalk "c1" 0)
      (hk := match Crawl.crawlUserVideos_at 1 2 Fixtures.crawler "u1"
                     (Crawl.mkWalk "" 0) [] with
             | Some (_, hk) => hk
             | None => []
             end)
      as (_ & Hlen & Hret); [reflexivity | reflexivity |].
    eexists. split.
    + apply Hret; [reflexivity | lia | lia].
    + apply (Hlen 2%nat). apply Hret; [reflexivity | lia | lia].
  - eexists _, _. split; [reflexivity|].
    destruct (Hcnext "v1" [] 0%nat (Crawl.mkWalk "" 0) (Crawl.mkWalk "" 1) []
                [Crawl.Sleep 30000000000; Crawl.CallGetVideoComments "v1" ""]
                eq_refl eq_refl) as [_ [[_ Hsame]|(Hok & _)]].
    + exact Hsame.
    + discriminate Hok.
  - eexists _, _. split; [reflexivity|]. split; [reflexivity|].
    eapply (Hvonce "u1" [] 0%nat 1%nat 2%nat); [lia | reflexivity | reflexivity | reflexivity].
Defined.

(** ** Where a walk starts, and who writes the checkpoint cursors *)

Section ResumeFacts.
Import Crawl CrawlRuns.
Variable c : Crawler.

Lemma saved_comments_suffix (comments : list CommentData) (h : history) :
  h `suffix_of` fold_left (fun h comment => saveCommentData comment h) comments h.
Proof.
  revert h. induction comments as [|x xs IH]; intros h; simpl; [reflexivity|].
  etransitivity; [|apply IH]. now apply suffix_cons_r.
Qed.

(** Every pass starts with the request for the cursor of the walk. *)
Lemma crawlVideoComments_pass_first (videoID : string) (w : walk) (h : history) :
  (CallGetVideoComments videoID (cursor w) :: h)
    `suffix_of` pass_history (crawlVideoComments_pass c videoID w h).
Proof.
  unfold crawlVideoComments_pass. destruct (err _).
  - destruct (_ >? _); simpl; [reflexivity|]. now apply suffix_cons_r.
  - destruct (_ || _); simpl; [apply saved_comments_suffix|].
    apply suffix_cons_r, saved_comments_suffix.
Qed.

Lemma crawlVideoComments_upto_suffix (fuel : nat) (videoID : string) (w : walk)
  (h : history) :
  h `suffix_of` crawlVideoComments_upto fuel c videoID w h.
Proof.
  revert w h. induction fuel as [|fuel IH]; intros w h; simpl; [reflexivity|].
  pose proof (crawlVideoComments_pass_first videoID w h) as Hp.
  assert (Hh : h `suffix_of` pass_history (crawlVideoComments_pass c videoID w h))
    by (etransitivity; [|exact Hp]; now apply suffix_cons_r).
  destruct (crawlVideoComments_pass c videoID w h) as [w1 h1|h1]; simpl in *;
    [|exact Hh].
  etransitivity; [exact Hh|apply IH].
Qed.

Lemma crawlVideoComments_upto_first (fuel : nat) (videoID : string) (w : walk)
  (h : history) :
  (CallGetVideoComments videoID (cursor w) :: h)
    `suffix_of` crawlVideoComments_upto (S fuel) c videoID w h.
Proof.
  simpl. pose proof (crawlVideoComments_pass_first videoID w h) as Hp.
  destruct (crawlVideoComments_pass c videoID w h) as [w1 h1|h1]; simpl in *;
    [|exact Hp].
  etransitivity; [exact Hp|apply crawlVideoComments_upto_suffix].
Qed.

Lemma crawlVideoComments_upto_ended (fuel : nat) (videoID : string) (w : walk)
  (h h' : history) :
  crawlVideoComments_loop fuel c videoID w h = Some h' ->
  crawlVideoComments_upto fuel c videoID w h = h'.
Proof.
  revert w h. induction fuel as [|fuel IH]; intros w h; simpl; [discriminate|].
  destruct (crawlVideoComments_pass c videoID w h) as [w1 h1|h1].
  - apply IH.
  - now intros [= <-].
Qed.

Lemma crawlProductInfo_suffix (productID : string) (h : history) :
  h `suffix_of` crawlProductInfo c productID h.
Proof.
  unfold crawlProductInfo, saveProductInfo.
  destruct (GetProductInfo _ _ _); repeat apply suffix_cons_r; reflexivity.
Qed.

Lemma crawlUserVideos_each_upto_suffix (nested : nat) (videos : list VideoData)
  (h : history) :
  h `suffix_of` fst (crawlUserVideos_each_upto nested c videos h).
Proof.
  revert h. induction videos as [|video rest IH]; intros h; simpl; [reflexivity|].
  unfold crawlVideoComments.
  destruct (crawlVideoComments_loop nested c (VideoID video) _ _) as [h1|] eqn:Hwalk.
  - apply crawlVideoComments_upto_ended in Hwalk.
    pose proof (crawlVideoComments_upto_suffix nested (VideoID video)
                  (mkWalk EmptyString 0) (saveVideoData video h)) as Hs.
    rewrite Hwalk in Hs.
    etransitivity; [|apply IH]. apply suffix_cons_r.
    etransitivity; [apply suffix_cons_r; reflexivity|].
    etransitivity; [exact Hs|].
    destruct (Product video) as [productInfo|]; [|reflexivity].
    destruct (negb _); [apply crawlProductInfo_suffix|reflexivity].
  - simpl. etransitivity; [|apply crawlVideoComments_upto_suffix].
    now apply suffix_cons_r.
Qed.

Lemma crawlUserVideos_each_upto_ended (nested : nat) (videos : list VideoData)
  (h h' : history) :
  crawlUserVideos_each nested c videos h = Some h' ->
  crawlUserVideos_each_upto nested c videos h = (h', true).
Proof.
  revert h. induction videos as [|video rest IH]; intros h; simpl.
  - now intros [= <-].
  - destruct (crawlVideoComments nested c (VideoID video) _) as [h1|];
      [|discriminate]. apply IH.
Qed.

Lemma crawlUserVideos_upto_suffix (fuel nested : nat) (userID : string)
  (w : walk) (h : history) :
  h `suffix_of` crawlUserVideos_upto fuel nested c userID w h.
Proof.
  revert w h. induction fuel as [|fuel IH]; intros w h; simpl; [reflexivity|].
  destruct (err _).
  - destruct (_ >? _); [now apply suffix_cons_r|].
    etransitivity; [|apply IH]. now do 2 apply suffix_cons_r.
  - pose proof (crawlUserVideos_each_upto_suffix nested
                  (items (GetUserVideos (scraper c) h userID (cursor w)))
                  (CallGetUserVideos userID (cursor w) :: h)) as Hs.
    destruct (crawlUserVideos_each_upto nested c _ _) as [h2 [|]]; simpl in Hs.
    + assert (Hh : h `suffix_of` h2)
        by (etransitivity; [|exact Hs]; now apply suffix_cons_r).
      destruct (_ || _); [exact Hh|].
      etransitivity; [|apply IH]. now apply suffix_cons_r.
    + etransitivity; [|exact Hs]. now apply suffix_cons_r.
Qed.

Lemma crawlUserVideos_upto_first (fuel nested : nat) (userID : string)
  (w : walk) (h : history) :
  (CallGetUserVideos userID (cursor w) :: h)
    `suffix_of` crawlUserVideos_upto (S fuel) nested c userID w h.
Proof.
  simpl. destruct (err _).
  - destruct (_ >? _); [reflexivity|].
    etransitivity; [|apply crawlUserVideos_upto_suffix]. now apply suffix_cons_r.
  - pose proof (crawlUserVideos_each_upto_suffix nested
                  (items (GetUserVideos (scraper c) h userID (cursor w)))
                  (CallGetUserVideos userID (cursor w) :: h)) as Hs.
    destruct (crawlUserVideos_each_upto nested c _ _) as [h2 [|]]; simpl in Hs;
      [|exact Hs].
    destruct (_ || _); [exact Hs|].
    etransitivity; [|apply crawlUserVideos_upto_suffix]. now apply suffix_cons_r.
Qed.

Lemma crawlUserVideos_upto_ended (fuel nested : nat) (userID : string)
  (w : walk) (h h' : history) :
  crawlUserVideos_loop fuel nested c userID w h = Some h' ->
  crawlUserVideos_upto fuel nested c userID w h = h'.
Proof.
  revert w h. induction fuel as [|fuel IH]; intros w h; simpl; [discriminate|].
  unfold crawlUserVideos_pass. destruct (err _).
  - destruct (_ >? _); [now intros [= <-]|]. apply IH.
  - destruct (crawlUserVideos_each nested c _ _) as [h2|] eqn:Heach;
      [|discriminate].
    rewrite (crawlUserVideos_each_upto_ended _ _ _ _ Heach).
    destruct (_ || _); [now intros [= <-]|]. apply IH.
Qed.

(** *** What a walk adds to the history *)

Lemma pick_app {A} (f : event -> option A) (added h : history) :
  pick f (added ++ h) = pick f h ++ pick f added.
Proof. unfold pick. now rewrite reverse_app, omap_app. Qed.

Lemma pick_cons {A} (f : event -> option A) (e : event) (h : history) :
  pick f (e :: h) = pick f h ++ match f e with Some a => [a] | None => [] end.
Proof.
  change (e :: h) with ([e] ++ h). rewrite pick_app. f_equal.
Qed.

Lemma pick_none {A} (f : event -> option A) (P : event -> bool) (added : history) :
  (forall e, P e = true -> f e = None) ->
  Forall (fun e => P e = true) added -> pick f added = [].
Proof.
  intros Hf Hall. induction Hall as [|e added He _ IH]; [reflexivity|].
  rewrite pick_cons, IH, (Hf e He). reflexivity.
Qed.

Lemma pick_extends {A} (f : event -> option A) (P : event -> bool) (h h' : history) :
  (forall e, P e = true -> f e = None) ->
  extends P h h' -> pick f h' = pick f h.
Proof.
  intros Hf (added & -> & Hall).
  now rewrite pick_app, (pick_none f P added Hf Hall), app_nil_r.
Qed.

Lemma extends_refl (P : event -> bool) (h : history) : extends P h h.
Proof. exists []. split; [reflexivity|constructor]. Qed.

Lemma extends_cons (P : event -> bool) (e : event) (h h' : history) :
  P e = true -> extends P h h' -> extends P h (e :: h').
Proof.
  intros He (added & -> & Hall). exists (e :: added).
  split; [reflexivity|now constructor].
Qed.

Lemma extends_trans (P : event -> bool) (h1 h2 h3 : history) :
  extends P h1 h2 -> extends P h2 h3 -> extends P h1 h3.
Proof.
  intros (a1 & -> & H1) (a2 & -> & H2). exists (a2 ++ a1).
  split; [now rewrite app_assoc|]. apply Forall_app. auto.
Qed.

Lemma extends_weaken (P Q : event -> bool) (h h' : history) :
  (forall e, P e = true -> Q e = true) -> extends P h h' -> extends Q h h'.
Proof.
  intros HPQ (added & -> & Hall). exists added. split; [reflexivity|].
  eapply Forall_impl; [exact Hall|]. auto.
Qed.

Lemma saved_comments_extend (comments : list CommentData) (h : history) :
  extends comment_event h
    (fold_left (fun h comment => saveCommentData comment h) comments h).
Proof.
  revert h. induction comments as [|x xs IH]; intros h; simpl;
    [apply extends_refl|].
  eapply extends_trans; [|apply IH].
  apply extends_cons; [reflexivity|apply extends_refl].
Qed.

Lemma crawlVideoComments_pass_extends (videoID : string) (w : walk) (h : history) :
  extends comment_event h (pass_history (crawlVideoComments_pass c videoID w h)).
Proof.
  unfold crawlVideoComments_pass.
  assert (H1 : extends comment_event h (CallGetVideoComments videoID (cursor w) :: h))
    by (apply extends_cons; [reflexivity|apply extends_refl]).
  destruct (err _).
  - destruct (_ >? _); simpl; [exact H1|].
    apply extends_cons; [reflexivity|exact H1].
  - assert (H2 := extends_trans _ _ _ _ H1
                    (saved_comments_extend
                       (items (GetVideoComments (scraper c) h videoID (cursor w)))
                       (CallGetVideoComments videoID (cursor w) :: h))).
    destruct (_ || _); simpl; [exact H2|].
    apply extends_cons; [reflexivity|exact H2].
Qed.

Lemma crawlVideoComments_loop_extends (fuel : nat) (videoID : string)
  (w : walk) (h h' : history) :
  crawlVideoComments_loop fuel c videoID w h = Some h' ->
  extends comment_event h h'.
Proof.
  revert w h. induction fuel as [|fuel IH]; intros w h; simpl; [discriminate|].
  pose proof (crawlVideoComments_pass_extends videoID w h) as Hp.
  destruct (crawlVideoComments_pass c videoID w h) as [w1 h1|h1]; simpl in Hp.
  - intros Hl. eapply extends_trans; [exact Hp|]. eapply IH; eauto.
  - now intros [= <-].
Qed.

Lemma comment_event_walk (e : event) : comment_event e = true -> walk_event e = true.
Proof. now destruct e. Qed.

Lemma crawlProductInfo_extends (productID : string) (h : history) :
  extends walk_event h (crawlProductInfo c productID h) /\
  pick product_call (crawlProductInfo c productID h) =
    pick product_call h ++ [productID] /\
  pick video_saved (crawlProductInfo c productID h) = pick video_saved h.
Proof.
  unfold crawlProductInfo, saveProductInfo.
  destruct (GetProductInfo (scraper c) h productID) as [productInfo|].
  - split; [|split].
    + do 2 (apply extends_cons; [reflexivity|]). apply extends_refl.
    + rewrite !pick_cons. simpl. now rewrite app_nil_r.
    + rewrite !pick_cons. simpl. now rewrite !app_nil_r.
  - split; [|split].
    + apply extends_cons; [reflexivity|]. apply extends_refl.
    + now rewrite pick_cons.
    + rewrite pick_cons. simpl. now rewrite app_nil_r.
Qed.

Lemma crawlVideoComments_upto_extends (fuel : nat) (videoID : string) (w : walk)
  (h : history) :
  extends comment_event h (crawlVideoComments_upto fuel c videoID w h).
Proof.
  revert w h. induction fuel as [|fuel IH]; intros w h; simpl;
    [apply extends_refl|].
  pose proof (crawlVideoComments_pass_extends videoID w h) as Hp.
  destruct (crawlVideoComments_pass c videoID w h) as [w1 h1|h1]; simpl in Hp;
    [|exact Hp].
  eapply extends_trans; [exact Hp|apply IH].
Qed.

Lemma crawlUserVideos_each_upto_extends (nested : nat) (videos : list VideoData)
  (h : history) :
  extends walk_event h (fst (crawlUserVideos_each_upto nested c videos h)).
Proof.
  revert h. induction videos as [|video rest IH]; intros h; simpl;
    [apply extends_refl|].
  assert (Hsave : extends walk_event h (saveVideoData video h))
    by (apply extends_cons; [reflexivity|apply extends_refl]).
  unfold crawlVideoComments.
  destruct (crawlVideoComments_loop nested c (VideoID video) _ _) as [h1|] eqn:Hwalk.
  - apply crawlVideoComments_loop_extends in Hwalk.
    eapply extends_trans; [|apply IH].
    apply extends_cons; [reflexivity|].
    eapply extends_trans; [exact Hsave|].
    eapply extends_trans;
      [apply (extends_weaken _ _ _ _ comment_event_walk Hwalk)|].
    destruct (Product video) as [productInfo|]; [|apply extends_refl].
    destruct (negb _); [apply crawlProductInfo_extends|apply extends_refl].
  - simpl. eapply extends_trans; [exact Hsave|].
    apply (extends_weaken _ _ _ _ comment_event_walk).
    apply crawlVideoComments_upto_extends.
Qed.

Lemma crawlUserVideos_upto_extends (fuel nested : nat) (userID : string)
  (w : walk) (h : history) :
  extends walk_event h (crawlUserVideos_upto fuel nested c userID w h).
Proof.
  revert w h. induction fuel as [|fuel IH]; intros w h; simpl;
    [apply extends_refl|].
  assert (Hcall : extends walk_event h (CallGetUserVideos userID (cursor w) :: h))
    by (apply extends_cons; [reflexivity|apply extends_refl]).
  destruct (err _).
  - destruct (_ >? _); [exact Hcall|].
    eapply extends_trans; [|apply IH].
    apply extends_cons; [reflexivity|exact Hcall].
  - pose proof (crawlUserVideos_each_upto_extends nested
                  (items (GetUserVideos (scraper c) h userID (cursor w)))
                  (CallGetUserVideos userID (cursor w) :: h)) as Hs.
    destruct (crawlUserVideos_each_upto nested c _ _) as [h2 [|]]; simpl in Hs.
    + assert (Hh : extends walk_event h h2)
        by (eapply extends_trans; [exact Hcall|exact Hs]).
      destruct (_ || _); [exact Hh|].
      eapply extends_trans; [|apply IH].
      apply extends_cons; [reflexivity|exact Hh].
    + eapply extends_trans; [exact Hcall|exact Hs].
Qed.

Lemma video_cursors_app (userID : string) (added h : history) :
  video_cursors userID (added ++ h) =
    video_cursors userID h ++ video_cursors userID added.
Proof.
  induction added as [|e added IH]; simpl; [now rewrite app_nil_r|].
  destruct e; try exact IH.
  destruct (String.eqb _ _); [|exact IH]. now rewrite IH, app_assoc.
Qed.

Lemma comment_cursors_app (videoID : string) (added h : history) :
  comment_cursors videoID (added ++ h) =
    comment_cursors videoID h ++ comment_cursors videoID added.
Proof.
  induction added as [|e added IH]; simpl; [now rewrite app_nil_r|].
  destruct e; try exact IH.
  destruct (String.eqb _ _); [|exact IH]. now rewrite IH, app_assoc.
Qed.

Context {Bytes : Type}.

(** C3, as the code has it.  Whatever the checkpoint manager [m] holds, a
    walk starts with the request for the empty cursor: once its first
    pass is under way, that request is the first event it has added to the
    history, whether the walk has ended or not, and the first cursor it
    has submitted for the parent.  A cursor that [m] holds for the parent
    is not the one submitted, unless it is empty.  All a walk adds to the
    history is requests for pages, comments and products, saves of videos,
    comments and products, and sleeps: it performs no checkpoint operation
    (there is none among the events), and neither reads nor writes a
    cursor of [m]. *)
Theorem walks_start_at_empty_cursor (m : Checkpoint.Manager) (fs : gmap string Bytes) :
  (forall userID fuel nested h,
      let reached := crawlUserVideos_upto (S fuel) nested c userID
                       (mkWalk EmptyString 0) h in
      (CallGetUserVideos userID EmptyString :: h) `suffix_of` reached /\
      (exists rest,
         video_cursors userID reached =
           video_cursors userID h ++ EmptyString :: rest) /\
      (forall stored m' fs',
         Checkpoint.GetUserCursor userID m fs = Checkpoint.Returned stored m' fs' ->
         stored <> EmptyString ->
         forall rest, video_cursors userID reached <>
                        video_cursors userID h ++ stored :: rest) /\
      extends walk_event h reached) /\
  (forall videoID fuel h,
      let reached := crawlVideoComments_upto (S fuel) c videoID
                       (mkWalk EmptyString 0) h in
      (CallGetVideoComments videoID EmptyString :: h) `suffix_of` reached /\
      (exists rest,
         comment_cursors videoID reached =
           comment_cursors videoID h ++ EmptyString :: rest) /\
      (forall stored m' fs',
         Checkpoint.GetCommentCursor videoID m fs = Checkpoint.Returned stored m' fs' ->
         stored <> EmptyString ->
         forall rest, comment_cursors videoID reached <>
                        comment_cursors videoID h ++ stored :: rest) /\
      extends comment_event h reached) /\
  (forall userID fuel h h',
      crawlUserVideos fuel c userID h = Some h' ->
      crawlUserVideos_upto fuel fuel c userID (mkWalk EmptyString 0) h = h') /\
  (forall videoID fuel h h',
      crawlVideoComments fuel c videoID h = Some h' ->
      crawlVideoComments_upto fuel c videoID (mkWalk EmptyString 0) h = h').
Proof.
  split; [|split; [|split]].
  - intros userID fuel nested h reached.
    pose proof (crawlUserVideos_upto_first fuel nested userID
                  (mkWalk EmptyString 0) h) as [later Hlater].
    fold reached in Hlater. simpl in Hlater.
    assert (Hcursors : video_cursors userID reached =
              video_cursors userID h ++ EmptyString :: video_cursors userID later).
    { rewrite Hlater, video_cursors_app. simpl.
      rewrite String.eqb_refl, <- app_assoc. reflexivity. }
    split; [exists later; exact Hlater|]. split; [eauto|].
    split; [|apply crawlUserVideos_upto_extends].
    intros stored m' fs' _ Hne rest Heq. rewrite Hcursors in Heq.
    apply app_inv_head in Heq. congruence.
  - intros videoID fuel h reached.
    pose proof (crawlVideoComments_upto_first fuel videoID
                  (mkWalk EmptyString 0) h) as [later Hlater].
    fold reached in Hlater. simpl in Hlater.
    assert (Hcursors : comment_cursors videoID reached =
              comment_cursors videoID h ++ EmptyString :: comment_cursors videoID later).
    { rewrite Hlater, comment_cursors_app. simpl.
      rewrite String.eqb_refl, <- app_assoc. reflexivity. }
    split; [exists later; exact Hlater|]. split; [eauto|].
    split; [|apply crawlVideoComments_upto_extends].
    intros stored m' fs' _ Hne rest Heq. rewrite Hcursors in Heq.
    apply app_inv_head in Heq. congruence.
  - intros userID fuel h h'. apply crawlUserVideos_upto_ended.
  - intros videoID fuel h h'. apply crawlVideoComments_upto_ended.
Qed.

End ResumeFacts.

(** C3, as the specification has it, fails: with the cursor ["c7"] stored
    for ["u1"], the walk for ["u1"] still submits the empty cursor first;
    its first page comes back with the next cursor ["c1"], and the walk runs
    to its end on a history of scraper calls, saves and sleeps, the stored
    cursor being what it was. *)
Lemma walk_ignores_checkpoint :
  Checkpoint.GetUserCursor "u1" Fixtures.resumable_manager Fixtures.no_files =
    Checkpoint.Returned "c7" Fixtures.resumable_manager Fixtures.no_files /\
  Crawl.nextCursor (Crawl.GetUserVideos Fixtures.platform [] "u1" "") = "c1" /\
  exists h',
    Crawl.crawlUserVideos 2 Fixtures.crawler "u1" [] = Some h' /\
    Crawl.video_cursors "u1" h' = [""; "c1"] /\
    hd_error (Crawl.video_cursors "u1" h') <> Some "c7".
Proof.
  split; [reflexivity|]. split; [reflexivity|].
  eexists. split; [reflexivity|]. split; [reflexivity|]. discriminate.
Qed.

Lemma walks_start_at_empty_cursor_witness :
  let reached := CrawlRuns.crawlUserVideos_upto 1 0 Fixtures.crawler "u1"
                   (Crawl.mkWalk "" 0) [] in
  Checkpoint.GetUserCursor "u1" Fixtures.resumable_manager Fixtures.no_files =
    Checkpoint.Returned "c7" Fixtures.resumable_manager Fixtures.no_files /\
  (exists rest, Crawl.video_cursors "u1" reached = "" :: rest) /\
  (forall rest, Crawl.video_cursors "u1" reached <> "c7" :: rest).
Proof.
  intros reached.
  destruct (walks_start_at_empty_cursor Fixtures.crawler
              Fixtures.resumable_manager Fixtures.no_files) as (Hvideos & _).
  destruct (Hvideos "u1" 0%nat 0%nat []) as (_ & Hfirst & Hnot & _).
  split; [reflexivity|]. split; [exact Hfirst|].
  apply (Hnot "c7" Fixtures.resumable_manager Fixtures.no_files eq_refl).
  discriminate.
Defined.

(** ** [Start]: every seed to one worker, once *)

Section StartFacts.
Import Crawl.














Variable cfg : Config.
Variable userIDs : list string.
Hypothesis some_worker : 1 <= Concurrency cfg.










End StartFacts.


(** ** More on the checkpoint manager *)

Section CheckpointCallFacts.
Import Checkpoint CheckpointCalls.
Context {Bytes : Type}.
Variable marshal : Data -> option Bytes.
Variable unmarshal : Bytes -> option Data.

(** A manager that is switched off does nothing and reads as empty,
    whatever it holds: every call returns at once with the manager and the
    files as they were, the membership tests answer [false], the cursor
    getters the empty string, [GetStats] the zero counters, and [Load] and
    [Save] report no error. *)
Theorem disabled_manager_inert (m : Manager) (fs : gmap string Bytes) :
  enabled m = false ->
  (forall c, perform marshal unmarshal c m fs = Returned tt m fs) /\
  (forall id, IsUserProcessed id m fs = Returned false m fs) /\
  (forall id, IsVideoProcessed id m fs = Returned false m fs) /\
  (forall id, GetUserCursor id m fs = Returned EmptyString m fs) /\
  (forall id, GetCommentCursor id m fs = Returned EmptyString m fs) /\
  GetStats m fs = Returned (mkStats 0 0 0 0) m fs /\
  Load unmarshal m fs = Returned None m fs /\
  (forall updated saved, Save marshal updated saved m fs = Returned None m fs).
Proof.
  intros Hoff.
  split.
  { intros c. destruct c; simpl;
      unfold Load, Save, CheckSave, SetPlatform, MarkUserProcessed, IsUserProcessed,
        MarkVideoProcessed, IsVideoProcessed, SetUserCursor, GetUserCursor,
        SetCommentCursor, GetCommentCursor, IncrementCommentCount,
        IncrementProductCount, GetStats;
      rewrite Hoff; reflexivity. }
  unfold IsUserProcessed, IsVideoProcessed, GetUserCursor, GetCommentCursor,
    GetStats, Load, Save.
  rewrite Hoff. simpl. repeat split.
Qed.

(** With the mutex held and nobody to release it, a call of any method but
    [CheckSave] blocks at its [Lock]; [CheckSave] blocks as well when a save
    is due and returns without effect otherwise. *)
Lemma perform_mutex_held (c : call) (m : Manager) (fs : gmap string Bytes) :
  enabled m = true -> mutex m = true ->
  perform marshal unmarshal c m fs = Blocked m fs \/
  (exists now updated saved, c = CallCheckSave now updated saved /\
     perform marshal unmarshal c m fs = Returned tt m fs).
Proof.
  intros Hen Hheld.
  destruct c; simpl;
    try (left;
         unfold Load, Save, SetPlatform, MarkUserProcessed, IsUserProcessed,
           MarkVideoProcessed, IsVideoProcessed, SetUserCursor, GetUserCursor,
           SetCommentCursor, GetCommentCursor, IncrementCommentCount,
           IncrementProductCount, GetStats;
         rewrite Hen; simpl; rewrite locked_held by assumption; reflexivity).
  rewrite (CheckSave_mutex_held marshal now updated saved m fs Hheld).
  destruct (_ && _); simpl; [left; reflexivity | right; eauto].
Qed.

Lemma perform_all_mutex_held (cs : list call) (m : Manager) (fs : gmap string Bytes) :
  enabled m = true -> mutex m = true ->
  out_manager (perform_all marshal unmarshal cs m fs) = m /\
  out_files (perform_all marshal unmarshal cs m fs) = fs.
Proof.
  intros Hen Hheld. induction cs as [|c cs IH]; simpl; [auto|].
  destruct (perform_mutex_held c m fs Hen Hheld)
    as [-> | (now & updated & saved & _ & ->)]; auto.
Qed.

(** Once [MarkUserProcessed] or [MarkVideoProcessed] has blocked, the
    manager is out of service: every later call of a method other than
    [CheckSave] blocks too, and no sequence of calls changes the manager or
    the files any more. *)
Theorem blocked_manager_stays_blocked (now updated saved : Z) (id : string)
  (m m' : Manager) (fs fs' : gmap string Bytes) :
  enabled m = true -> mutex m = false ->
  MarkUserProcessed marshal now updated saved id m fs = Blocked m' fs' \/
  MarkVideoProcessed marshal now updated saved id m fs = Blocked m' fs' ->
  (forall c, (forall t u v, c <> CallCheckSave t u v) ->
     perform marshal unmarshal c m' fs' = Blocked m' fs') /\
  (forall cs,
     out_manager (perform_all marshal unmarshal cs m' fs') = m' /\
     out_files (perform_all marshal unmarshal cs m' fs') = fs').
Proof.
  intros Hen Hfree Hblocked.
  assert (Hstate : enabled m' = true /\ mutex m' = true).
  { destruct Hblocked as [Hb|Hb].
    - rewrite MarkUserProcessed_outcome in Hb by assumption.
      destruct (ProcessedUsers (data m)); [|discriminate].
      destruct (_ && _); [|discriminate]. injection Hb as <- _. auto.
    - rewrite MarkVideoProcessed_outcome in Hb by assumption.
      destruct (ProcessedVideos (data m)); [|discriminate].
      destruct (_ && _); [|discriminate]. injection Hb as <- _. auto. }
  destruct Hstate as [Hen' Hheld]. split.
  - intros c Hc.
    destruct (perform_mutex_held c m' fs' Hen' Hheld) as [?|(t & u & v & -> & _)];
      [assumption|]. now destruct (Hc t u v).
  - intros cs. now apply perform_all_mutex_held.
Qed.

Lemma CheckSave_free (now updated saved : Z) (m : Manager) (fs : gmap string Bytes) :
  enabled m = true ->
  CheckSave marshal now updated saved m fs =
    if (0 <? interval m) && due now m then Save marshal updated saved m fs
    else Returned None m fs.
Proof.
  intros Hen. unfold CheckSave. rewrite Hen; simpl.
  destruct (Z.leb_spec (interval m) 0), (Z.ltb_spec 0 (interval m)); try lia;
    reflexivity.
Qed.

Ltac simple_call Hen Hfree :=
  unfold SetPlatform, IsUserProcessed, IsVideoProcessed, SetUserCursor,
    GetUserCursor, SetCommentCursor, GetCommentCursor, IncrementCommentCount,
    IncrementProductCount, GetStats;
  rewrite Hen; simpl; rewrite locked_free by exact Hfree; run_method;
  unfold store_user_cursor, store_comment_cursor; simpl.

Lemma SetUserCursor_free (id cursor : string) (m : Manager) (fs : gmap string Bytes) :
  enabled m = true -> mutex m = false ->
  SetUserCursor id cursor m fs =
    match UserCursors (data m) with
    | Some cursors =>
        Returned tt
          (set_data (set_UserCursors (Some (<[id := cursor]> cursors)) (data m)) m) fs
    | None => Panicked m fs
    end.
Proof.
  intros Hen Hfree. simple_call Hen Hfree.
  destruct (UserCursors (data m)); simpl;
    [now rewrite relock_data|now rewrite relock].
Qed.

Lemma SetCommentCursor_free (id cursor : string) (m : Manager)
  (fs : gmap string Bytes) :
  enabled m = true -> mutex m = false ->
  SetCommentCursor id cursor m fs =
    match CommentCursors (data m) with
    | Some cursors =>
        Returned tt
          (set_data (set_CommentCursors (Some (<[id := cursor]> cursors)) (data m)) m)
          fs
    | None => Panicked m fs
    end.
Proof.
  intros Hen Hfree. simple_call Hen Hfree.
  destruct (CommentCursors (data m)); simpl;
    [now rewrite relock_data|now rewrite relock].
Qed.

Lemma GetUserCursor_free (id : string) (m : Manager) (fs : gmap string Bytes) :
  enabled m = true -> mutex m = false ->
  GetUserCursor id m fs = Returned (string_at (UserCursors (data m)) id) m fs.
Proof. intros Hen Hfree. simple_call Hen Hfree. now rewrite relock. Qed.

Lemma GetCommentCursor_free (id : string) (m : Manager) (fs : gmap string Bytes) :
  enabled m = true -> mutex m = false ->
  GetCommentCursor id m fs = Returned (string_at (CommentCursors (data m)) id) m fs.
Proof. intros Hen Hfree. simple_call Hen Hfree. now rewrite relock. Qed.

(** What a call on a manager in service comes to.  A call that returns
    has released the mutex and left the configuration as it was.  Only
    [MarkUserProcessed] and [MarkVideoProcessed] block, when an auto-save
    is due, and then leave the files alone.  A call panics exactly when it
    assigns to a map that is nil, and then leaves everything as it was. *)
Lemma perform_free (c : call) (m : Manager) (fs : gmap string Bytes) :
  enabled m = true -> mutex m = false ->
  match perform marshal unmarshal c m fs with
  | Returned _ m' _ =>
      mutex m' = false /\ enabled m' = true /\
      interval m' = interval m /\ file m' = file m /\
      assigned_map c (data m) <> Some true /\
      (loads_nothing c -> cursors_allocated (data m) -> cursors_allocated (data m'))
  | Blocked m' fs' =>
      fs' = fs /\ 0 < interval m /\
      exists now updated saved id,
        (c = CallMarkUserProcessed now updated saved id \/
         c = CallMarkVideoProcessed now updated saved id) /\
        due now m = true
  | Panicked m' fs' =>
      m' = m /\ fs' = fs /\ assigned_map c (data m) = Some true
  end.
Proof.
  intros Hen Hfree. unfold cursors_allocated.
  destruct c; simpl;
    try (simple_call Hen Hfree; rewrite ?relock, ?relock_data by exact Hfree;
         simpl; repeat split; (discriminate || tauto)).
  - rewrite Load_free by assumption.
    destruct (fs !! _) as [bytes|]; simpl;
      [|repeat split; (discriminate || tauto)].
    destruct (unmarshal bytes); simpl; repeat split; (discriminate || tauto).
  - rewrite Save_free by assumption.
    destruct (marshal _); simpl; repeat split; (discriminate || tauto).
  - rewrite CheckSave_free by assumption.
    destruct (_ && _); simpl; [|repeat split; (discriminate || tauto)].
    rewrite Save_free by assumption.
    destruct (marshal _); simpl; repeat split; (discriminate || tauto).
  - rewrite MarkUserProcessed_outcome by assumption.
    destruct (ProcessedUsers (data m)) eqn:Hmap; simpl; [|auto].
    destruct (Z.ltb_spec 0 (interval m)); simpl;
      [|repeat split; (discriminate || tauto)].
    destruct (due now m) eqn:Hdue; simpl;
      [|repeat split; (discriminate || tauto)].
    repeat split; try assumption. exists now, updated, saved, userID. auto.
  - rewrite MarkVideoProcessed_outcome by assumption.
    destruct (ProcessedVideos (data m)) eqn:Hmap; simpl; [|auto].
    destruct (Z.ltb_spec 0 (interval m)); simpl;
      [|repeat split; (discriminate || tauto)].
    destruct (due now m) eqn:Hdue; simpl;
      [|repeat split; (discriminate || tauto)].
    repeat split; try assumption. exists now, updated, saved, videoID. auto.
  - rewrite SetUserCursor_free by assumption.
    destruct (UserCursors (data m)); simpl; repeat split; (discriminate || tauto).
  - rewrite SetCommentCursor_free by assumption.
    destruct (CommentCursors (data m)); simpl; repeat split; (discriminate || tauto).
Qed.

(** Only the two marking methods can block a manager in service, and only
    with an auto-save due and without having written the file.  Any other
    call, and any sequence of other calls, ends with the mutex released:
    it returns, or it panics in an assignment to a nil map.  A sequence
    that neither marks nor loads, on a manager whose cursor maps are
    allocated, returns. *)
Theorem only_marking_blocks (m : Manager) (fs : gmap string Bytes) :
  enabled m = true -> mutex m = false ->
  (forall c,
      match perform marshal unmarshal c m fs with
      | Returned _ m' _ =>
          mutex m' = false /\ enabled m' = true /\
          interval m' = interval m /\ file m' = file m /\
          assigned_map c (data m) <> Some true
      | Blocked m' fs' =>
          fs' = fs /\ 0 < interval m /\
          exists now updated saved id,
            (c = CallMarkUserProcessed now updated saved id \/
             c = CallMarkVideoProcessed now updated saved id) /\
            due now m = true
      | Panicked m' fs' =>
          m' = m /\ fs' = fs /\ assigned_map c (data m) = Some true
      end) /\
  (forall cs, Forall marks_nothing cs ->
     match perform_all marshal unmarshal cs m fs with
     | Returned _ m' _ => mutex m' = false /\ enabled m' = true
     | Blocked _ _ => False
     | Panicked m' _ => mutex m' = false /\ enabled m' = true
     end) /\
  (forall cs, Forall marks_nothing cs -> Forall loads_nothing cs ->
     cursors_allocated (data m) ->
     exists m' fs',
       perform_all marshal unmarshal cs m fs = Returned tt m' fs' /\
       mutex m' = false /\ enabled m' = true /\ cursors_allocated (data m')).
Proof.
  intros Hen Hfree. split; [|split].
  - intros c. pose proof (perform_free c m fs Hen Hfree) as Hp.
    destruct (perform marshal unmarshal c m fs); tauto.
  - intros cs Hcs. revert m fs Hen Hfree.
    induction Hcs as [|c cs Hc _ IH]; intros m fs Hen Hfree; simpl; [auto|].
    pose proof (perform_free c m fs Hen Hfree) as Hp.
    destruct (perform marshal unmarshal c m fs) as [[] m1 fs1|m1 fs1|m1 fs1].
    + destruct Hp as (Hfree1 & Hen1 & _). now apply IH.
    + destruct Hp as (_ & _ & now & updated & saved & id & [-> | ->] & _);
        contradiction.
    + destruct Hp as (-> & _). auto.
  - intros cs Hcs Hloads. revert m fs Hen Hfree Hloads.
    induction Hcs as [|c cs Hc _ IH]; intros m fs Hen Hfree Hloads Halloc; simpl;
      [eauto 6|].
    inversion Hloads as [|? ? Hl Hls]; subst.
    pose proof (perform_free c m fs Hen Hfree) as Hp.
    destruct (perform marshal unmarshal c m fs) as [[] m1 fs1|m1 fs1|m1 fs1].
    + destruct Hp as (Hfree1 & Hen1 & _ & _ & _ & Hkeep). apply IH; auto.
    + destruct Hp as (_ & _ & now & updated & saved & id & [-> | ->] & _);
        contradiction.
    + destruct Hp as (_ & _ & Hnil). exfalso.
      destruct Halloc as [Hu Hc']. destruct c; simpl in *;
        try discriminate; try contradiction;
        injection Hnil as Hnil; apply bool_decide_eq_true in Hnil; contradiction.
Qed.

(** Each call writes only what it is named after.  On a manager in
    service, and [Load] apart (which replaces the whole record): a
    processed-set changes only in the marking call for it, a cursor map only
    in its setter, each counter only in its own operation, the platform tag
    only in [SetPlatform]; the file and the time of the last save change
    only in [Save] and [CheckSave].  In particular no marking call ever
    writes the file. *)
Theorem call_footprint (c : call) (m : Manager) (fs : gmap string Bytes) :
  enabled m = true -> mutex m = false ->
  let o := perform marshal unmarshal c m fs in
  let d := data (out_manager o) in
  (c <> CallLoad ->
     ((forall now updated saved id, c <> CallMarkUserProcessed now updated saved id) ->
        ProcessedUsers d = ProcessedUsers (data m) /\
        TotalUsers (stats d) = TotalUsers (stats (data m))) /\
     ((forall now updated saved id, c <> CallMarkVideoProcessed now updated saved id) ->
        ProcessedVideos d = ProcessedVideos (data m) /\
        TotalVideos (stats d) = TotalVideos (stats (data m))) /\
     ((forall id cursor, c <> CallSetUserCursor id cursor) ->
        UserCursors d = UserCursors (data m)) /\
     ((forall id cursor, c <> CallSetCommentCursor id cursor) ->
        CommentCursors d = CommentCursors (data m)) /\
     (c <> CallIncrementCommentCount ->
        TotalComments (stats d) = TotalComments (stats (data m))) /\
     (c <> CallIncrementProductCount ->
        TotalProducts (stats d) = TotalProducts (stats (data m))) /\
     ((forall platform, c <> CallSetPlatform platform) ->
        Platform d = Platform (data m)) /\
     StartTime d = StartTime (data m)) /\
  ((forall updated saved, c <> CallSave updated saved) ->
   (forall now updated saved, c <> CallCheckSave now updated saved) ->
     out_files o = fs /\ lastSave (out_manager o) = lastSave m /\
     (c <> CallLoad -> LastUpdateTime d = LastUpdateTime (data m))).
Proof.
  intros Hen Hfree. cbv zeta.
  destruct c; simpl;
    try (simple_call Hen Hfree; rewrite ?relock, ?relock_data by exact Hfree;
         simpl; repeat split; intros; congruence).
  - rewrite Load_free by assumption.
    split; [congruence|]. intros _ _.
    destruct (fs !! _) as [bytes|]; simpl; [|repeat split; congruence].
    destruct (unmarshal bytes); simpl; repeat split; congruence.
  - rewrite Save_free by assumption.
    split; [|intros H; now destruct (H updated saved)].
    intros _. destruct (marshal _); simpl; repeat split.
  - rewrite CheckSave_free by assumption.
    split; [|intros _ H; now destruct (H now updated saved)].
    intros _. destruct (_ && _); simpl; [|repeat split].
    rewrite Save_free by assumption.
    destruct (marshal _); simpl; repeat split.
  - rewrite MarkUserProcessed_outcome by assumption.
    destruct (ProcessedUsers (data m)) eqn:Hmap;
      [|simpl; repeat split; intros; congruence].
    destruct (_ && _); simpl; repeat split; intros; try congruence;
      match goal with
      | H : forall _ _ _ _, _ <> _ |- _ => now destruct (H now updated saved userID)
      end.
  - rewrite MarkVideoProcessed_outcome by assumption.
    destruct (ProcessedVideos (data m)) eqn:Hmap;
      [|simpl; repeat split; intros; congruence].
    destruct (_ && _); simpl; repeat split; intros; try congruence;
      match goal with
      | H : forall _ _ _ _, _ <> _ |- _ => now destruct (H now updated saved videoID)
      end.
  - rewrite SetUserCursor_free by assumption.
    destruct (UserCursors (data m)); simpl; repeat split; intros; try congruence;
      match goal with
      | H : forall _ _, _ <> _ |- _ => now destruct (H userID cursor)
      end.
  - rewrite SetCommentCursor_free by assumption.
    destruct (CommentCursors (data m)); simpl; repeat split; intros; try congruence;
      match goal with
      | H : forall _ _, _ <> _ |- _ => now destruct (H videoID cursor)
      end.
Qed.

(** [Load] has three ways to end, none of which touches the files or keeps
    the mutex.  No snapshot on disk is not an error and leaves the manager
    as it is.  A snapshot that does not decode is an error and leaves the
    manager as it is.  A snapshot that decodes replaces the whole record,
    progress made in memory before the call included, and leaves the
    configuration and the time of the last save alone. *)
Theorem Load_outcomes (m : Manager) (fs : gmap string Bytes) :
  enabled m = true -> mutex m = false ->
  (fs !! file m = None -> Load unmarshal m fs = Returned None m fs) /\
  (forall bytes,
      fs !! file m = Some bytes -> unmarshal bytes = None ->
      Load unmarshal m fs = Returned (Some ErrParse) m fs) /\
  (forall bytes checkpointData,
      fs !! file m = Some bytes -> unmarshal bytes = Some checkpointData ->
      exists m',
        Load unmarshal m fs = Returned None m' fs /\
        data m' = checkpointData /\ mutex m' = false /\
        enabled m' = enabled m /\ interval m' = interval m /\
        file m' = file m /\ lastSave m' = lastSave m).
Proof.
  intros Hen Hfree. rewrite Load_free by assumption.
  split; [|split].
  - now intros ->.
  - now intros bytes -> ->.
  - intros bytes d -> ->. eexists. split; [reflexivity|]. simpl. auto 10.
Qed.

(** Marking and testing.  After [MarkUserProcessed] has returned,
    [IsUserProcessed] answers [true] for that ID and what it answered before
    for every other ID, and [IsVideoProcessed] answers what it answered
    before; and symmetrically for videos. *)
Theorem marked_is_processed (now updated saved : Z) (id : string) (m m1 : Manager)
  (fs fs1 : gmap string Bytes) :
  enabled m = true -> mutex m = false ->
  (MarkUserProcessed marshal now updated saved id m fs = Returned tt m1 fs1 ->
     IsUserProcessed id m1 fs1 = Returned true m1 fs1 /\
     (forall other, other <> id ->
        IsUserProcessed other m1 fs1 =
          Returned (bool_at (ProcessedUsers (data m)) other) m1 fs1) /\
     (forall other,
        IsVideoProcessed other m1 fs1 =
          Returned (bool_at (ProcessedVideos (data m)) other) m1 fs1)) /\
  (MarkVideoProcessed marshal now updated saved id m fs = Returned tt m1 fs1 ->
     IsVideoProcessed id m1 fs1 = Returned true m1 fs1 /\
     (forall other, other <> id ->
        IsVideoProcessed other m1 fs1 =
          Returned (bool_at (ProcessedVideos (data m)) other) m1 fs1) /\
     (forall other,
        IsUserProcessed other m1 fs1 =
          Returned (bool_at (ProcessedUsers (data m)) other) m1 fs1)).
Proof.
  intros Hen Hfree. split; intros Hret.
  - destruct (MarkUserProcessed_returned marshal _ _ _ _ _ _ _ _ Hen Hfree Hret)
      as (-> & -> & _).
    unfold IsUserProcessed, IsVideoProcessed. simpl. rewrite Hen; simpl.
    unfold locked, Lock. simpl. run_method. simpl. unfold bool_at. simpl.
    split; [now rewrite lookup_insert_eq|].
    split; [|reflexivity].
    intros other Hne. now rewrite lookup_insert_ne.
  - destruct (MarkVideoProcessed_returned marshal _ _ _ _ _ _ _ _ Hen Hfree Hret)
      as (-> & -> & _).
    unfold IsUserProcessed, IsVideoProcessed. simpl. rewrite Hen; simpl.
    unfold locked, Lock. simpl. run_method. simpl. unfold bool_at. simpl.
    split; [now rewrite lookup_insert_eq|].
    split; [|reflexivity].
    intros other Hne. now rewrite lookup_insert_ne.
Qed.

(** Cursors, on a manager in service.  With the cursor map allocated (as
    [NewManager] leaves it): the setter returns, the last write for a
    parent wins, writes for one parent do not show under another, and a
    parent never written reads as the empty string.  With the cursor map
    nil (as [Load] leaves it for a snapshot without the field): the setter
    panics and leaves the manager as it was, and the getter answers the
    empty string.  The same holds of the comment cursors. *)
Theorem cursor_last_write_wins (parent first second : string) (m : Manager)
  (fs : gmap string Bytes) :
  enabled m = true -> mutex m = false ->
  (UserCursors (data m) <> None ->
   exists m1 m2,
      SetUserCursor parent first m fs = Returned tt m1 fs /\
      SetUserCursor parent second m1 fs = Returned tt m2 fs /\
      GetUserCursor parent m2 fs = Returned second m2 fs /\
      (forall other, other <> parent ->
         GetUserCursor other m2 fs =
           Returned (string_at (UserCursors (data m)) other) m2 fs) /\
      (forall other, entries (UserCursors (data m)) !! other = None ->
         other <> parent ->
         GetUserCursor other m2 fs = Returned EmptyString m2 fs)) /\
  (UserCursors (data m) = None ->
   SetUserCursor parent first m fs = Panicked m fs /\
   forall other, GetUserCursor other m fs = Returned EmptyString m fs) /\
  (CommentCursors (data m) <> None ->
   exists m1 m2,
      SetCommentCursor parent first m fs = Returned tt m1 fs /\
      SetCommentCursor parent second m1 fs = Returned tt m2 fs /\
      GetCommentCursor parent m2 fs = Returned second m2 fs /\
      (forall other, other <> parent ->
         GetCommentCursor other m2 fs =
           Returned (string_at (CommentCursors (data m)) other) m2 fs) /\
      (forall other, entries (CommentCursors (data m)) !! other = None ->
         other <> parent ->
         GetCommentCursor other m2 fs = Returned EmptyString m2 fs)) /\
  (CommentCursors (data m) = None ->
   SetCommentCursor parent first m fs = Panicked m fs /\
   forall other, GetCommentCursor other m fs = Returned EmptyString m fs).
Proof.
  intros Hen Hfree. split; [|split; [|split]].
  - intros Halloc.
    destruct (UserCursors (data m)) as [cursors|] eqn:Hmap; [|contradiction].
    eexists _, _.
    split; [rewrite SetUserCursor_free, Hmap by assumption; reflexivity|].
    split; [rewrite SetUserCursor_free by assumption; reflexivity|].
    split; [|split].
    + rewrite GetUserCursor_free by assumption. unfold string_at; simpl.
      now rewrite lookup_insert_eq.
    + intros other Hne. rewrite GetUserCursor_free by assumption.
      unfold string_at; simpl. now rewrite !lookup_insert_ne by congruence.
    + intros other Hnone Hne. rewrite GetUserCursor_free by assumption.
      unfold string_at; simpl. rewrite !lookup_insert_ne by congruence.
      simpl in Hnone. now rewrite Hnone.
  - intros Hnil. split.
    + now rewrite SetUserCursor_free, Hnil by assumption.
    + intros other. rewrite GetUserCursor_free by assumption.
      now rewrite Hnil.
  - intros Halloc.
    destruct (CommentCursors (data m)) as [cursors|] eqn:Hmap; [|contradiction].
    eexists _, _.
    split; [rewrite SetCommentCursor_free, Hmap by assumption; reflexivity|].
    split; [rewrite SetCommentCursor_free by assumption; reflexivity|].
    split; [|split].
    + rewrite GetCommentCursor_free by assumption. unfold string_at; simpl.
      now rewrite lookup_insert_eq.
    + intros other Hne. rewrite GetCommentCursor_free by assumption.
      unfold string_at; simpl. now rewrite !lookup_insert_ne by congruence.
    + intros other Hnone Hne. rewrite GetCommentCursor_free by assumption.
      unfold string_at; simpl. rewrite !lookup_insert_ne by congruence.
      simpl in Hnone. now rewrite Hnone.
  - intros Hnil. split.
    + now rewrite SetCommentCursor_free, Hnil by assumption.
    + intros other. rewrite GetCommentCursor_free by assumption.
      now rewrite Hnil.
Qed.

(** An explicit [Save] restarts the auto-save clock.  A [Save] that
    returned without error has stamped the record with its first reading
    of the clock and the manager with its second, has written the snapshot
    and has left the progress in memory as it was.  Whether a later
    marking call returns or blocks is then decided by the time since that
    second reading alone: it blocks exactly when the interval is positive
    and the float64 seconds since then have reached it. *)
Theorem Save_restarts_clock (updated saved now' updated' saved' : Z) (id : string)
  (m m1 : Manager) (fs fs1 : gmap string Bytes) :
  enabled m = true ->
  Save marshal updated saved m fs = Returned None m1 fs1 ->
  same_progress (data m1) (data m) /\
  LastUpdateTime (data m1) = updated /\
  lastSave m1 = saved /\
  fs1 !! file m = marshal (data m1) /\
  fs1 !! file m <> None /\
  (ProcessedUsers (data m) <> None ->
   MarkUserProcessed marshal now' updated' saved' id m1 fs1 =
     if (0 <? interval m) && reached (interval m) (GoTime.Since now' saved)
     then Blocked (marked_user id m1) fs1
     else Returned tt (set_mutex false (marked_user id m1)) fs1).
Proof.
  intros Hen Hsave.
  destruct (Save_returned marshal _ _ _ _ _ _ Hen Hsave) as (Hfree & bytes & Hm & ->).
  rewrite Save_free, Hm in Hsave by assumption. injection Hsave as <-.
  simpl. split; [repeat split|]. split; [reflexivity|]. split; [reflexivity|].
  rewrite lookup_insert_eq. split; [now rewrite Hm|]. split; [discriminate|].
  intros Halloc.
  rewrite MarkUserProcessed_outcome by assumption. simpl.
  destruct (ProcessedUsers (data m)); [reflexivity|contradiction].
Qed.

End CheckpointCallFacts.

Lemma disabled_manager_inert_witness :
  let m := Checkpoint.set_data (Checkpoint.data Fixtures.resumable_manager)
             (Checkpoint.NewManager
                (Checkpoint.mkConfig false 5 "checkpoint.json") 0 0 0) in
  Checkpoint.string_at (Checkpoint.UserCursors (Checkpoint.data m)) "u1" = "c7" /\
  Checkpoint.GetUserCursor "u1" m Fixtures.no_files =
    Checkpoint.Returned EmptyString m Fixtures.no_files /\
  CheckpointCalls.perform Fixtures.keep Fixtures.keep
    (CheckpointCalls.CallMarkUserProcessed 9000000000 9000000000 9000000000 "u1")
    m Fixtures.no_files =
    Checkpoint.Returned tt m Fixtures.no_files.
Proof.
  intros m.
  destruct (disabled_manager_inert Fixtures.keep Fixtures.keep m Fixtures.no_files
              eq_refl)
    as (Hall & _ & _ & Hcursor & _).
  split; [reflexivity|]. split; [apply Hcursor | apply Hall].
Defined.

Lemma blocked_manager_stays_blocked_witness :
  let m' := Checkpoint.marked_user "u1" Fixtures.fresh_manager in
  CheckpointCalls.perform Fixtures.keep Fixtures.keep
    (CheckpointCalls.CallSave 6000000000 6000000000) m' Fixtures.no_files =
    Checkpoint.Blocked m' Fixtures.no_files /\
  Checkpoint.out_manager
    (CheckpointCalls.perform_all Fixtures.keep Fixtures.keep
       [CheckpointCalls.CallGetStats; CheckpointCalls.CallSave 6000000000 6000000000;
        CheckpointCalls.CallIsUserProcessed "u1"]
       m' Fixtures.no_files) = m'.
Proof.
  intros m'.
  destruct (blocked_manager_stays_blocked Fixtures.keep Fixtures.keep
              5000000000 5000000000 5000000000 "u1" Fixtures.fresh_manager m'
              Fixtures.no_files Fixtures.no_files eq_refl eq_refl)
    as [Hone Hall].
  - left. apply (MarkUserProcessed_never_saves Fixtures.keep);
      [reflexivity|reflexivity|discriminate|reflexivity|vm_compute; reflexivity].
  - split; [apply Hone; discriminate | apply Hall].
Defined.

Lemma only_marking_blocks_witness :
  (exists m' fs',
     CheckpointCalls.perform_all Fixtures.keep Fixtures.keep
       [CheckpointCalls.CallSetUserCursor "u1" "c1";
        CheckpointCalls.CallIncrementCommentCount;
        CheckpointCalls.CallSave 7000000000 7000000000;
        CheckpointCalls.CallGetUserCursor "u1"]
       Fixtures.fresh_manager Fixtures.no_files = Checkpoint.Returned tt m' fs' /\
     Checkpoint.mutex m' = false /\ Checkpoint.enabled m' = true /\
     CheckpointCalls.cursors_allocated (Checkpoint.data m')) /\
  CheckpointCalls.perform Fixtures.keep Fixtures.keep
    (CheckpointCalls.CallSetUserCursor "u1" "c1")
    MoreFixtures.loaded_manager Fixtures.no_files =
    Checkpoint.Panicked MoreFixtures.loaded_manager Fixtures.no_files.
Proof.
  split.
  - destruct (only_marking_blocks Fixtures.keep Fixtures.keep
                Fixtures.fresh_manager Fixtures.no_files eq_refl eq_refl)
      as (_ & _ & Hall).
    apply Hall; [repeat constructor..|split; discriminate].
  - destruct (only_marking_blocks Fixtures.keep Fixtures.keep
                MoreFixtures.loaded_manager Fixtures.no_files eq_refl eq_refl)
      as (Hone & _).
    specialize (Hone (CheckpointCalls.CallSetUserCursor "u1" "c1")).
    destruct (CheckpointCalls.perform Fixtures.keep Fixtures.keep
                (CheckpointCalls.CallSetUserCursor "u1" "c1")
                MoreFixtures.loaded_manager Fixtures.no_files)
      as [[] m1 fs1|m1 fs1|m1 fs1].
    + destruct Hone as (_ & _ & _ & _ & Hnot). now destruct Hnot.
    + destruct Hone as (_ & _ & now & updated & saved & id & [H|H] & _);
        discriminate H.
    + destruct Hone as (-> & -> & _). reflexivity.
Defined.

Lemma call_footprint_witness :
  let o := CheckpointCalls.perform Fixtures.keep Fixtures.keep
             (CheckpointCalls.CallMarkUserProcessed 1000000000 1000000000 1000000000
                "u2")
             Fixtures.resumable_manager Fixtures.no_files in
  Checkpoint.UserCursors (Checkpoint.data (Checkpoint.out_manager o)) =
    Checkpoint.UserCursors (Checkpoint.data Fixtures.resumable_manager) /\
  Checkpoint.out_files o = Fixtures.no_files.
Proof.
  intros o.
  destruct (call_footprint Fixtures.keep Fixtures.keep
              (CheckpointCalls.CallMarkUserProcessed 1000000000 1000000000 1000000000
                 "u2")
              Fixtures.resumable_manager Fixtures.no_files eq_refl eq_refl)
    as [Hdata Hfiles].
  destruct (Hdata ltac:(discriminate)) as (_ & _ & Hcursors & _).
  destruct Hfiles as (Hfs & _); [discriminate..|].
  split; [apply Hcursors; discriminate | exact Hfs].
Defined.

Lemma Load_outcomes_witness :
  Checkpoint.Load (fun _ : Checkpoint.Data => @None Checkpoint.Data)
    Fixtures.fresh_manager
    (<["checkpoint.json" := Checkpoint.data Fixtures.resumable_manager]> Fixtures.no_files)
  = Checkpoint.Returned (Some Checkpoint.ErrParse) Fixtures.fresh_manager
      (<["checkpoint.json" := Checkpoint.data Fixtures.resumable_manager]> Fixtures.no_files)
  /\
  Checkpoint.Load Fixtures.keep Fixtures.fresh_manager Fixtures.no_files =
    Checkpoint.Returned None Fixtures.fresh_manager Fixtures.no_files.
Proof.
  split.
  - destruct (Load_outcomes (fun _ => None) Fixtures.fresh_manager
                (<["checkpoint.json" := Checkpoint.data Fixtures.resumable_manager]>
                   Fixtures.no_files) eq_refl eq_refl) as (_ & Hbad & _).
    apply (Hbad (Checkpoint.data Fixtures.resumable_manager)); reflexivity.
  - destruct (Load_outcomes Fixtures.keep Fixtures.fresh_manager Fixtures.no_files
                eq_refl eq_refl) as (Hmissing & _).
    apply Hmissing. reflexivity.
Defined.

Lemma marked_is_processed_witness :
  let m1 := Checkpoint.out_manager
              (Checkpoint.MarkUserProcessed Fixtures.keep 1000000000 1000000000
                 1000000000 "u1" Fixtures.fresh_manager Fixtures.no_files) in
  Checkpoint.IsUserProcessed "u1" m1 Fixtures.no_files =
    Checkpoint.Returned true m1 Fixtures.no_files /\
  Checkpoint.IsUserProcessed "u2" m1 Fixtures.no_files =
    Checkpoint.Returned false m1 Fixtures.no_files.
Proof.
  intros m1.
  destruct (marked_is_processed Fixtures.keep 1000000000 1000000000 1000000000 "u1"
              Fixtures.fresh_manager m1
              Fixtures.no_files Fixtures.no_files eq_refl eq_refl) as [Huser _].
  destruct (Huser ltac:(vm_compute; reflexivity)) as (Hsame & Hother & _).
  split; [exact Hsame|]. apply (Hother "u2"). discriminate.
Defined.

Lemma cursor_last_write_wins_witness :
  (exists m1 m2,
     Checkpoint.SetUserCursor "u1" "c1" Fixtures.resumable_manager Fixtures.no_files =
       Checkpoint.Returned tt m1 Fixtures.no_files /\
     Checkpoint.SetUserCursor "u1" "c2" m1 Fixtures.no_files =
       Checkpoint.Returned tt m2 Fixtures.no_files /\
     Checkpoint.GetUserCursor "u1" m2 Fixtures.no_files =
       Checkpoint.Returned "c2" m2 Fixtures.no_files) /\
  Checkpoint.SetCommentCursor "v1" "k1" MoreFixtures.loaded_manager Fixtures.no_files =
    Checkpoint.Panicked MoreFixtures.loaded_manager Fixtures.no_files.
Proof.
  split.
  - destruct (cursor_last_write_wins "u1" "c1" "c2" Fixtures.resumable_manager
                Fixtures.no_files eq_refl eq_refl)
      as (Hset & _).
    destruct (Hset ltac:(discriminate)) as (m1 & m2 & H1 & H2 & Hget & _).
    exists m1, m2. auto.
  - destruct (cursor_last_write_wins "v1" "k1" "k2" MoreFixtures.loaded_manager
                Fixtures.no_files eq_refl eq_refl)
      as (_ & _ & _ & Hnil).
    apply Hnil. reflexivity.
Defined.

Lemma Save_restarts_clock_witness :
  let saved := Checkpoint.Save Fixtures.keep 1000 2000 MoreFixtures.patient_manager
                 Fixtures.no_files in
  let m1 := Checkpoint.out_manager saved in
  let fs1 := Checkpoint.out_files saved in
  Checkpoint.LastUpdateTime (Checkpoint.data m1) = 1000 /\
  Checkpoint.lastSave m1 = 2000 /\
  Checkpoint.MarkUserProcessed Fixtures.keep (2000 + 33554431999999995) 0 0 "u1"
    m1 fs1 =
    Checkpoint.Returned tt
      (Checkpoint.set_mutex false (Checkpoint.marked_user "u1" m1)) fs1 /\
  Checkpoint.MarkUserProcessed Fixtures.keep (2000 + 33554431999999999) 0 0 "u1"
    m1 fs1 =
    Checkpoint.Blocked (Checkpoint.marked_user "u1" m1) fs1.
Proof.
  intros saved m1 fs1.
  assert (Hsaved : Checkpoint.Save Fixtures.keep 1000 2000
                     MoreFixtures.patient_manager Fixtures.no_files =
                   Checkpoint.Returned None m1 fs1) by reflexivity.
  split; [|split; [|split]].
  - destruct (Save_restarts_clock Fixtures.keep 1000 2000 0 0 0 "u1"
                MoreFixtures.patient_manager m1 Fixtures.no_files fs1
                eq_refl Hsaved) as (_ & Hupdated & _).
    exact Hupdated.
  - destruct (Save_restarts_clock Fixtures.keep 1000 2000 0 0 0 "u1"
                MoreFixtures.patient_manager m1 Fixtures.no_files fs1
                eq_refl Hsaved) as (_ & _ & Hlast & _).
    exact Hlast.
  - destruct (Save_restarts_clock Fixtures.keep 1000 2000
                (2000 + 33554431999999995) 0 0 "u1"
                MoreFixtures.patient_manager m1 Fixtures.no_files fs1
                eq_refl Hsaved) as (_ & _ & _ & _ & _ & Hmark).
    rewrite Hmark by discriminate.
    replace (Checkpoint.reached _ _) with false by (vm_compute; reflexivity).
    reflexivity.
  - destruct (Save_restarts_clock Fixtures.keep 1000 2000
                (2000 + 33554431999999999) 0 0 "u1"
                MoreFixtures.patient_manager m1 Fixtures.no_files fs1
                eq_refl Hsaved) as (_ & _ & _ & _ & _ & Hmark).
    rewrite Hmark by discriminate.
    replace (Checkpoint.reached _ _) with true by (vm_compute; reflexivity).
    reflexivity.
Defined.

(** ** More on the rate limiter *)

Section RatelimitRunFacts.
Import Ratelimit RatelimitRuns.

(** [Wait] panics exactly when the limiter is enabled and its refill
    interval is zero, and [NewLimiter] produces such an interval exactly
    when more than sixty thousand million requests per minute are asked
    for: [time.Minute / requestsPerMinute] is then zero nanoseconds. *)
Theorem Wait_panics_iff :
  (forall now1 now2 now3 l,
      Wait now1 now2 now3 l = None <-> enabled l = true /\ interval l = 0) /\
  (forall config now,
      GoInt.in_range (RequestsPerMinute config) ->
      (interval (NewLimiter config now) = 0 <->
       GoTime.Minute < RequestsPerMinute config)) /\
  (forall config now now1 now2 now3,
      GoInt.in_range (RequestsPerMinute config) ->
      (Wait now1 now2 now3 (NewLimiter config now) = None <->
       Enabled config = true /\ GoTime.Minute < RequestsPerMinute config)).
Proof.
  assert (Hwait : forall now1 now2 now3 l,
             Wait now1 now2 now3 l = None <-> enabled l = true /\ interval l = 0).
  { intros now1 now2 now3 l. unfold Wait, refill, GoInt.quot.
    destruct (enabled l); simpl; [|split; [discriminate|intros [? _]; discriminate]].
    destruct (Z.eqb_spec (interval l) 0) as [Hz|Hnz].
    - split; auto.
    - destruct (_ >? 0); destruct (await _ _ _);
        (split; [discriminate|intros [_ ?]; contradiction]). }
  assert (Hnew : forall config now,
             GoInt.in_range (RequestsPerMinute config) ->
             (interval (NewLimiter config now) = 0 <->
              GoTime.Minute < RequestsPerMinute config)).
  { intros config now Hr. unfold NewLimiter; simpl.
    destruct (Z.leb_spec (RequestsPerMinute config) 0) as [Hle|Hpos].
    - split; [discriminate|]. unfold GoTime.Minute, GoTime.Second. lia.
    - rewrite quot_pos_divisor;
        [| unfold GoTime.Minute, GoTime.Second; int_range | assumption].
      rewrite Z.quot_small_iff by lia.
      unfold GoTime.Minute, GoTime.Second. lia. }
  split; [exact Hwait|]. split; [exact Hnew|].
  intros config now now1 now2 now3 Hr.
  rewrite Hwait, (Hnew config now Hr). reflexivity.
Qed.

Lemma Wait_panics_iff_witness :
  Wait 5 5 5 (NewLimiter (mkConfig true 60000000001) 0) = None /\
  interval (NewLimiter (mkConfig true 60000000001) 0) = 0.
Proof.
  destruct Wait_panics_iff as (_ & Hnew & Hwait).
  assert (Hr : GoInt.in_range (RequestsPerMinute (mkConfig true 60000000001)))
    by (vm_compute; split; discriminate).
  split.
  - apply (Hwait _ 0 5 5 5 Hr). split; reflexivity.
  - apply (Hnew _ 0 Hr). reflexivity.
Defined.

Lemma in_service_elapsed (now : Z) (l : Limiter) :
  in_service l -> 0 <= now <= horizon ->
  GoTime.Since now (lastRefill l) = now - lastRefill l /\
  GoInt.quot (now - lastRefill l) (interval l) =
    Some (Z.quot (now - lastRefill l) (interval l)).
Proof.
  intros (_ & Hi & _ & Hr & _) Hnow. unfold horizon in *.
  assert (Hrange : GoInt.in_range (now - lastRefill l)) by int_range.
  split.
  - unfold GoTime.Since, GoInt.saturate. unfold GoInt.in_range in Hrange. lia.
  - apply quot_pos_divisor; [assumption|lia].
Qed.

(** The refill step, with the bounds it keeps. *)
Lemma refill_in_service (now : Z) (l : Limiter) :
  in_service l -> 0 <= now <= horizon ->
  exists l1,
    refill now l = Some l1 /\ in_service l1 /\
    requestsPerMinute l1 = requestsPerMinute l /\ interval l1 = interval l /\
    tokens l <= tokens l1 /\
    (now - lastRefill l < interval l -> l1 = l) /\
    (lastRefill l <= now ->
       lastRefill l <= lastRefill l1 <= now /\
       now - lastRefill l1 < interval l /\
       lastRefill l1 - lastRefill l =
         interval l * Z.div (now - lastRefill l) (interval l) /\
       tokens l1 =
         Z.min (requestsPerMinute l)
               (tokens l + Z.div (now - lastRefill l) (interval l))).
Proof.
  intros Hl Hnow. destruct (in_service_elapsed now l Hl Hnow) as [Hsince Hquot].
  destruct Hl as (Hen & Hi & Hc & Hr & Ht). unfold refill.
  rewrite Hsince, Hquot. unfold horizon, tokens_ok in *.
  set (elapsed := now - lastRefill l) in *.
  destruct (Z.gtb_spec (Z.quot elapsed (interval l)) 0) as [Hadd|Hnone].
  - assert (Hpos : 0 <= elapsed).
    { destruct (Z.le_gt_cases 0 elapsed); [assumption|].
      pose proof (quot_neg_dividend elapsed (interval l)). lia. }
    rewrite Z.quot_div_nonneg in * by lia.
    pose proof (Z.mul_div_le elapsed (interval l) ltac:(lia)) as Hle.
    pose proof (Z.mod_pos_bound elapsed (interval l) ltac:(lia)) as Hmod.
    pose proof (Z.div_mod elapsed (interval l) ltac:(lia)) as Hdm.
    assert (Hdiv : Z.div elapsed (interval l) <= elapsed)
      by (apply Z.div_le_upper_bound; nia).
    eexists. split; [reflexivity|]. simpl.
    rewrite min_is_Zmin. unfold GoInt.add, GoInt.mul, GoTime.Add.
    rewrite !wrap_in_range by (unfold elapsed in *; int_range).
    unfold in_service, horizon, tokens_ok; simpl.
    repeat split; try lia; try assumption.
    intros Hsmall. rewrite Z.div_small in Hadd by lia. lia.
  - exists l. split; [reflexivity|].
    split; [unfold in_service, horizon, tokens_ok; auto|].
    split; [reflexivity|]. split; [reflexivity|]. split; [lia|].
    split; [reflexivity|].
    intros Hpos.
    assert (H0 : 0 <= elapsed) by (unfold elapsed; lia).
    rewrite Z.quot_div_nonneg in Hnone by lia.
    pose proof (Z.div_pos elapsed (interval l) H0 ltac:(lia)) as Hd.
    assert (Hzero : Z.div elapsed (interval l) = 0) by lia.
    pose proof (Z.mod_pos_bound elapsed (interval l) ltac:(lia)) as Hmod.
    pose proof (Z.div_mod elapsed (interval l) ltac:(lia)) as Hdm.
    rewrite Hzero in *. unfold elapsed in *. repeat split; lia.
Qed.

(** The refill carries over the time it does not turn into tokens: with
    the clock at or past the anchor, the anchor moves forward by a whole
    number of intervals, never past the clock, and less than one interval
    is left between the anchor and the clock; the bucket gains one token for
    each interval, up to its capacity. *)
Theorem refill_carries_remainder (now : Z) (l : Limiter) :
  in_service l -> lastRefill l <= now <= horizon ->
  exists l1,
    refill now l = Some l1 /\
    lastRefill l <= lastRefill l1 <= now /\
    now - lastRefill l1 < interval l /\
    lastRefill l1 - lastRefill l =
      interval l * Z.div (now - lastRefill l) (interval l) /\
    tokens l1 =
      Z.min (requestsPerMinute l)
            (tokens l + Z.div (now - lastRefill l) (interval l)).
Proof.
  intros Hl Hnow.
  assert (Hnow' : 0 <= now <= horizon) by (destruct Hl as (_ & _ & _ & ? & _); lia).
  destruct (refill_in_service now l Hl Hnow') as (l1 & Hr & _ & _ & _ & _ & _ & Hfwd).
  exists l1. split; [exact Hr|]. apply Hfwd. lia.
Qed.

(** A call that finds a token does not sleep. *)
Lemma Wait_with_token (now1 now2 now3 : Z) (l : Limiter) :
  in_service l -> 1 <= tokens l -> 0 <= now1 <= horizon ->
  exists l',
    Wait now1 now2 now3 l = Some (l', 0) /\ in_service l' /\
    requestsPerMinute l' = requestsPerMinute l /\ interval l' = interval l /\
    tokens l - 1 <= tokens l' /\
    (now1 - lastRefill l < interval l ->
       tokens l' = tokens l - 1 /\ lastRefill l' = lastRefill l).
Proof.
  intros Hl Htok Hnow.
  destruct (refill_in_service now1 l Hl Hnow)
    as (l1 & Hr & Hl1 & Hc & Hi & Hge & Hsame & _).
  unfold Wait. destruct Hl as (Hen & _). rewrite Hen; simpl. rewrite Hr.
  unfold await. destruct (Z.leb_spec (tokens l1) 0); [lia|].
  destruct Hl1 as (Hen1 & Hi1 & Hc1 & Hr1 & Ht1).
  unfold consume, GoInt.sub. unfold tokens_ok, horizon in *.
  rewrite wrap_in_range by int_range.
  eexists. split; [reflexivity|]. simpl.
  split; [unfold in_service, tokens_ok, horizon; simpl; repeat split; lia || assumption|].
  split; [assumption|]. split; [assumption|]. split; [lia|].
  intros Hsmall. rewrite (Hsame Hsmall). auto.
Qed.

(** An enabled limiter serves as many calls without sleeping as it holds
    tokens, whenever they come. *)
Theorem tokens_serve_calls (clock : list (Z * Z * Z)) (l : Limiter) :
  in_service l ->
  read_within 0 horizon clock ->
  Z.of_nat (length clock) <= tokens l ->
  exists l',
    Waits clock l = Some (l', replicate (length clock) 0) /\
    in_service l' /\
    tokens l - Z.of_nat (length clock) <= tokens l'.
Proof.
  revert l. induction clock as [|[[now1 now2] now3] clock IH]; intros l Hl Hclock Hlen.
  - exists l. simpl. split; [reflexivity|]. split; [assumption|]. lia.
  - apply Forall_cons in Hclock as [Hnow Hclock]. simpl in Hnow, Hlen.
    destruct (Wait_with_token now1 now2 now3 l Hl ltac:(lia) Hnow)
      as (l1 & HW & Hl1 & _ & _ & Hge & _).
    destruct (IH l1 Hl1 Hclock ltac:(lia)) as (l' & Hrest & Hl' & Hge').
    exists l'. simpl. rewrite HW, Hrest.
    split; [reflexivity|]. split; [assumption|]. lia.
Qed.

Lemma Wait_on_empty_bucket (now1 now2 now3 : Z) (l : Limiter) :
  in_service l -> tokens l = 0 ->
  0 <= now1 <= horizon -> now1 - lastRefill l < interval l ->
  lastRefill l <= now2 <= horizon ->
  Wait now1 now2 now3 l =
    Some ({| enabled := enabled l;
             requestsPerMinute := requestsPerMinute l;
             interval := interval l;
             tokens := 0;
             lastRefill := now3 |},
          if interval l - (now2 - lastRefill l) >? 0
          then interval l - (now2 - lastRefill l) else 0).
Proof.
  intros Hl Htok Hnow1 Hsmall Hnow2.
  destruct (refill_in_service now1 l Hl Hnow1)
    as (l1 & Hr & _ & _ & _ & _ & Hsame & _).
  rewrite (Hsame Hsmall) in Hr.
  destruct Hl as (Hen & Hi & Hc & Hlr & Ht).
  unfold Wait. rewrite Hen; simpl. rewrite Hr.
  unfold await. rewrite Htok. simpl.
  unfold GoTime.Since, GoInt.saturate, GoInt.sub, consume. simpl.
  unfold horizon, GoInt.min_int, GoInt.max_int in *.
  change (GoInt.sub 1 1) with 0.
  replace (Z.max (- 2 ^ 63) (Z.min (2 ^ 63 - 1) (now2 - lastRefill l)))
    with (now2 - lastRefill l) by lia.
  rewrite wrap_in_range by int_range. now rewrite Hen.
Qed.

(** On an empty bucket, less than one interval after the anchor, [Wait]
    sleeps for what is left of the interval (nothing, if the interval has
    run out by the second reading of the clock), sets the anchor to the
    clock after the sleep and leaves the bucket empty. *)
Theorem empty_bucket_sleeps (now1 now2 now3 : Z) (l : Limiter) :
  in_service l -> tokens l = 0 ->
  0 <= now1 <= horizon -> now1 - lastRefill l < interval l ->
  lastRefill l <= now2 <= horizon ->
  exists l',
    Wait now1 now2 now3 l =
      Some (l', Z.max 0 (interval l - (now2 - lastRefill l))) /\
    Z.max 0 (interval l - (now2 - lastRefill l)) <= interval l /\
    tokens l' = 0 /\ lastRefill l' = now3 /\
    requestsPerMinute l' = requestsPerMinute l /\ interval l' = interval l.
Proof.
  intros Hl Htok Hnow1 Hsmall Hnow2.
  rewrite (Wait_on_empty_bucket now1 now2 now3 l Hl Htok Hnow1 Hsmall Hnow2).
  destruct Hl as (_ & Hi & _).
  eexists. split.
  - destruct (Z.gtb_spec (interval l - (now2 - lastRefill l)) 0).
    + rewrite Z.max_r by lia. reflexivity.
    + rewrite Z.max_l by lia. reflexivity.
  - simpl. repeat split; lia.
Qed.

Lemma Waits_app (clock clock' : list (Z * Z * Z)) (l : Limiter) :
  Waits (clock ++ clock') l =
    match Waits clock l with
    | None => None
    | Some (l1, sleeps) =>
        match Waits clock' l1 with
        | None => None
        | Some (l2, sleeps') => Some (l2, sleeps ++ sleeps')
        end
    end.
Proof.
  revert l. induction clock as [|[[now1 now2] now3] clock IH]; intros l; simpl.
  - destruct (Waits clock' l) as [[l2 sleeps']|]; reflexivity.
  - destruct (Wait now1 now2 now3 l) as [[l1 slept]|]; [|reflexivity].
    rewrite IH. destruct (Waits clock l1) as [[l2 sleeps]|]; [|reflexivity].
    destruct (Waits clock' l2) as [[l3 sleeps']|]; reflexivity.
Qed.

(** Calls that all come within one interval of the anchor only take
    tokens. *)
Lemma Waits_without_refill (clock : list (Z * Z * Z)) (l : Limiter) :
  in_service l ->
  read_within 0 (Z.min horizon (lastRefill l + interval l - 1)) clock ->
  Z.of_nat (length clock) <= tokens l ->
  exists l',
    Waits clock l = Some (l', replicate (length clock) 0) /\
    in_service l' /\
    tokens l' = tokens l - Z.of_nat (length clock) /\
    lastRefill l' = lastRefill l /\ interval l' = interval l /\
    requestsPerMinute l' = requestsPerMinute l.
Proof.
  revert l. induction clock as [|[[now1 now2] now3] clock IH]; intros l Hl Hclock Hlen.
  - exists l. simpl. split; [reflexivity|]. split; [assumption|].
    repeat split; lia.
  - apply Forall_cons in Hclock as [Hnow Hclock]. simpl in Hnow, Hlen.
    destruct (Wait_with_token now1 now2 now3 l Hl ltac:(lia) ltac:(lia))
      as (l1 & HW & Hl1 & Hc1 & Hi1 & _ & Hsame).
    destruct Hsame as [Ht1 Hr1]; [lia|].
    destruct (IH l1 Hl1) as (l' & Hrest & Hl' & Ht' & Hr' & Hi' & Hc');
      [now rewrite Hr1, Hi1 | lia |].
    exists l'. simpl. rewrite HW, Hrest.
    split; [reflexivity|]. split; [assumption|].
    repeat split; try congruence. lia.
Qed.

Lemma NewLimiter_in_service (config : Config) (t0 : Z) :
  Enabled config = true ->
  1 <= RequestsPerMinute config <= GoTime.Minute ->
  0 <= t0 <= horizon ->
  in_service (NewLimiter config t0) /\
  interval (NewLimiter config t0) = Z.quot GoTime.Minute (RequestsPerMinute config) /\
  requestsPerMinute (NewLimiter config t0) = RequestsPerMinute config /\
  tokens (NewLimiter config t0) = RequestsPerMinute config /\
  lastRefill (NewLimiter config t0) = t0.
Proof.
  intros Hen Hrpm Ht0. unfold NewLimiter, in_service, tokens_ok, horizon in *. simpl.
  destruct (Z.leb_spec (RequestsPerMinute config) 0); [lia|].
  unfold GoTime.Minute, GoTime.Second in *.
  rewrite quot_pos_divisor by (try int_range; lia).
  assert (0 < Z.quot (60 * 1000000000) (RequestsPerMinute config)).
  { apply Z.quot_str_pos. lia. }
  assert (Z.quot (60 * 1000000000) (RequestsPerMinute config) <= 60 * 1000000000).
  { apply Z.quot_le_upper_bound; nia. }
  repeat split; try assumption; lia.
Qed.

(** Burst, then throttle.  A new limiter of capacity [C] is called [C + 1]
    times within the first refill interval [I = time.Minute / C] after its
    creation at [t0]: the first [C] calls do not sleep, and the call after
    them sleeps for what is left of the interval at its second reading of
    the clock, [I - (now2 - t0)], a positive time of at most [I]. *)
Theorem burst_then_wait (config : Config) (t0 now1 now2 now3 : Z)
  (clock : list (Z * Z * Z)) :
  Enabled config = true ->
  1 <= RequestsPerMinute config <= GoTime.Minute ->
  let I := Z.quot GoTime.Minute (RequestsPerMinute config) in
  0 <= t0 -> t0 + I <= horizon ->
  Z.of_nat (length clock) = RequestsPerMinute config ->
  read_within t0 (t0 + I - 1) clock ->
  t0 <= now1 < t0 + I -> t0 <= now2 < t0 + I ->
  exists l',
    Waits (clock ++ [(now1, now2, now3)]) (NewLimiter config t0) =
      Some (l', replicate (length clock) 0 ++ [I - (now2 - t0)]) /\
    0 < I - (now2 - t0) <= I /\
    tokens l' = 0 /\ lastRefill l' = now3.
Proof.
  intros Hen Hrpm I Ht0 Hhor Hlen Hclock Hnow1 Hnow2.
  assert (HI : 0 < I).
  { apply Z.quot_str_pos. lia. }
  destruct (NewLimiter_in_service config t0 Hen Hrpm ltac:(lia))
    as (Hl & Hi & Hc & Ht & Hr).
  fold I in Hi.
  destruct (Waits_without_refill clock (NewLimiter config t0) Hl)
    as (l1 & Hburst & Hl1 & Ht1 & Hr1 & Hi1 & Hc1).
  { rewrite Hr, Hi. unfold read_within in *.
    eapply Forall_impl; [exact Hclock|]. simpl. intros t Hbetween. lia. }
  { rewrite Ht. lia. }
  assert (HW := Wait_on_empty_bucket now1 now2 now3 l1 Hl1).
  rewrite Ht1, Ht, Hr1, Hi1, Hr, Hi in HW.
  specialize (HW ltac:(lia) ltac:(lia) ltac:(lia) ltac:(lia)).
  rewrite (proj2 (Z.gtb_lt _ _)) in HW by lia.
  eexists. rewrite Waits_app, Hburst. simpl. rewrite HW.
  split; [reflexivity|]. split; [lia|]. simpl. auto.
Qed.

End RatelimitRunFacts.

Lemma refill_carries_remainder_witness :
  let l := Ratelimit.mkLimiter true 2 30000000000 0 0 in
  exists l1,
    Ratelimit.refill 95000000000 l = Some l1 /\
    Ratelimit.lastRefill l1 = 90000000000 /\ Ratelimit.tokens l1 = 2.
Proof.
  intros l.
  destruct (refill_carries_remainder 95000000000 l) as (l1 & Hr & _ & _ & Hmove & Htok).
  - unfold RatelimitRuns.in_service, RatelimitRuns.horizon, Ratelimit.tokens_ok.
    simpl. repeat split; lia || discriminate.
  - unfold RatelimitRuns.horizon. simpl. lia.
  - exists l1. split; [exact Hr|]. split.
    + change (Ratelimit.lastRefill l1 - 0 = 90000000000) in Hmove. lia.
    + rewrite Htok. reflexivity.
Defined.

Lemma tokens_serve_calls_witness :
  exists l',
    RatelimitRuns.Waits [(5, 5, 5); (900, 901, 902)]
      (Ratelimit.NewLimiter (Ratelimit.mkConfig true 2) 0) = Some (l', [0; 0]).
Proof.
  destruct (tokens_serve_calls [(5, 5, 5); (900, 901, 902)]
              (Ratelimit.NewLimiter (Ratelimit.mkConfig true 2) 0))
    as (l' & Hrun & _).
  - unfold RatelimitRuns.in_service, RatelimitRuns.horizon, Ratelimit.tokens_ok.
    simpl. repeat split; lia || discriminate.
  - unfold RatelimitRuns.read_within, RatelimitRuns.horizon.
    repeat constructor; simpl; lia.
  - simpl. lia.
  - exists l'. exact Hrun.
Defined.

Lemma empty_bucket_sleeps_witness :
  let l := Ratelimit.mkLimiter true 2 30000000000 0 1000 in
  exists l',
    Ratelimit.Wait 2000 3000 30000001000 l = Some (l', 29999998000) /\
    Ratelimit.tokens l' = 0 /\ Ratelimit.lastRefill l' = 30000001000.
Proof.
  intros l.
  destruct (empty_bucket_sleeps 2000 3000 30000001000 l)
    as (l' & HW & _ & Ht & Hr & _).
  - unfold RatelimitRuns.in_service, RatelimitRuns.horizon, Ratelimit.tokens_ok.
    simpl. repeat split; lia || discriminate.
  - reflexivity.
  - unfold RatelimitRuns.horizon. lia.
  - simpl. lia.
  - unfold RatelimitRuns.horizon. simpl. lia.
  - exists l'. split; [exact HW|]. auto.
Defined.

Lemma burst_then_wait_witness :
  exists l',
    RatelimitRuns.Waits [(5, 5, 5); (900, 901, 902); (1000, 1001, 30000000000)]
      (Ratelimit.NewLimiter (Ratelimit.mkConfig true 2) 0) =
      Some (l', [0; 0; 29999998999]) /\
    Ratelimit.tokens l' = 0.
Proof.
  destruct (burst_then_wait (Ratelimit.mkConfig true 2) 0 1000 1001 30000000000
              [(5, 5, 5); (900, 901, 902)])
    as (l' & Hrun & _ & Ht & _).
  - reflexivity.
  - unfold GoTime.Minute, GoTime.Second. simpl. lia.
  - lia.
  - vm_compute. discriminate.
  - reflexivity.
  - unfold RatelimitRuns.read_within. repeat constructor; simpl; vm_compute; discriminate.
  - vm_compute. split; [discriminate|reflexivity].
  - vm_compute. split; [discriminate|reflexivity].
  - exists l'. split; [exact Hrun|exact Ht].
Defined.


(** ** More on the proxy pool *)

Section ProxyPoolEditFacts.
Import ProxyPool.

Lemma same_endpoint_false (ip port : string) (proxy : ProxyInfo) :
  same_endpoint ip port proxy = false <-> endpoint proxy <> (ip, port).
Proof.
  rewrite <- same_endpoint_spec. destruct (same_endpoint ip port proxy); split;
    congruence.
Qed.

Lemma set_proxies_same (p : ProxyPool) : set_proxies (proxies p) p = p.
Proof. now destruct p. Qed.

Lemma RemoveProxy_scan_absent (ip port : string) (ps : list ProxyInfo) :
  (forall e, e ∈ ps -> endpoint e <> (ip, port)) ->
  RemoveProxy_scan ip port ps = ps.
Proof.
  induction ps as [|e ps IH]; intros Habs; simpl; [reflexivity|].
  rewrite (proj2 (same_endpoint_false ip port e))
    by (apply Habs, list_elem_of_here).
  f_equal. apply IH. intros x Hx. apply Habs. now apply list_elem_of_further.
Qed.

Lemma filter_keeps_all {A} (P : A -> Prop) `{forall x, Decision (P x)} (l : list A) :
  Forall P l -> filter P l = l.
Proof.
  induction 1 as [|x l Hx _ IH]; [reflexivity|].
  rewrite filter_cons_True by assumption. now f_equal.
Qed.

Lemma RemoveProxy_scan_filter (ip port : string) (ps : list ProxyInfo) :
  NoDup (endpoint <$> ps) ->
  RemoveProxy_scan ip port ps = filter (fun e => endpoint e <> (ip, port)) ps.
Proof.
  induction ps as [|e ps IH]; simpl; [reflexivity|].
  rewrite NoDup_cons. intros [Hnotin Hnd].
  destruct (same_endpoint ip port e) eqn:He.
  - apply same_endpoint_spec in He.
    rewrite filter_cons_False by (intros Hne; now apply Hne).
    symmetry. apply filter_keeps_all. apply Forall_forall. intros x Hx Heq.
    apply Hnotin. rewrite He, <- Heq. now apply list_elem_of_fmap_2.
  - apply same_endpoint_false in He.
    rewrite filter_cons_True by assumption. f_equal. now apply IH.
Qed.

Lemma RemoveProxy_scan_length (ip port : string) (ps : list ProxyInfo) :
  (length ps <= S (length (RemoveProxy_scan ip port ps)))%nat /\
  (length (RemoveProxy_scan ip port ps) <= length ps)%nat.
Proof.
  induction ps as [|e ps IH]; simpl; [lia|].
  destruct (same_endpoint ip port e); simpl; lia.
Qed.

(** [RemoveProxy] takes out at most one entry and touches nothing else in
    the pool.  With no entry for the endpoint the pool stays as it is.  In
    a pool without duplicates the entry for the endpoint goes, so that the
    endpoint is no longer in the pool, and all other entries stay, in their
    order. *)
Theorem RemoveProxy_removes (ip port : string) (p : ProxyPool) :
  (length (proxies p) <= S (length (proxies (RemoveProxy ip port p))))%nat /\
  (length (proxies (RemoveProxy ip port p)) <= length (proxies p))%nat /\
  proxyFile (RemoveProxy ip port p) = proxyFile p /\
  testURL (RemoveProxy ip port p) = testURL p /\
  maxFailures (RemoveProxy ip port p) = maxFailures p /\
  ((ip, port) ∉ endpoint <$> proxies p -> RemoveProxy ip port p = p) /\
  (NoDup (endpoint <$> proxies p) ->
     proxies (RemoveProxy ip port p) =
       filter (fun e => endpoint e <> (ip, port)) (proxies p) /\
     (ip, port) ∉ endpoint <$> proxies (RemoveProxy ip port p)).
Proof.
  destruct (RemoveProxy_scan_length ip port (proxies p)) as [Hlo Hhi].
  unfold RemoveProxy; simpl. repeat split; try assumption.
  - intros Habs. rewrite RemoveProxy_scan_absent; [apply set_proxies_same|].
    intros e He Heq. apply Habs. rewrite <- Heq. now apply list_elem_of_fmap_2.
  - now apply RemoveProxy_scan_filter.
  - rewrite RemoveProxy_scan_filter by assumption.
    intros Hin. apply list_elem_of_fmap in Hin as (e & Heq & He).
    apply list_elem_of_filter in He as [Hne _]. now apply Hne.
Qed.

Lemma RemoveProxy_scan_last (proxy : ProxyInfo) (ps : list ProxyInfo) :
  (forall e, e ∈ ps -> endpoint e <> endpoint proxy) ->
  RemoveProxy_scan (IP proxy) (Port proxy) (ps ++ [proxy]) = ps.
Proof.
  induction ps as [|e ps IH]; intros Habs; simpl.
  - now rewrite (proj2 (same_endpoint_spec (IP proxy) (Port proxy) proxy)).
  - rewrite (proj2 (same_endpoint_false (IP proxy) (Port proxy) e))
      by (apply Habs, list_elem_of_here).
    f_equal. apply IH. intros x Hx. apply Habs. now apply list_elem_of_further.
Qed.

(** Adding a proxy whose endpoint is new to the pool and removing that
    endpoint again gives back the pool. *)
Theorem AddProxy_RemoveProxy (proxy : ProxyInfo) (p : ProxyPool) :
  endpoint proxy ∉ endpoint <$> proxies p ->
  proxies (AddProxy proxy p) = proxies p ++ [proxy] /\
  RemoveProxy (IP proxy) (Port proxy) (AddProxy proxy p) = p.
Proof.
  intros Hnew.
  assert (Habs : forall e, e ∈ proxies p -> endpoint e <> endpoint proxy).
  { intros e He Heq. apply Hnew. rewrite <- Heq. now apply list_elem_of_fmap_2. }
  unfold AddProxy. rewrite (proj2 (AddProxy_scan_None proxy (proxies p)) Habs).
  split; [reflexivity|].
  unfold RemoveProxy; simpl. rewrite RemoveProxy_scan_last by assumption.
  now destruct p.
Qed.

Lemma refresh_self (proxy : ProxyInfo) : refresh proxy proxy = proxy.
Proof. now destruct proxy. Qed.

Lemma AddProxy_scan_again (proxy : ProxyInfo) (ps ps' : list ProxyInfo) :
  AddProxy_scan proxy ps = Some ps' -> AddProxy_scan proxy ps' = Some ps'.
Proof.
  revert ps'. induction ps as [|e ps IH]; intros ps'; simpl; [discriminate|].
  destruct (same_endpoint (IP proxy) (Port proxy) e) eqn:He.
  - intros [= <-]. simpl.
    change (same_endpoint (IP proxy) (Port proxy) (refresh proxy e))
      with (same_endpoint (IP proxy) (Port proxy) e).
    now rewrite He.
  - destruct (AddProxy_scan proxy ps) as [qs|]; [|discriminate].
    intros [= <-]. simpl. rewrite He, (IH qs eq_refl). reflexivity.
Qed.

Lemma AddProxy_scan_appended (proxy : ProxyInfo) (ps : list ProxyInfo) :
  AddProxy_scan proxy ps = None ->
  AddProxy_scan proxy (ps ++ [proxy]) = Some (ps ++ [proxy]).
Proof.
  induction ps as [|e ps IH]; simpl.
  - intros _. rewrite (proj2 (same_endpoint_spec (IP proxy) (Port proxy) proxy))
      by reflexivity.
    now rewrite refresh_self.
  - destruct (same_endpoint (IP proxy) (Port proxy) e); [discriminate|].
    destruct (AddProxy_scan proxy ps); [discriminate|].
    intros _. now rewrite IH.
Qed.

(** Adding the same record twice is adding it once. *)
Theorem AddProxy_twice (proxy : ProxyInfo) (p : ProxyPool) :
  AddProxy proxy (AddProxy proxy p) = AddProxy proxy p.
Proof.
  unfold AddProxy at 2 3.
  destruct (AddProxy_scan proxy (proxies p)) as [ps|] eqn:Hscan;
    unfold AddProxy; simpl.
  - now rewrite (AddProxy_scan_again _ _ _ Hscan).
  - now rewrite (AddProxy_scan_appended _ _ Hscan).
Qed.

End ProxyPoolEditFacts.

Lemma RemoveProxy_removes_witness :
  ProxyPool.proxies (ProxyPool.RemoveProxy "10.0.0.1" "8080" Fixtures.two_proxies)
    = [Fixtures.proxy_b] /\
  ProxyPool.RemoveProxy "10.0.0.9" "8080" Fixtures.two_proxies = Fixtures.two_proxies.
Proof.
  destruct (RemoveProxy_removes "10.0.0.1" "8080" Fixtures.two_proxies)
    as (_ & _ & _ & _ & _ & _ & Hgone).
  destruct (RemoveProxy_removes "10.0.0.9" "8080" Fixtures.two_proxies)
    as (_ & _ & _ & _ & _ & Hstay & _).
  split.
  - destruct Hgone as [Heq _].
    + apply NoDup_cons. split; [|apply NoDup_singleton].
      rewrite list_elem_of_singleton. discriminate.
    + rewrite Heq. reflexivity.
  - apply Hstay. simpl. rewrite !elem_of_cons, elem_of_nil.
    intros [H|[H|[]]]; discriminate.
Defined.

Lemma AddProxy_RemoveProxy_witness :
  let fresh := ProxyPool.mkProxyInfo "10.0.0.3" "1080" "socks5" "" "" 0 0 true in
  ProxyPool.RemoveProxy "10.0.0.3" "1080" (ProxyPool.AddProxy fresh Fixtures.two_proxies)
    = Fixtures.two_proxies.
Proof.
  intros fresh.
  apply (AddProxy_RemoveProxy fresh Fixtures.two_proxies).
  simpl. rewrite !elem_of_cons, elem_of_nil.
  intros [H|[H|[]]]; discriminate.
Defined.


(** ** The pool in use: selection, import, validation *)

Section ProxyPoolUseFacts.
Import ProxyPool ProxyPoolMore.

Variable parses : string -> bool.
Variable zeroTime : Z.

Lemma validProxies_length (limit : Z) (k : nat) (ps : list ProxyInfo) :
  length (validProxies limit k ps) =
  length (filter (fun proxy => usable limit proxy = true) ps).
Proof.
  revert k. induction ps as [|e ps IH]; intros k; simpl; [reflexivity|].
  destruct (usable limit e) eqn:Hu.
  - rewrite filter_cons_True by assumption. simpl. now rewrite IH.
  - rewrite filter_cons_False by congruence. apply IH.
Qed.

Lemma filter_length_insert (limit : Z) (ps : list ProxyInfo) (i : nat)
  (x y : ProxyInfo) :
  ps !! i = Some x ->
  usable limit y = usable limit x ->
  length (filter (fun proxy => usable limit proxy = true) (<[i := y]> ps)) =
  length (filter (fun proxy => usable limit proxy = true) ps).
Proof.
  revert i. induction ps as [|e ps IH]; intros i Hi Hu; [discriminate|].
  destruct i as [|i]; simpl in *.
  - injection Hi as ->.
    destruct (usable limit x) eqn:Hx.
    + rewrite !filter_cons_True by congruence. reflexivity.
    + rewrite !filter_cons_False by congruence. reflexivity.
  - destruct (usable limit e) eqn:He.
    + rewrite !filter_cons_True by assumption. simpl. now rewrite IH.
    + rewrite !filter_cons_False by congruence. now apply IH.
Qed.

Lemma endpoints_insert_touch (now : Z) (ps : list ProxyInfo) (i : nat)
  (x : ProxyInfo) :
  ps !! i = Some x ->
  endpoint <$> <[i := touch now x]> ps = endpoint <$> ps.
Proof.
  revert i. induction ps as [|e ps IH]; intros i Hi; [discriminate|].
  destruct i as [|i]; simpl in *.
  - now injection Hi as ->.
  - f_equal. now apply IH.
Qed.

(** [GetProxy] and [GetProxyCount] agree on which records are usable:
    [GetProxy] returns nil exactly when the valid count is zero.  A
    [GetProxy] writes [LastUsed] only, so the endpoints of the pool and
    both counts are afterwards what they were; the valid count never
    exceeds the total. *)
Theorem GetProxy_keeps_counts (rnd : nat) (now : Z) (p : ProxyPool) :
  (fst (GetProxy rnd now p) = None <-> snd (GetProxyCount p) = 0%nat) /\
  GetProxyCount (snd (GetProxy rnd now p)) = GetProxyCount p /\
  endpoint <$> proxies (snd (GetProxy rnd now p)) = endpoint <$> proxies p /\
  (snd (GetProxyCount p) <= fst (GetProxyCount p))%nat.
Proof.
  pose proof (validProxies_length (maxFailures p) 0 (proxies p)) as Hlen.
  destruct (validProxies (maxFailures p) 0 (proxies p)) as [|v vs] eqn:Hvalid.
  - assert (Hget : GetProxy rnd now p = (None, p))
      by (unfold GetProxy; rewrite Hvalid; reflexivity).
    rewrite Hget. unfold GetProxyCount; simpl. rewrite <- Hlen. simpl.
    repeat split; reflexivity || lia.
  - destruct (GetProxy_selects rnd now p) as (i & x & Hi & Hu & Hget).
    { rewrite Hvalid. discriminate. }
    rewrite Hget. unfold GetProxyCount; simpl.
    rewrite length_insert, (filter_length_insert _ _ _ x) by (assumption || reflexivity).
    rewrite endpoints_insert_touch by assumption.
    pose proof (length_filter (fun proxy => usable (maxFailures p) proxy = true)
                  (proxies p)) as Hle.
    simpl in Hlen.
    split; [split; [discriminate|intros H0; rewrite H0 in Hlen; discriminate]|].
    split; [reflexivity|]. split; [reflexivity|exact Hle].
Qed.

(** *** Import *)

Lemma AddProxy_endpoints (proxy : ProxyInfo) (p : ProxyPool) :
  exists added,
    endpoint <$> proxies (AddProxy proxy p) = (endpoint <$> proxies p) ++ added.
Proof.
  unfold AddProxy.
  destruct (AddProxy_scan proxy (proxies p)) as [ps|] eqn:Hscan; simpl.
  - apply AddProxy_scan_Some in Hscan as (i & x & Hi & _ & ->).
    exists []. rewrite endpoints_insert_refresh by assumption.
    now rewrite app_nil_r.
  - exists [endpoint proxy]. now rewrite fmap_app.
Qed.

Lemma AddProxy_keeps (proxy : ProxyInfo) (p : ProxyPool) (i : nat) (e : ProxyInfo) :
  proxies p !! i = Some e ->
  exists e', proxies (AddProxy proxy p) !! i = Some e' /\ kept e e' /\
             (IsValid proxy = true -> IsValid e = true -> IsValid e' = true).
Proof.
  intros Hi. unfold AddProxy.
  destruct (AddProxy_scan proxy (proxies p)) as [ps|] eqn:Hscan; simpl.
  - apply AddProxy_scan_Some in Hscan as (j & x & Hj & _ & ->).
    destruct (decide (i = j)) as [->|Hne].
    + exists (refresh proxy x).
      rewrite list_lookup_insert_eq by (eapply lookup_lt_Some; eauto).
      assert (x = e) as -> by congruence.
      repeat split. simpl. auto.
    + exists e. rewrite list_lookup_insert_ne by congruence.
      repeat split; auto.
  - exists e. rewrite lookup_app_l by (eapply lookup_lt_Some; eauto).
    repeat split; auto.
Qed.

Lemma AddProxy_present (proxy : ProxyInfo) (p : ProxyPool) :
  exists i e, proxies (AddProxy proxy p) !! i = Some e /\
              endpoint e = endpoint proxy /\ IsValid e = IsValid proxy.
Proof.
  unfold AddProxy.
  destruct (AddProxy_scan proxy (proxies p)) as [ps|] eqn:Hscan; simpl.
  - apply AddProxy_scan_Some in Hscan as (j & x & Hj & Hx & ->).
    exists j, (refresh proxy x).
    rewrite list_lookup_insert_eq by (eapply lookup_lt_Some; eauto).
    repeat split. exact Hx.
  - exists (length (proxies p)), proxy.
    rewrite lookup_app_r, Nat.sub_diag by lia. repeat split.
Qed.

Lemma ImportProxies_keeps (apiProxies : list apiProxy) (p : ProxyPool)
  (i : nat) (e : ProxyInfo) :
  proxies p !! i = Some e ->
  exists e', proxies (ImportProxies zeroTime apiProxies p) !! i = Some e' /\
             kept e e' /\ (IsValid e = true -> IsValid e' = true).
Proof.
  revert p e. induction apiProxies as [|a rest IH]; intros p e Hi; simpl.
  - exists e. repeat split; auto.
  - destruct (AddProxy_keeps (imported zeroTime a) p i e Hi)
      as (e1 & H1 & (Hep1 & Hf1 & Hl1) & Hv1).
    destruct (IH _ _ H1) as (e2 & H2 & (Hep2 & Hf2 & Hl2) & Hv2).
    exists e2. split; [exact H2|]. unfold kept. repeat split; try congruence.
    intros Hv. apply Hv2, Hv1; [reflexivity|exact Hv].
Qed.

Lemma ImportProxies_endpoints (apiProxies : list apiProxy) (p : ProxyPool) :
  exists added,
    endpoint <$> proxies (ImportProxies zeroTime apiProxies p) =
    (endpoint <$> proxies p) ++ added.
Proof.
  revert p. induction apiProxies as [|a rest IH]; intros p; simpl.
  - exists []. now rewrite app_nil_r.
  - destruct (IH (AddProxy (imported zeroTime a) p)) as [added2 H2].
    destruct (AddProxy_endpoints (imported zeroTime a) p) as [added1 H1].
    exists (added1 ++ added2).
    change (ImportProxies zeroTime (a :: rest) p)
      with (ImportProxies zeroTime rest (AddProxy (imported zeroTime a) p)).
    rewrite H2, H1. now rewrite app_assoc.
Qed.

Lemma ImportProxies_NoDup (apiProxies : list apiProxy) (p : ProxyPool) :
  NoDup (endpoint <$> proxies p) ->
  NoDup (endpoint <$> proxies (ImportProxies zeroTime apiProxies p)).
Proof.
  revert p. induction apiProxies as [|a rest IH]; intros p Hnd; simpl;
    [assumption|].
  apply IH. now apply AddProxy_NoDup.
Qed.

(** After an import the pool has, for every record of the response, an
    entry with its (IP, Port) and [IsValid] set.  The entries the pool had
    are still there, at their positions, with their endpoint, [FailCount]
    and [LastUsed]; new entries come after them.  An import into a pool
    without duplicate endpoints creates none, whatever the response
    repeats. *)
Theorem ImportProxies_merges (apiProxies : list apiProxy) (p : ProxyPool) :
  let p' := ImportProxies zeroTime apiProxies p in
  (forall a, a ∈ apiProxies ->
     exists e, e ∈ proxies p' /\ endpoint e = (apiIP a, apiPort a) /\
               IsValid e = true) /\
  (forall i e, proxies p !! i = Some e ->
     exists e', proxies p' !! i = Some e' /\ endpoint e' = endpoint e /\
                FailCount e' = FailCount e /\ LastUsed e' = LastUsed e) /\
  (exists added, endpoint <$> proxies p' = (endpoint <$> proxies p) ++ added) /\
  (NoDup (endpoint <$> proxies p) -> NoDup (endpoint <$> proxies p')).
Proof.
  intros p'. subst p'. split; [|split; [|split]].
  - revert p. induction apiProxies as [|a0 rest IH]; intros p a Ha.
    + now apply elem_of_nil in Ha.
    + apply elem_of_cons in Ha as [->|Ha]; simpl.
      * destruct (AddProxy_present (imported zeroTime a0) p) as (i & e & Hi & Hep & Hv).
        destruct (ImportProxies_keeps rest _ i e Hi) as (e' & Hi' & (Hep' & _) & Hv').
        exists e'. split; [apply list_elem_of_lookup; eauto|].
        split; [now rewrite Hep', Hep|]. apply Hv'. now rewrite Hv.
      * now apply IH.
  - intros i e Hi.
    destruct (ImportProxies_keeps apiProxies p i e Hi) as (e' & Hi' & (H1 & H2 & H3) & _).
    eauto.
  - apply ImportProxies_endpoints.
  - apply ImportProxies_NoDup.
Qed.

(** *** Validation *)

Lemma GetProxy_nil (rnd : nat) (now : Z) (p : ProxyPool) :
  (forall proxy, proxy ∈ proxies p -> usable (maxFailures p) proxy = false) ->
  fst (GetProxy rnd now p) = None.
Proof.
  intros Hall. apply validProxies_nil with (k := 0%nat) in Hall.
  unfold GetProxy. now rewrite Hall.
Qed.

Lemma ValidateProxy_endpoint (r : probe) (proxy : ProxyInfo) :
  endpoint (fst (ValidateProxy parses r proxy)) = endpoint proxy.
Proof.
  unfold ValidateProxy. destruct (parses (ProxyString proxy)); simpl;
    [|reflexivity].
  destruct r as [|code]; [reflexivity|].
  destruct (code =? StatusOK); reflexivity.
Qed.

Lemma ValidateProxy_usable (limit : Z) (r : probe) (proxy : ProxyInfo) :
  parses (ProxyString proxy) = true ->
  (usable limit (fst (ValidateProxy parses r proxy)) = true <->
   r = Status StatusOK /\ 0 < limit).
Proof.
  intros Hp. unfold ValidateProxy. rewrite Hp; simpl.
  destruct r as [|code]; simpl.
  - split; [discriminate|]. intros [? _]; discriminate.
  - destruct (code =? StatusOK) eqn:Hc; simpl.
    + apply Z.eqb_eq in Hc as ->. unfold usable; simpl.
      rewrite Z.ltb_lt. tauto.
    + apply Z.eqb_neq in Hc. split; [discriminate|].
      intros [[= ?] _]. contradiction.
Qed.

(** The result of [ValidateProxy] says whether the record is marked valid
    afterwards, unless the proxy string does not parse: then the record is
    not touched at all, whatever it said before. *)
Lemma ValidateProxy_result (r : probe) (proxy : ProxyInfo) :
  (parses (ProxyString proxy) = true ->
   IsValid (fst (ValidateProxy parses r proxy)) = snd (ValidateProxy parses r proxy)) /\
  (parses (ProxyString proxy) = false ->
   ValidateProxy parses r proxy = (proxy, false)).
Proof.
  unfold ValidateProxy. destruct (parses (ProxyString proxy)); simpl.
  - split; [intros _|discriminate].
    destruct r as [|code]; [reflexivity|].
    destruct (code =? StatusOK); reflexivity.
  - split; [discriminate|reflexivity].
Qed.

(** [ValidateAllProxies] keeps the entries of the pool in their places and
    with their endpoints.  An entry whose proxy string parses is usable
    afterwards exactly when its request came back with status 200 and
    [maxFailures] is positive; one whose proxy string does not parse is
    left as it was.  So when every proxy string parses and no request
    succeeds, the next [GetProxy] returns nil. *)
Theorem ValidateAllProxies_outcome (probes : nat -> probe) (p : ProxyPool) :
  let p' := ValidateAllProxies parses probes p in
  endpoint <$> proxies p' = endpoint <$> proxies p /\
  (forall n proxy, proxies p !! n = Some proxy ->
     exists proxy', proxies p' !! n = Some proxy' /\
       (parses (ProxyString proxy) = false -> proxy' = proxy) /\
       (parses (ProxyString proxy) = true ->
          (usable (maxFailures p) proxy' = true <->
           probes n = Status StatusOK /\ 0 < maxFailures p))) /\
  ((forall n proxy, proxies p !! n = Some proxy ->
      parses (ProxyString proxy) = true /\ probes n <> Status StatusOK) ->
   forall rnd now, fst (GetProxy rnd now p') = None).
Proof.
  intros p'.
  assert (Hat : forall n proxy, proxies p !! n = Some proxy ->
            proxies p' !! n = Some (fst (ValidateProxy parses (probes n) proxy))).
  { intros n proxy Hn. subst p'. unfold ValidateAllProxies; simpl.
    rewrite list_lookup_imap, Hn. reflexivity. }
  split; [|split].
  - subst p'. unfold ValidateAllProxies; simpl.
    apply list_eq. intros n. rewrite !list_lookup_fmap, list_lookup_imap.
    destruct (proxies p !! n) as [proxy|]; simpl; [|reflexivity].
    now rewrite ValidateProxy_endpoint.
  - intros n proxy Hn. eexists. split; [apply (Hat _ _ Hn)|]. split.
    + intros Hp. now rewrite (proj2 (ValidateProxy_result _ _) Hp).
    + intros Hp. now apply ValidateProxy_usable.
  - intros Hall rnd now.
    apply GetProxy_nil.
    intros q Hq. destruct (usable (maxFailures p') q) eqn:Hu; [exfalso|reflexivity].
    apply list_elem_of_lookup in Hq as [n Hn].
    assert (Hlt : (n < length (proxies p))%nat).
    { apply lookup_lt_Some in Hn. subst p'.
      unfold ValidateAllProxies in Hn; simpl in Hn.
      now rewrite length_imap in Hn. }
    destruct (lookup_lt_is_Some_2 _ _ Hlt) as [proxy Hproxy].
    rewrite (Hat _ _ Hproxy) in Hn. injection Hn as <-.
    destruct (Hall _ _ Hproxy) as [Hp Hr].
    apply Hr. apply (ValidateProxy_usable (maxFailures p) _ proxy Hp).
    exact Hu.
Qed.

End ProxyPoolUseFacts.

Lemma GetProxy_keeps_counts_witness :
  ProxyPool.GetProxyCount (snd (ProxyPool.GetProxy 7 500 Fixtures.two_proxies))
    = (2%nat, 1%nat) /\
  fst (ProxyPool.GetProxy 7 500 Fixtures.two_proxies) <> None.
Proof.
  destruct (GetProxy_keeps_counts 7 500 Fixtures.two_proxies)
    as (Hnil & Hcount & _ & _).
  split.
  - rewrite Hcount. reflexivity.
  - intros Hnone. apply Hnil in Hnone. discriminate Hnone.
Defined.

Lemma ImportProxies_merges_witness :
  let p' := ProxyPoolMore.ImportProxies 0 MoreFixtures.from_api Fixtures.two_proxies in
  length (ProxyPool.proxies p') = 3%nat /\
  (exists e', ProxyPool.proxies p' !! 1%nat = Some e' /\
              ProxyPool.FailCount e' = 3 /\ ProxyPool.LastUsed e' = 200) /\
  NoDup (ProxyPool.endpoint <$> ProxyPool.proxies p').
Proof.
  intros p'.
  destruct (ImportProxies_merges 0 MoreFixtures.from_api Fixtures.two_proxies)
    as (_ & Hkeep & _ & Hnd).
  split; [reflexivity|]. split.
  - destruct (Hkeep 1%nat Fixtures.proxy_b eq_refl) as (e' & He' & _ & Hf & Hl).
    exists e'. auto.
  - apply Hnd. apply NoDup_cons. split; [|apply NoDup_singleton].
    rewrite list_elem_of_singleton. discriminate.
Defined.

Lemma ValidateAllProxies_outcome_witness :
  let p' := ProxyPoolMore.ValidateAllProxies MoreFixtures.any_url
              MoreFixtures.first_passes Fixtures.two_proxies in
  ProxyPool.GetProxyCount p' = (2%nat, 1%nat) /\
  (exists a', ProxyPool.proxies p' !! 0%nat = Some a' /\
              ProxyPool.usable 3 a' = true) /\
  fst (ProxyPool.GetProxy 7 500
         (ProxyPoolMore.ValidateAllProxies MoreFixtures.any_url
            (fun _ => ProxyPoolMore.GetError) Fixtures.two_proxies)) = None.
Proof.
  intros p'.
  destruct (ValidateAllProxies_outcome MoreFixtures.any_url
              MoreFixtures.first_passes Fixtures.two_proxies)
    as (_ & Hat & _).
  destruct (ValidateAllProxies_outcome MoreFixtures.any_url
              (fun _ => ProxyPoolMore.GetError) Fixtures.two_proxies)
    as (_ & _ & Hnone).
  split; [reflexivity|]. split.
  - destruct (Hat 0%nat Fixtures.proxy_a eq_refl) as (a' & Ha' & _ & Hu).
    exists a'. split; [exact Ha'|]. apply (Hu eq_refl). split; [reflexivity|].
    simpl. lia.
  - apply Hnone. intros n proxy _. split; [reflexivity|discriminate].
Defined.


(** ** The proxy file *)

Section ProxyFileFacts.
Import ProxyPool ProxyPoolMore.

Variable marshal : list ProxyInfo -> option string.
Variable unmarshal : string -> list ProxyInfo -> list ProxyInfo * bool.

Lemma SaveProxies_held (g : guarded) (fs : gmap string string) :
  writing g = true -> SaveProxies marshal g fs = Blocked g fs.
Proof. intros Hw. unfold SaveProxies. now rewrite Hw. Qed.

Lemma SaveProxies_free (g : guarded) (fs : gmap string string) :
  writing g = false ->
  exists e fs', SaveProxies marshal g fs = Returned e g fs' /\
    match marshal (proxies (pool g)) with
    | Some data => e = false /\ fs' = <[proxyFile (pool g) := data]> fs
    | None => e = true /\ fs' = fs
    end.
Proof.
  intros Hw. unfold SaveProxies. rewrite Hw. destruct g as [p w r]; simpl in *.
  subst w. destruct (marshal (proxies p)) as [data|]; eauto.
Qed.

(** [SaveProxies] waits exactly while the lock is held for writing, and
    [LoadProxies] exactly while the lock is held at all, or, with the lock
    free, when there is no proxy file: it then calls [SaveProxies] to
    create one while holding the lock for writing itself.  A call that
    returns leaves the lock as it found it. *)
Theorem LoadProxies_blocks_iff (g : guarded) (fs : gmap string string) :
  ((exists g' fs', SaveProxies marshal g fs = Blocked g' fs') <->
   writing g = true) /\
  ((exists g' fs', LoadProxies marshal unmarshal g fs = Blocked g' fs') <->
   writing g = true \/ (0 < reading g)%nat \/ fs !! proxyFile (pool g) = None) /\
  (forall e g' fs', SaveProxies marshal g fs = Returned e g' fs' -> g' = g) /\
  (forall e g' fs', LoadProxies marshal unmarshal g fs = Returned e g' fs' ->
     writing g' = writing g /\ reading g' = reading g /\ fs' = fs /\
     proxyFile (pool g') = proxyFile (pool g)).
Proof.
  split; [|split; [|split]].
  - destruct (writing g) eqn:Hw.
    + rewrite (SaveProxies_held _ _ Hw). split; eauto.
    + destruct (SaveProxies_free g fs Hw) as (e & fs' & -> & _).
      split; [intros (? & ? & [=])|discriminate].
  - unfold LoadProxies.
    destruct (writing g) eqn:Hw; simpl; [split; eauto|].
    destruct (0 <? reading g)%nat eqn:Hr; simpl.
    + apply Nat.ltb_lt in Hr. split; eauto.
    + apply Nat.ltb_ge in Hr.
      destruct (fs !! proxyFile (pool g)) as [data|] eqn:Hfile.
      * destruct (0 <? String.length data)%nat.
        -- destruct (unmarshal data (proxies (pool g))) as [ps e].
           split; [intros (? & ? & [=])|].
           intros [?|[?|?]]; [discriminate|lia|discriminate].
        -- split; [intros (? & ? & [=])|].
           intros [?|[?|?]]; [discriminate|lia|discriminate].
      * split; eauto.
  - intros e g' fs' Hs. destruct (writing g) eqn:Hw.
    + rewrite (SaveProxies_held _ _ Hw) in Hs. discriminate.
    + destruct (SaveProxies_free g fs Hw) as (e0 & fs0 & Hs0 & _).
      congruence.
  - intros e g' fs'. unfold LoadProxies.
    destruct (writing g) eqn:Hw; simpl; [discriminate|].
    destruct (0 <? reading g)%nat eqn:Hr; simpl; [discriminate|].
    destruct (fs !! proxyFile (pool g)) as [data|] eqn:Hfile.
    + destruct (0 <? String.length data)%nat.
      * destruct (unmarshal data (proxies (pool g))) as [ps e0].
        intros [= <- <- <-]. auto.
      * intros [= <- <- <-]. auto.
    + unfold SaveProxies; simpl. discriminate.
Qed.

Lemma NewProxyPool_with_file (file url : string) (limit : Z)
  (fs : gmap string string) (data : string) :
  fs !! file = Some data ->
  NewProxyPool marshal unmarshal file url limit fs =
    Returned tt
      (mkGuarded
         (mkProxyPool (if (0 <? String.length data)%nat
                       then fst (unmarshal data []) else [])
            file url limit) false 0) fs.
Proof.
  unfold NewProxyPool, LoadProxies; simpl.
  intros ->. destruct (0 <? String.length data)%nat; [|reflexivity].
  destruct (unmarshal data []) as [ps e]. reflexivity.
Qed.

(** [NewProxyPool] returns only when the proxy file exists.  With no file
    it stops inside [LoadProxies], holding the lock for writing and
    waiting for it in [SaveProxies]: no pool is handed out and no file is
    created.  With a file it returns an unlocked pool that holds what the
    decoder makes of a non-empty file, and nothing for an empty one. *)
Theorem NewProxyPool_needs_file (file url : string) (limit : Z)
  (fs : gmap string string) :
  (fs !! file = None ->
   NewProxyPool marshal unmarshal file url limit fs =
     Blocked (mkGuarded (mkProxyPool [] file url limit) true 0) fs) /\
  (forall data, fs !! file = Some data ->
   NewProxyPool marshal unmarshal file url limit fs =
     Returned tt
       (mkGuarded
          (mkProxyPool (if (0 <? String.length data)%nat
                        then fst (unmarshal data []) else [])
             file url limit) false 0) fs).
Proof.
  split.
  - unfold NewProxyPool, LoadProxies; simpl. intros ->. reflexivity.
  - intros data. apply NewProxyPool_with_file.
Qed.

(** A pool saved with [SaveProxies] is the pool [NewProxyPool] builds from
    the file, for an encoding that the decoder reads back. *)
Theorem SaveProxies_NewProxyPool (g : guarded) (fs : gmap string string)
  (data : string) :
  writing g = false ->
  marshal (proxies (pool g)) = Some data ->
  data <> EmptyString ->
  unmarshal data [] = (proxies (pool g), false) ->
  exists fs',
    SaveProxies marshal g fs = Returned false g fs' /\
    fs' !! proxyFile (pool g) = Some data /\
    NewProxyPool marshal unmarshal (proxyFile (pool g)) (testURL (pool g))
      (maxFailures (pool g)) fs' =
      Returned tt (mkGuarded (pool g) false 0) fs'.
Proof.
  intros Hw Hm Hne Hu.
  destruct (SaveProxies_free g fs Hw) as (e & fs' & Hs & Hfs).
  rewrite Hm in Hfs. destruct Hfs as [-> ->].
  exists (<[proxyFile (pool g) := data]> fs).
  split; [exact Hs|]. split; [apply lookup_insert_eq|].
  rewrite (NewProxyPool_with_file _ _ _ _ data) by apply lookup_insert_eq.
  assert (Hlen : (0 <? String.length data)%nat = true).
  { apply Nat.ltb_lt. destruct data; [contradiction|simpl; lia]. }
  rewrite Hlen, Hu. simpl. now destruct (pool g).
Qed.

End ProxyFileFacts.

Lemma LoadProxies_blocks_iff_witness :
  let g := ProxyPoolMore.mkGuarded MoreFixtures.empty_pool false 0 in
  exists g' fs',
    ProxyPoolMore.LoadProxies MoreFixtures.empty_array MoreFixtures.read_nothing
      g ∅ = ProxyPoolMore.Blocked g' fs'.
Proof.
  intros g.
  apply (proj2 (proj1 (proj2 (LoadProxies_blocks_iff MoreFixtures.empty_array
                                MoreFixtures.read_nothing g ∅)))).
  right. right. reflexivity.
Defined.

Lemma NewProxyPool_needs_file_witness :
  ProxyPoolMore.NewProxyPool MoreFixtures.empty_array MoreFixtures.read_nothing
    "proxies.json" "http://probe" 3 ∅ =
  ProxyPoolMore.Blocked
    (ProxyPoolMore.mkGuarded
       (ProxyPool.mkProxyPool [] "proxies.json" "http://probe" 3) true 0) ∅.
Proof.
  apply (proj1 (NewProxyPool_needs_file MoreFixtures.empty_array
                  MoreFixtures.read_nothing "proxies.json" "http://probe" 3 ∅)).
  reflexivity.
Defined.

Lemma SaveProxies_NewProxyPool_witness :
  let g := ProxyPoolMore.mkGuarded Fixtures.two_proxies false 0 in
  let data :=
    "[10.0.0.1,8080,http,,,100,2,true;10.0.0.2,3128,socks5,bob,secret,200,3,false]" in
  MoreFixtures.write_proxies (ProxyPool.proxies Fixtures.two_proxies) = Some data /\
  MoreFixtures.read_proxies data [] = (ProxyPool.proxies Fixtures.two_proxies, false) /\
  MoreFixtures.read_proxies "[10.0.0.1,8080,http,,,100,2,yes]" [] = ([], true) /\
  exists fs',
    ProxyPoolMore.SaveProxies MoreFixtures.write_proxies g ∅ =
      ProxyPoolMore.Returned false g fs' /\
    fs' !! "proxies.json" = Some data /\
    ProxyPoolMore.NewProxyPool MoreFixtures.write_proxies MoreFixtures.read_proxies
      "proxies.json" "http://probe" 3 fs' =
      ProxyPoolMore.Returned tt g fs'.
Proof.
  intros g data.
  assert (Hwrite : MoreFixtures.write_proxies (ProxyPool.proxies (ProxyPoolMore.pool g))
                   = Some data) by (vm_compute; reflexivity).
  assert (Hread : MoreFixtures.read_proxies data [] =
                  (ProxyPool.proxies (ProxyPoolMore.pool g), false))
    by (vm_compute; reflexivity).
  split; [exact Hwrite|]. split; [exact Hread|].
  split; [vm_compute; reflexivity|].
  destruct (SaveProxies_NewProxyPool MoreFixtures.write_proxies
              MoreFixtures.read_proxies g ∅ data eq_refl Hwrite
              ltac:(discriminate) Hread)
    as (fs' & Hs & Hfile & Hn).
  exists fs'. split; [exact Hs|]. split; [exact Hfile|exact Hn].
Defined.


(** ** The rotating proxy list *)

Section ProxyRotationFacts.
Import ProxyRotation.

Lemma rotate_index (rotated : Z) (m : Manager) :
  Z.of_nat (length (proxyList m)) <= GoInt.max_int ->
  in_list m ->
  currentIndex (rotate rotated m) =
    (currentIndex m + 1) mod Z.of_nat (length (proxyList m)) /\
  in_list (rotate rotated m).
Proof.
  unfold in_list. intros Hfit Hin. simpl.
  unfold GoInt.add. rewrite wrap_in_range by int_range.
  rewrite Z.rem_mod_nonneg by lia.
  split; [reflexivity|]. apply Z.mod_pos_bound. lia.
Qed.

Lemma current_in_list (m : Manager) :
  in_list m ->
  exists proxy,
    current m = Some (proxy, m) /\
    proxyList m !! Z.to_nat (currentIndex m) = Some proxy.
Proof.
  unfold in_list, current, index. intros Hin.
  destruct (currentIndex m <? 0) eqn:Hneg; [apply Z.ltb_lt in Hneg; lia|].
  destruct (lookup_lt_is_Some_2 (proxyList m) (Z.to_nat (currentIndex m)))
    as [proxy Hproxy]; [lia|].
  exists proxy. now rewrite Hproxy.
Qed.

Lemma off_spec (m : Manager) :
  off m = false <-> enabled m = true /\ proxyList m <> [].
Proof.
  unfold off. destruct (enabled m); simpl.
  - destruct (proxyList m); simpl; split; try discriminate; intuition congruence.
  - split; [discriminate|]. intros [? _]; discriminate.
Qed.

Lemma off_rotate (rotated : Z) (m : Manager) : off (rotate rotated m) = off m.
Proof. reflexivity. Qed.

(** A call on a manager that is switched on and whose index points into
    the list returns a proxy of the list and leaves such a manager. *)
Lemma perform_in_list (c : call) (m : Manager) :
  Z.of_nat (length (proxyList m)) <= GoInt.max_int ->
  off m = false -> in_list m ->
  exists proxy m',
    perform c m = Some (proxy, m') /\ proxy ∈ proxyList m /\
    proxyList m' = proxyList m /\ enabled m' = enabled m /\ in_list m'.
Proof.
  intros Hfit Hoff Hin.
  destruct (rotate_index 0 m Hfit Hin) as [_ Hin0].
  assert (Hrot : forall rotated,
            exists proxy, current (rotate rotated m) = Some (proxy, rotate rotated m) /\
                          proxy ∈ proxyList m /\ in_list (rotate rotated m)).
  { intros rotated. destruct (rotate_index rotated m Hfit Hin) as [_ Hin1].
    destruct (current_in_list _ Hin1) as (proxy & Hc & Hl).
    exists proxy. split; [exact Hc|]. split; [|exact Hin1].
    apply list_elem_of_lookup. eauto. }
  assert (Hcur : exists proxy, current m = Some (proxy, m) /\ proxy ∈ proxyList m).
  { destruct (current_in_list _ Hin) as (proxy & Hc & Hl).
    exists proxy. split; [exact Hc|]. apply list_elem_of_lookup. eauto. }
  destruct c as [now rotated|rotated]; simpl.
  - unfold GetProxy. rewrite Hoff.
    destruct ((0 <? rotationInterval m) && due now m).
    + destruct (Hrot rotated) as (proxy & Hc & Hl & Hi).
      exists proxy, (rotate rotated m). auto.
    + destruct Hcur as (proxy & Hc & Hl). exists proxy, m. auto.
  - unfold RotateProxy. rewrite Hoff.
    destruct (Hrot rotated) as (proxy & Hc & Hl & Hi).
    exists proxy, (rotate rotated m). auto.
Qed.

Lemma perform_off (c : call) (m : Manager) :
  off m = true -> perform c m = Some (EmptyString, m).
Proof.
  intros Hoff. destruct c; simpl; unfold GetProxy, RotateProxy; now rewrite Hoff.
Qed.

Lemma perform_all_in_list (cs : list call) (m : Manager) :
  Z.of_nat (length (proxyList m)) <= GoInt.max_int ->
  off m = false -> in_list m ->
  exists out m',
    perform_all cs m = Some (out, m') /\ length out = length cs /\
    Forall (fun proxy => proxy ∈ proxyList m) out /\
    proxyList m' = proxyList m /\ enabled m' = enabled m /\ in_list m'.
Proof.
  revert m. induction cs as [|c cs IH]; intros m Hfit Hoff Hin; simpl.
  - exists [], m. split; [reflexivity|]. split; [reflexivity|].
    split; [constructor|]. auto.
  - destruct (perform_in_list c m Hfit Hoff Hin)
      as (proxy & m1 & -> & Hel & Hl1 & He1 & Hin1).
    destruct (IH m1) as (out & m2 & -> & Hlen & Hall & Hl2 & He2 & Hin2).
    + now rewrite Hl1.
    + apply off_spec. apply off_spec in Hoff. now rewrite Hl1, He1.
    + exact Hin1.
    + exists (proxy :: out), m2. simpl.
      split; [reflexivity|]. split; [now rewrite Hlen|].
      split; [constructor; [exact Hel|now rewrite <- Hl1]|].
      split; [congruence|]. split; [congruence|exact Hin2].
Qed.

Lemma perform_all_off (cs : list call) (m : Manager) :
  off m = true ->
  perform_all cs m = Some (replicate (length cs) EmptyString, m).
Proof.
  intros Hoff. induction cs as [|c cs IH]; simpl; [reflexivity|].
  now rewrite perform_off, IH.
Qed.

(** No run of [GetProxy] and [RotateProxy] calls on a manager from
    [NewManager] indexes outside the proxy list.  Switched on and with a
    list that is not empty, every call returns a proxy of the list and the
    index stays inside it; switched off or with an empty list, every call
    returns the empty string and the manager stays as it was created. *)
Theorem rotation_stays_in_list (config : Config) (now : Z) (cs : list call) :
  Z.of_nat (length (List config)) <= GoInt.max_int ->
  exists out m',
    perform_all cs (NewManager config now) = Some (out, m') /\
    length out = length cs /\
    (Enabled config = true -> List config <> [] ->
     in_list m' /\ proxyList m' = List config /\
     Forall (fun proxy => proxy ∈ List config) out) /\
    (Enabled config = false \/ List config = [] ->
     m' = NewManager config now /\
     out = replicate (length cs) EmptyString).
Proof.
  intros Hfit. set (m := NewManager config now).
  destruct (off m) eqn:Hoff.
  - exists (replicate (length cs) EmptyString), m.
    split; [now apply perform_all_off|]. split; [apply length_replicate|].
    split; [|auto].
    intros He Hl. exfalso.
    assert (off m = false); [|congruence].
    apply off_spec. auto.
  - destruct (perform_all_in_list cs m) as (out & m' & Hrun & Hlen & Hall & Hl & _ & Hin).
    + exact Hfit.
    + exact Hoff.
    + apply off_spec in Hoff as [_ Hne]. unfold in_list. simpl in *.
      destruct (List config); [contradiction|]. simpl. lia.
    + exists out, m'. split; [exact Hrun|]. split; [exact Hlen|]. split; [auto|].
      apply off_spec in Hoff as [He Hne]. simpl in *.
      intros [?|?]; congruence.
Qed.

(** [k] manual rotations move the index [k] places round the list, each
    returning the proxy it arrives at; as many rotations as the list has
    proxies bring back the proxy in use before. *)
Theorem RotateProxy_cycles (m : Manager) (ts : list Z) :
  enabled m = true ->
  in_list m ->
  Z.of_nat (length (proxyList m)) <= GoInt.max_int ->
  exists out m',
    perform_all (CallRotateProxy <$> ts) m = Some (out, m') /\
    proxyList m' = proxyList m /\
    currentIndex m' =
      (currentIndex m + Z.of_nat (length ts)) mod Z.of_nat (length (proxyList m)) /\
    (forall j, (j < length ts)%nat ->
       out !! j =
       proxyList m !! Z.to_nat ((currentIndex m + Z.of_nat j + 1)
                                  mod Z.of_nat (length (proxyList m)))) /\
    (length ts = length (proxyList m) -> currentIndex m' = currentIndex m).
Proof.
  intros Hen Hin Hfit.
  assert (Hmain : exists out m',
    perform_all (CallRotateProxy <$> ts) m = Some (out, m') /\
    proxyList m' = proxyList m /\
    currentIndex m' =
      (currentIndex m + Z.of_nat (length ts)) mod Z.of_nat (length (proxyList m)) /\
    (forall j, (j < length ts)%nat ->
       out !! j =
       proxyList m !! Z.to_nat ((currentIndex m + Z.of_nat j + 1)
                                  mod Z.of_nat (length (proxyList m))))).
  { revert m Hen Hin Hfit. induction ts as [|t ts IH]; intros m Hen Hin Hfit.
    - exists [], m. simpl. split; [reflexivity|]. split; [reflexivity|]. split.
      + unfold in_list in Hin. rewrite Z.add_0_r, Z.mod_small by lia. reflexivity.
      + intros j Hj. lia.
    - assert (Hoff : off m = false).
      { apply off_spec. split; [exact Hen|]. unfold in_list in Hin.
        destruct (proxyList m); [simpl in Hin; lia|discriminate]. }
      destruct (rotate_index t m Hfit Hin) as [Hidx Hin1].
      destruct (current_in_list _ Hin1) as (proxy & Hc & Hl).
      destruct (IH (rotate t m) Hen Hin1 Hfit) as (out & m' & Hrun & Hlist & Hlast & Hout).
      exists (proxy :: out), m'. rewrite fmap_cons. cbn [perform_all perform].
      unfold RotateProxy. rewrite Hoff, Hc, Hrun. split; [reflexivity|].
      change (proxyList (rotate t m)) with (proxyList m) in *.
      split; [exact Hlist|]. cbn [length]. split.
      + rewrite Hlast, Hidx, Zplus_mod_idemp_l. f_equal. lia.
      + intros [|j] Hj.
        * cbn [lookup list_lookup]. rewrite <- Hl, Hidx. do 3 f_equal. lia.
        * change ((proxy :: out) !! S j) with (out !! j).
          rewrite Hout by (cbn [length] in Hj; lia). rewrite Hidx.
          rewrite <- Z.add_assoc, Zplus_mod_idemp_l. do 3 f_equal. lia. }
  destruct Hmain as (out & m' & Hrun & Hlist & Hlast & Hout).
  exists out, m'. repeat split; try assumption.
  intros Hfull. rewrite Hlast, Hfull. unfold in_list in Hin.
  rewrite <- (Z.mul_1_l (Z.of_nat (length (proxyList m)))) at 1.
  rewrite Z.mod_add by lia. apply Z.mod_small. lia.
Qed.

End ProxyRotationFacts.

Lemma rotation_stays_in_list_witness :
  exists out m',
    ProxyRotation.perform_all
      [ProxyRotation.CallGetProxy 10 11; ProxyRotation.CallRotateProxy 20;
       ProxyRotation.CallGetProxy 61000000021 61000000022]
      (ProxyRotation.NewManager MoreFixtures.rotation_config 0) = Some (out, m') /\
    ProxyRotation.in_list m' /\
    Forall (fun proxy => proxy ∈ ProxyRotation.List MoreFixtures.rotation_config) out.
Proof.
  destruct (rotation_stays_in_list MoreFixtures.rotation_config 0
              [ProxyRotation.CallGetProxy 10 11; ProxyRotation.CallRotateProxy 20;
               ProxyRotation.CallGetProxy 61000000021 61000000022])
    as (out & m' & Hrun & _ & Hon & _).
  - vm_compute. discriminate.
  - exists out, m'. destruct Hon as (Hin & _ & Hall).
    + reflexivity.
    + discriminate.
    + auto.
Defined.

Lemma RotateProxy_cycles_witness :
  exists out m',
    ProxyRotation.perform_all (ProxyRotation.CallRotateProxy <$> [1; 2; 3])
      (ProxyRotation.NewManager MoreFixtures.rotation_config 0) = Some (out, m') /\
    ProxyRotation.currentIndex m' = 0.
Proof.
  destruct (RotateProxy_cycles
              (ProxyRotation.NewManager MoreFixtures.rotation_config 0) [1; 2; 3])
    as (out & m' & Hrun & _ & _ & _ & Hfull).
  - reflexivity.
  - unfold ProxyRotation.in_list. simpl. lia.
  - vm_compute. discriminate.
  - exists out, m'. split; [exact Hrun|]. apply Hfull. reflexivity.
Defined.


(** ** Retries, saves and the worker *)

Section CrawlRunFacts.
Import Crawl CrawlRuns.

Variable c : Crawler.

(** *** A platform that keeps failing *)

Lemma given_up_again (call : event) (d : Z) (n : nat) (h : history) :
  given_up call d n (Sleep d :: call :: h) = given_up call d (S n) h.
Proof.
  unfold given_up.
  change (call :: Sleep d :: call :: h)
    with ((fun past => call :: Sleep d :: past) (call :: h)).
  now rewrite <- Nat.iter_succ_r.
Qed.

Lemma retry_count (n : Z) :
  0 <= n < GoInt.max_int -> GoInt.add n 1 = n + 1.
Proof. intros Hn. unfold GoInt.add. apply wrap_in_range. int_range. Qed.

Lemma crawlVideoComments_loop_S (fuel : nat) (videoID : string) (w : walk)
  (h : history) :
  crawlVideoComments_loop (S fuel) c videoID w h =
  match crawlVideoComments_pass c videoID w h with
  | Break h' => Some h'
  | Continue w' h' => crawlVideoComments_loop fuel c videoID w' h'
  end.
Proof. reflexivity. Qed.

Lemma crawlUserVideos_loop_S (fuel nested : nat) (userID : string) (w : walk)
  (h : history) :
  crawlUserVideos_loop (S fuel) nested c userID w h =
  match crawlUserVideos_pass nested c userID w h with
  | None => None
  | Some (Break h') => Some h'
  | Some (Continue w' h') => crawlUserVideos_loop fuel nested c userID w' h'
  end.
Proof. reflexivity. Qed.

Lemma comments_given_up (videoID : string) (j : nat) (w : walk) (h : history) :
  (forall past cur, err (GetVideoComments (scraper c) past videoID cur) = true) ->
  Retries (config c) < GoInt.max_int ->
  0 <= retryCount w < GoInt.max_int ->
  Z.to_nat (Retries (config c) - retryCount w) = j ->
  crawlVideoComments_loop (S j) c videoID w h =
    Some (given_up (CallGetVideoComments videoID (cursor w))
            (GoInt.mul (Timeout (config c)) GoTime.Second) j h).
Proof.
  intros Hfail Hfit. revert w h.
  induction j as [|j IH]; intros w h Hpos Hleft;
    rewrite crawlVideoComments_loop_S; unfold crawlVideoComments_pass;
    rewrite Hfail.
  - rewrite retry_count by lia.
    rewrite (proj2 (Z.gtb_lt _ _)) by lia. reflexivity.
  - rewrite retry_count by lia.
    destruct (retryCount w + 1 >? Retries (config c)) eqn:Hgt.
    + apply Z.gtb_lt in Hgt. lia.
    + rewrite IH by (simpl; lia). simpl. now rewrite given_up_again.
Qed.

Lemma videos_given_up (userID : string) (j nested : nat) (w : walk) (h : history) :
  (forall past cur, err (GetUserVideos (scraper c) past userID cur) = true) ->
  Retries (config c) < GoInt.max_int ->
  0 <= retryCount w < GoInt.max_int ->
  Z.to_nat (Retries (config c) - retryCount w) = j ->
  crawlUserVideos_loop (S j) nested c userID w h =
    Some (given_up (CallGetUserVideos userID (cursor w))
            (GoInt.mul (Timeout (config c)) GoTime.Second) j h).
Proof.
  intros Hfail Hfit. revert w h.
  induction j as [|j IH]; intros w h Hpos Hleft;
    rewrite crawlUserVideos_loop_S; unfold crawlUserVideos_pass;
    rewrite Hfail.
  - rewrite retry_count by lia.
    rewrite (proj2 (Z.gtb_lt _ _)) by lia. reflexivity.
  - rewrite retry_count by lia.
    destruct (retryCount w + 1 >? Retries (config c)) eqn:Hgt.
    + apply Z.gtb_lt in Hgt. lia.
    + rewrite IH by (simpl; lia). simpl. now rewrite given_up_again.
Qed.

Lemma retry_count_fits (n : Z) : GoInt.add n 1 <= GoInt.max_int.
Proof. unfold GoInt.add. pose proof (wrap_range (n + 1)) as [_ H]. exact H. Qed.

Lemma comments_never_given_up (videoID : string) (fuel : nat) (w : walk)
  (h : history) :
  (forall past cur, err (GetVideoComments (scraper c) past videoID cur) = true) ->
  GoInt.max_int <= Retries (config c) ->
  crawlVideoComments_loop fuel c videoID w h = None.
Proof.
  intros Hfail Hmax. revert w h.
  induction fuel as [|fuel IH]; intros w h; [reflexivity|].
  rewrite crawlVideoComments_loop_S. unfold crawlVideoComments_pass.
  rewrite Hfail.
  pose proof (retry_count_fits (retryCount w)) as Hfits.
  destruct (GoInt.add (retryCount w) 1 >? Retries (config c)) eqn:Hgt.
  - apply Z.gtb_lt in Hgt. lia.
  - apply IH.
Qed.

Lemma videos_never_given_up (userID : string) (fuel nested : nat) (w : walk)
  (h : history) :
  (forall past cur, err (GetUserVideos (scraper c) past userID cur) = true) ->
  GoInt.max_int <= Retries (config c) ->
  crawlUserVideos_loop fuel nested c userID w h = None.
Proof.
  intros Hfail Hmax. revert w h.
  induction fuel as [|fuel IH]; intros w h; [reflexivity|].
  rewrite crawlUserVideos_loop_S. unfold crawlUserVideos_pass.
  rewrite Hfail.
  pose proof (retry_count_fits (retryCount w)) as Hfits.
  destruct (GoInt.add (retryCount w) 1 >? Retries (config c)) eqn:Hgt.
  - apply Z.gtb_lt in Hgt. lia.
  - apply IH.
Qed.

(** Against a platform that fails every request for a parent, and with
    [Retries] below the largest [int], a walk gives up after [Retries]
    retries: it makes [Retries + 1] requests, all with the empty cursor,
    sleeps [Timeout] seconds after each but the last, saves nothing and
    returns.  A negative [Retries] counts as none.  With [Retries] the
    largest [int] the walk never gives up: [retryCount++] wraps around
    before it can exceed [Retries], and no number of passes ends the
    loop. *)
Theorem retries_exhausted (h : history) (fuel : nat) :
  let d := GoInt.mul (Timeout (config c)) GoTime.Second in
  let n := Z.to_nat (Retries (config c)) in
  (Retries (config c) < GoInt.max_int ->
   (n < fuel)%nat ->
   (forall videoID,
      (forall past cur, err (GetVideoComments (scraper c) past videoID cur) = true) ->
      crawlVideoComments fuel c videoID h =
        Some (given_up (CallGetVideoComments videoID EmptyString) d n h)) /\
   (forall userID,
      (forall past cur, err (GetUserVideos (scraper c) past userID cur) = true) ->
      crawlUserVideos fuel c userID h =
        Some (given_up (CallGetUserVideos userID EmptyString) d n h))) /\
  (Retries (config c) = GoInt.max_int ->
   (forall videoID,
      (forall past cur, err (GetVideoComments (scraper c) past videoID cur) = true) ->
      crawlVideoComments fuel c videoID h = None) /\
   (forall userID,
      (forall past cur, err (GetUserVideos (scraper c) past userID cur) = true) ->
      crawlUserVideos fuel c userID h = None)).
Proof.
  intros d n. split.
  - intros Hfit Hfuel. split.
    + intros videoID Hfail. unfold crawlVideoComments.
      apply (crawlVideoComments_loop_mono c (S n)); [lia|].
      apply (comments_given_up videoID n (mkWalk EmptyString 0) h Hfail Hfit);
        simpl; [int_range|]. subst n. f_equal. lia.
    + intros userID Hfail. unfold crawlUserVideos.
      apply (crawlUserVideos_loop_mono c (S n) fuel 0 fuel); [lia|lia|].
      apply (videos_given_up userID n 0 (mkWalk EmptyString 0) h Hfail Hfit);
        simpl; [int_range|]. subst n. f_equal. lia.
  - intros Hmax. split.
    + intros videoID Hfail. apply comments_never_given_up; [exact Hfail|lia].
    + intros userID Hfail. apply videos_never_given_up; [exact Hfail|lia].
Qed.

Lemma crawlUserVideos_each_saves (nested : nat) (videos : list VideoData)
  (h h' : history) :
  crawlUserVideos_each nested c videos h = Some h' ->
  extends walk_event h h' /\
  pick video_saved h' = pick video_saved h ++ videos /\
  pick product_call h' = pick product_call h ++ omap wanted_product videos.
Proof.
  revert h. induction videos as [|video rest IH]; intros h; simpl.
  - intros [= <-]. rewrite !app_nil_r. split; [apply extends_refl|auto].
  - unfold crawlVideoComments.
    destruct (crawlVideoComments_loop nested c (VideoID video) _ _) as [h1|] eqn:Hwalk;
      [|discriminate].
    apply crawlVideoComments_loop_extends in Hwalk.
    set (h2 := match Product video with
               | Some productInfo =>
                   if negb (String.eqb (ProductID productInfo) EmptyString)
                   then crawlProductInfo c (ProductID productInfo) h1
                   else h1
               | None => h1
               end).
    assert (Hh2 : extends walk_event h1 h2 /\
                  pick video_saved h2 = pick video_saved h1 /\
                  pick product_call h2 =
                    pick product_call h1 ++
                    match wanted_product video with Some p => [p] | None => [] end).
    { subst h2. unfold wanted_product.
      destruct (Product video) as [productInfo|].
      - destruct (negb (String.eqb (ProductID productInfo) EmptyString)).
        + destruct (crawlProductInfo_extends c (ProductID productInfo) h1)
            as (He & Hp & Hv). auto.
        + rewrite app_nil_r. split; [apply extends_refl|auto].
      - rewrite app_nil_r. split; [apply extends_refl|auto]. }
    destruct Hh2 as (He2 & Hv2 & Hp2).
    intros Hrest. destruct (IH _ Hrest) as (He3 & Hv3 & Hp3).
    assert (Hv1 : pick video_saved h1 = pick video_saved h ++ [video]).
    { rewrite (pick_extends video_saved comment_event _ _ (fun e => ltac:(now destruct e)) Hwalk).
      unfold saveVideoData. now rewrite pick_cons. }
    assert (Hp1 : pick product_call h1 = pick product_call h).
    { rewrite (pick_extends product_call comment_event _ _ (fun e => ltac:(now destruct e)) Hwalk).
      unfold saveVideoData. rewrite pick_cons. simpl. now rewrite app_nil_r. }
    split; [|split].
    + eapply extends_trans; [|exact He3].
      apply extends_cons; [reflexivity|].
      eapply extends_trans; [|exact He2].
      eapply extends_trans;
        [|apply (extends_weaken _ _ _ _ comment_event_walk Hwalk)].
      apply extends_cons; [reflexivity|apply extends_refl].
    + rewrite Hv3, pick_cons. simpl. rewrite app_nil_r, Hv2, Hv1.
      now rewrite <- app_assoc.
    + rewrite Hp3, pick_cons. simpl. rewrite app_nil_r, Hp2, Hp1.
      rewrite <- app_assoc. f_equal.
      now destruct (wanted_product video).
Qed.

Lemma crawlUserVideos_each_returns (nested : nat) (videos : list VideoData)
  (h : history) :
  (forall video past, video ∈ videos ->
     crawlVideoComments nested c (VideoID video) past <> None) ->
  exists h', crawlUserVideos_each nested c videos h = Some h'.
Proof.
  revert h. induction videos as [|video rest IH]; intros h Hends; simpl;
    [eauto|].
  destruct (crawlVideoComments nested c (VideoID video) (saveVideoData video h))
    as [h1|] eqn:Hwalk.
  - apply IH. intros other past Hin. apply Hends. now apply list_elem_of_further.
  - exfalso. apply (Hends video (saveVideoData video h));
      [apply list_elem_of_here|exact Hwalk].
Qed.

Lemma crawlUserVideos_pass_saves (nested : nat) (userID : string) (w : walk)
  (h : history) (p : pass) :
  crawlUserVideos_pass nested c userID w h = Some p ->
  let r := GetUserVideos (scraper c) h userID (cursor w) in
  let page := if err r then [] else items r in
  pick video_saved (pass_history p) = pick video_saved h ++ page /\
  pick product_call (pass_history p) =
    pick product_call h ++ omap wanted_product page /\
  pick profile_call (pass_history p) = pick profile_call h /\
  extends walk_event h (pass_history p).
Proof.
  intros Hp. cbv zeta. unfold crawlUserVideos_pass in Hp.
  assert (Hcall : extends walk_event h (CallGetUserVideos userID (cursor w) :: h))
    by (apply extends_cons; [reflexivity|apply extends_refl]).
  destruct (err (GetUserVideos (scraper c) h userID (cursor w))).
  - assert (Hext : extends walk_event h (pass_history p)).
    { destruct (_ >? _); injection Hp as <-; simpl; [exact Hcall|].
      apply extends_cons; [reflexivity|exact Hcall]. }
    rewrite !app_nil_r.
    assert (Hsame : forall {A} (f : event -> option A),
              f (CallGetUserVideos userID (cursor w)) = None ->
              (forall d, f (Sleep d) = None) ->
              pick f (pass_history p) = pick f h).
    { intros A f Hf1 Hf2.
      destruct (_ >? _); injection Hp as <-; simpl;
        rewrite ?pick_cons, ?Hf1, ?Hf2, ?app_nil_r; reflexivity. }
    split; [apply Hsame; reflexivity|].
    split; [apply Hsame; reflexivity|].
    split; [apply Hsame; reflexivity|exact Hext].
  - destruct (crawlUserVideos_each nested c _ _) as [h2|] eqn:Heach;
      [|discriminate].
    destruct (crawlUserVideos_each_saves _ _ _ _ Heach) as (He & Hv & Hpc).
    rewrite pick_cons in Hv. rewrite pick_cons in Hpc.
    simpl in Hv, Hpc. rewrite app_nil_r in Hv. rewrite app_nil_r in Hpc.
    assert (Hext : extends walk_event h h2)
      by (eapply extends_trans; [exact Hcall|exact He]).
    assert (Hprof : pick profile_call h2 = pick profile_call h).
    { apply (pick_extends profile_call walk_event); [|exact Hext].
      intros e. now destruct e. }
    destruct (_ || _); injection Hp as <-; simpl;
      rewrite ?pick_cons; simpl; rewrite ?app_nil_r;
      (split; [exact Hv|]); (split; [exact Hpc|]); (split; [exact Hprof|]);
      [exact Hext|apply extends_cons; [reflexivity|exact Hext]].
Qed.

(** One pass of the video walk, on a page for each of whose videos the
    comment walk ends within [nested] passes, returns.  If its request
    succeeded it has saved every video of the page once, in the order of
    the page, and looked up a product for exactly the videos that carry
    one with a non-empty ID; if its request failed it has saved nothing
    and looked up nothing.  No pass requests a profile or saves one. *)
Theorem page_saved_in_order (nested : nat) (userID : string) (w : walk)
  (h : history) :
  let r := GetUserVideos (scraper c) h userID (cursor w) in
  let page := if err r then [] else items r in
  (forall video past, video ∈ page ->
     crawlVideoComments nested c (VideoID video) past <> None) ->
  exists p,
    crawlUserVideos_pass nested c userID w h = Some p /\
    pick video_saved (pass_history p) = pick video_saved h ++ page /\
    pick product_call (pass_history p) =
      pick product_call h ++ omap wanted_product page /\
    pick profile_call (pass_history p) = pick profile_call h /\
    extends walk_event h (pass_history p).
Proof.
  intros r page Hends.
  assert (Hret : exists p, crawlUserVideos_pass nested c userID w h = Some p).
  { unfold crawlUserVideos_pass. subst page r.
    destruct (err (GetUserVideos (scraper c) h userID (cursor w))).
    - destruct (_ >? _); eauto.
    - destruct (crawlUserVideos_each_returns nested
                  (items (GetUserVideos (scraper c) h userID (cursor w)))
                  (CallGetUserVideos userID (cursor w) :: h) Hends)
        as [h2 ->].
      destruct (_ || _); eauto. }
  destruct Hret as [p Hp]. exists p. split; [exact Hp|].
  exact (crawlUserVideos_pass_saves nested userID w h p Hp).
Qed.

Lemma crawlUserVideos_loop_extends (fuel nested : nat) (userID : string)
  (w : walk) (h h' : history) :
  crawlUserVideos_loop fuel nested c userID w h = Some h' ->
  extends walk_event h h'.
Proof.
  revert w h. induction fuel as [|fuel IH]; intros w h; simpl; [discriminate|].
  destruct (crawlUserVideos_pass nested c userID w h) as [p|] eqn:Hpass;
    [|discriminate].
  assert (Hp : extends walk_event h (pass_history p)).
  { unfold crawlUserVideos_pass in Hpass.
    assert (Hcall : extends walk_event h (CallGetUserVideos userID (cursor w) :: h))
      by (apply extends_cons; [reflexivity|apply extends_refl]).
    destruct (err _).
    - destruct (_ >? _); injection Hpass as <-; simpl; [exact Hcall|].
      apply extends_cons; [reflexivity|exact Hcall].
    - destruct (crawlUserVideos_each nested c _ _) as [h2|] eqn:Heach;
        [|discriminate].
      destruct (crawlUserVideos_each_saves _ _ _ _ Heach) as (He & _).
      assert (Hext : extends walk_event h h2)
        by (eapply extends_trans; [exact Hcall|exact He]).
      destruct (_ || _); injection Hpass as <-; simpl; [exact Hext|].
      apply extends_cons; [reflexivity|exact Hext]. }
  destruct p as [w1 h1|h1]; simpl in Hp.
  - intros Hl. eapply extends_trans; [exact Hp|]. eapply IH; eauto.
  - now intros [= <-].
Qed.

Lemma worker_pass_profile (fuel : nat) (userID : string) (h h' : history) :
  worker_pass fuel c userID h = Some h' ->
  pick profile_call h' = pick profile_call h ++ [userID].
Proof.
  unfold worker_pass, saveUserData, crawlUserVideos.
  destruct (GetUserInfo (scraper c) h userID) as [userData|].
  - destruct (crawlUserVideos_loop fuel fuel c userID _ _) as [h2|] eqn:Hwalk;
      [|discriminate].
    intros [= <-]. apply crawlUserVideos_loop_extends in Hwalk.
    rewrite pick_cons. simpl. rewrite app_nil_r.
    rewrite (pick_extends profile_call walk_event _ _
               (fun e => ltac:(now destruct e)) Hwalk).
    rewrite !pick_cons. simpl. now rewrite app_nil_r.
  - intros [= <-]. now rewrite pick_cons.
Qed.

(** A worker whose video walks all end within [fuel] passes returns, and
    has requested the profile of every ID it received, once and in the
    order received, whether or not earlier profiles or walks failed.  An
    ID whose profile request fails costs that one request: nothing is
    saved for it, no video walk is started and the worker does not
    sleep. *)
Theorem worker_profiles_in_order (fuel : nat) (userIDs : list string)
  (h : history) :
  (forall userID past, userID ∈ userIDs ->
     crawlUserVideos fuel c userID past <> None) ->
  (exists h',
     worker fuel c userIDs h = Some h' /\
     pick profile_call h' = pick profile_call h ++ userIDs) /\
  (forall userID past,
     GetUserInfo (scraper c) past userID = None ->
     worker_pass fuel c userID past = Some (CallGetUserInfo userID :: past)).
Proof.
  intros Hends. split.
  - revert h. induction userIDs as [|userID rest IH]; intros h; simpl.
    + exists h. now rewrite app_nil_r.
    + destruct (worker_pass fuel c userID h) as [h1|] eqn:Hpass.
      * destruct (IH (fun u past Hin => Hends u past (list_elem_of_further _ _ _ Hin)) h1)
          as (h' & Hrest & Hcalls).
        exists h'. split; [exact Hrest|].
        rewrite Hcalls, (worker_pass_profile _ _ _ _ Hpass).
        now rewrite <- app_assoc.
      * exfalso. unfold worker_pass in Hpass.
        destruct (GetUserInfo (scraper c) h userID) as [userData|]; [|discriminate].
        destruct (crawlUserVideos fuel c userID _) as [h2|] eqn:Hwalk;
          [discriminate|].
        exact (Hends userID _ (list_elem_of_here _ _) Hwalk).
  - intros userID past Hnone. unfold worker_pass. now rewrite Hnone.
Qed.

End CrawlRunFacts.

Lemma retries_exhausted_witness :
  (Crawl.crawlVideoComments 4 MoreFixtures.stranded "v1" [] =
     Some (CrawlRuns.given_up (Crawl.CallGetVideoComments "v1" "") 30000000000 3 []) /\
   Crawl.crawlUserVideos 4 MoreFixtures.stranded "u1" [] =
     Some (CrawlRuns.given_up (Crawl.CallGetUserVideos "u1" "") 30000000000 3 [])) /\
  Crawl.crawlUserVideos 1000 MoreFixtures.stubborn "u1" [] = None.
Proof.
  split.
  - destruct (retries_exhausted MoreFixtures.stranded [] 4) as [Hgives _].
    destruct Hgives as [Hc Hv].
    + vm_compute. reflexivity.
    + vm_compute. lia.
    + split.
      * apply (Hc "v1"). reflexivity.
      * apply (Hv "u1"). reflexivity.
  - destruct (retries_exhausted MoreFixtures.stubborn [] 1000) as [_ Hnever].
    destruct Hnever as [_ Hv]; [reflexivity|].
    apply (Hv "u1"). reflexivity.
Defined.

(** The comment endpoint of [Fixtures.platform] fails the first request
    for a video and ends the walk with the second: from any history, a
    comment walk against it is over within two passes. *)
Lemma comment_walk_ends (c : Crawl.Crawler) (fuel : nat) (videoID : string)
  (past : Crawl.history) :
  Crawl.GetVideoComments (Crawl.scraper c) =
    Crawl.GetVideoComments Fixtures.platform ->
  1 <= Crawl.Retries (Crawl.config c) ->
  (2 <= fuel)%nat ->
  Crawl.crawlVideoComments fuel c videoID past <> None.
Proof.
  intros Hplatform Hretries Hfuel.
  destruct fuel as [|[|fuel]]; [lia|lia|].
  unfold Crawl.crawlVideoComments.
  rewrite crawlVideoComments_loop_S. unfold Crawl.crawlVideoComments_pass.
  rewrite Hplatform. simpl.
  destruct (Crawl.comment_cursors videoID past) eqn:Hnone; simpl; [|discriminate].
  change (GoInt.add 0 1) with 1.
  destruct (1 >? Crawl.Retries (Crawl.config c)) eqn:Hgt;
    [apply Z.gtb_lt in Hgt; lia|].
  unfold Crawl.crawlVideoComments_pass.
  rewrite Hplatform. simpl. rewrite String.eqb_refl, Hnone. simpl. discriminate.
Qed.

Lemma video_walk_ends (userID : string) (past : Crawl.history) :
  Crawl.crawlUserVideos 5 Fixtures.crawler userID past <> None.
Proof.
  unfold Crawl.crawlUserVideos.
  rewrite crawlUserVideos_loop_S. unfold Crawl.crawlUserVideos_pass. simpl.
  destruct (crawlUserVideos_each_returns Fixtures.crawler 5 [Fixtures.video1]
              (Crawl.CallGetUserVideos userID "" :: past)) as [h2 Heach].
  { intros video h0 _. apply comment_walk_ends; [reflexivity|simpl; lia|lia]. }
  simpl in Heach. rewrite Heach.
  unfold Crawl.crawlUserVideos_pass. simpl. discriminate.
Qed.

Lemma page_saved_in_order_witness :
  exists p,
    Crawl.crawlUserVideos_pass 5 MoreFixtures.stall "u1" (Crawl.mkWalk "" 0) [] =
      Some p /\
    CrawlRuns.pick CrawlRuns.video_saved (CrawlRuns.pass_history p) =
      [Fixtures.video1; MoreFixtures.video2; MoreFixtures.video3] /\
    CrawlRuns.pick CrawlRuns.product_call (CrawlRuns.pass_history p) = ["p1"].
Proof.
  destruct (page_saved_in_order MoreFixtures.stall 5 "u1" (Crawl.mkWalk "" 0) [])
    as (p & Hp & Hv & Hpc & _).
  - intros video past _. apply comment_walk_ends; [reflexivity|simpl; lia|lia].
  - exists p. split; [exact Hp|]. split; [exact Hv|exact Hpc].
Defined.

Lemma worker_profiles_in_order_witness :
  exists h',
    CrawlRuns.worker 5 Fixtures.crawler ["u1"; "u2"] [] = Some h' /\
    CrawlRuns.pick CrawlRuns.profile_call h' = ["u1"; "u2"].
Proof.
  destruct (worker_profiles_in_order Fixtures.crawler 5 ["u1"; "u2"] [])
    as [(h' & Hrun & Hcalls) _].
  - intros userID past _. apply video_walk_ends.
  - exists h'. split; [exact Hrun|exact Hcalls].
Defined.


(** ** [main], and [Start] without workers *)

Section MainFacts.
Import Crawl CrawlRuns.

(** With [Concurrency] zero the channel has no buffer and there is no
    worker to receive: [Start] gets as far as its first send and stays
    there. *)
Lemma no_workers_invariant (cfg : Config) (userIDs : list string) (s : run) :
  Concurrency cfg = 0 -> userIDs <> [] ->
  reachable cfg userIDs s ->
  (main s = Spawning 0 \/ main s = Sending userIDs) /\
  workers s = [] /\ urlChannel s = [] /\ received s = [] /\ processed s = [].
Proof.
  intros Hzero Hne Hreach. unfold reachable in Hreach.
  revert s Hreach. apply rtc_ind_r; [simpl; auto 6|].
  intros s s' _ Hstep (Hmain & Hw & Hch & Hr & Hp).
  inversion Hstep as [? ? Hm|n ? ? Hwk]; subst.
  - unfold main_step in Hm. destruct Hmain as [Hmain|Hmain]; rewrite Hmain in Hm.
    + rewrite Hzero in Hm. simpl in Hm. injection Hm as <-. simpl. auto 6.
    + destruct userIDs as [|userID rest]; [contradiction|].
      rewrite Hch, Hzero in Hm. discriminate.
  - unfold worker_step in Hwk. rewrite Hw in Hwk. discriminate.
Qed.

(** With [Concurrency] zero and an ID to crawl, [Start] never returns: no
    state it can reach is past [wg.Wait()], no ID is ever taken off the
    channel, and the state in which it waits to send the first ID, from
    which no goroutine can move, is reached. *)
Theorem Start_without_workers (cfg : Config) (userIDs : list string) :
  Concurrency cfg = 0 ->
  userIDs <> [] ->
  (forall s, reachable cfg userIDs s ->
     main s <> Finished /\ received s = [] /\ processed s = []) /\
  (exists s, reachable cfg userIDs s /\ forall s', ~ step cfg userIDs s s').
Proof.
  intros Hzero Hne. split.
  - intros s Hs.
    destruct (no_workers_invariant cfg userIDs s Hzero Hne Hs)
      as (Hmain & _ & _ & Hr & Hp).
    split; [|auto]. destruct Hmain as [-> | ->]; discriminate.
  - exists (mkRun (Sending userIDs) [] false [] 0 [] []). split.
    + eapply rtc_l; [|apply rtc_refl]. apply step_main.
      unfold main_step. simpl. now rewrite Hzero.
    + intros s' Hstep. inversion Hstep as [? ? Hm|n ? ? Hwk]; subst.
      * unfold main_step in Hm. simpl in Hm.
        destruct userIDs; [contradiction|]. rewrite Hzero in Hm. discriminate.
      * unfold worker_step in Hwk. simpl in Hwk. discriminate.
Qed.

Lemma userIDList_spec (args : list string) (users : string) :
  users <> EmptyString ->
  userIDList args users <> [] /\
  (EmptyString ∉ userIDList args users) /\
  (userIDList args users = filter (fun id => id <> EmptyString) args \/
   (userIDList args users = [users] /\
    forall id, id ∈ args -> id = EmptyString)).
Proof.
  intros Hu. unfold userIDList.
  assert (Hnb : negb (String.eqb users EmptyString) = true).
  { apply negb_true_iff, String.eqb_neq. exact Hu. }
  rewrite Hnb, andb_true_r.
  destruct (filter (fun id => id <> EmptyString) args) as [|id ids] eqn:Hf; simpl.
  - split; [discriminate|]. split.
    + rewrite list_elem_of_singleton. congruence.
    + right. split; [reflexivity|]. intros id Hid.
      destruct (decide (id = EmptyString)) as [|Hne]; [assumption|].
      assert (Hin : id ∈ filter (fun id => id <> EmptyString) args)
        by (apply list_elem_of_filter; auto).
      rewrite Hf in Hin. now apply elem_of_nil in Hin.
  - split; [discriminate|]. split; [|auto].
    rewrite <- Hf. intros Hin. apply list_elem_of_filter in Hin as [Hne _].
    now apply Hne.
Qed.

(** When [main] gets to [Start], the list it passes is not empty and holds
    no empty ID: it is the non-empty positional arguments or, without any,
    the [-users] value as a single ID, commas and all.  [Start] is reached
    only with cookies and a [-users] value given (also when positional
    IDs make that value unused), a supported platform and a channel size
    that is not negative. *)
Theorem main_seeds (f : flags) (scraperReady dirMade : bool) (cfg : Config)
  (userIDs : list string) :
  main_run f scraperReady dirMade = Starts cfg userIDs ->
  userIDs <> [] /\
  (EmptyString ∉ userIDs) /\
  (userIDs = filter (fun id => id <> EmptyString) (flag_args f) \/
   (userIDs = [flag_users f] /\ forall id, id ∈ flag_args f -> id = EmptyString)) /\
  flag_cookies f <> EmptyString /\ flag_users f <> EmptyString /\
  (Platform cfg = "douyin" \/ Platform cfg = "kuaishou") /\
  0 <= Concurrency cfg /\
  Concurrency cfg = flag_concurrency f /\ Retries cfg = flag_retries f /\
  Timeout cfg = flag_timeout f /\ OutputDir cfg = flag_output f.
Proof.
  unfold main_run.
  destruct (String.eqb (flag_cookies f) EmptyString) eqn:Hc; [discriminate|].
  destruct (String.eqb (flag_users f) EmptyString) eqn:Hu; [discriminate|].
  destruct (flag_concurrency f <? 0) eqn:Hn; [discriminate|].
  destruct (Initialize _ _ _) eqn:Hi; [discriminate|].
  intros [= <- <-]. apply String.eqb_neq in Hc, Hu. apply Z.ltb_ge in Hn.
  destruct (userIDList_spec (flag_args f) (flag_users f) Hu) as (H1 & H2 & H3).
  split; [exact H1|]. split; [exact H2|]. split; [exact H3|].
  split; [exact Hc|]. split; [exact Hu|]. simpl. split.
  - unfold Initialize in Hi. simpl in Hi.
    destruct (String.eqb (flag_platform f) "douyin") eqn:Hd.
    + left. now apply String.eqb_eq.
    + destruct (String.eqb (flag_platform f) "kuaishou") eqn:Hk;
        [|discriminate]. right. now apply String.eqb_eq.
  - auto.
Qed.

(** Run with [-concurrency 0], a [main] that gets to [Start] never comes
    back from it and crawls nothing. *)
Theorem main_without_workers (f : flags) (scraperReady dirMade : bool)
  (cfg : Config) (userIDs : list string) :
  flag_concurrency f = 0 ->
  main_run f scraperReady dirMade = Starts cfg userIDs ->
  forall s, reachable cfg userIDs s ->
    main s <> Finished /\ received s = [] /\ processed s = [].
Proof.
  intros Hzero Hrun s Hs.
  assert (Hcfg : Concurrency cfg = 0 /\ userIDs <> []).
  { unfold main_run in Hrun.
    destruct (String.eqb (flag_cookies f) EmptyString); [discriminate|].
    destruct (String.eqb (flag_users f) EmptyString) eqn:Hu; [discriminate|].
    destruct (flag_concurrency f <? 0); [discriminate|].
    destruct (Initialize _ _ _); [discriminate|].
    injection Hrun as <- <-. split; [exact Hzero|].
    apply String.eqb_neq in Hu. now apply userIDList_spec. }
  destruct Hcfg as [Hc Hne].
  destruct (no_workers_invariant cfg userIDs s Hc Hne Hs)
    as (Hmain & _ & _ & Hr & Hp).
  split; [|auto]. destruct Hmain as [-> | ->]; discriminate.
Qed.

End MainFacts.

Lemma Start_without_workers_witness :
  exists s,
    Crawl.reachable (Crawl.mkConfig 0 "Mozilla/5.0" 30 3 "sid=1" "kuaishou" "output")
      Fixtures.two_seeds s /\
    forall s', ~ Crawl.step (Crawl.mkConfig 0 "Mozilla/5.0" 30 3 "sid=1" "kuaishou" "output")
                   Fixtures.two_seeds s s'.
Proof.
  apply (Start_without_workers
           (Crawl.mkConfig 0 "Mozilla/5.0" 30 3 "sid=1" "kuaishou" "output")
           Fixtures.two_seeds).
  - reflexivity.
  - discriminate.
Defined.

Lemma main_seeds_witness :
  exists cfg,
    CrawlRuns.main_run MoreFixtures.no_workers true true =
      CrawlRuns.Starts cfg ["u1,u2"] /\
    Crawl.Concurrency cfg = 0.
Proof.
  exists (Crawl.mkConfig 0 CrawlRuns.mainUserAgent 30 3 "sid=1" "douyin" "output").
  assert (Hrun : CrawlRuns.main_run MoreFixtures.no_workers true true =
                 CrawlRuns.Starts
                   (Crawl.mkConfig 0 CrawlRuns.mainUserAgent 30 3 "sid=1" "douyin" "output")
                   ["u1,u2"]) by reflexivity.
  split; [exact Hrun|].
  destruct (main_seeds _ _ _ _ _ Hrun) as (_ & _ & _ & _ & _ & _ & _ & Hc & _).
  exact Hc.
Defined.

Lemma main_without_workers_witness :
  let cfg := Crawl.mkConfig 0 CrawlRuns.mainUserAgent 30 3 "sid=1" "douyin" "output" in
  let s := Crawl.mkRun (Crawl.Sending ["u1,u2"]) [] false [] 0 [] [] in
  Crawl.reachable cfg ["u1,u2"] s /\ Crawl.main s <> Crawl.Finished.
Proof.
  intros cfg s.
  assert (Hs : Crawl.reachable cfg ["u1,u2"] s).
  { eapply rtc_l; [|apply rtc_refl]. apply Crawl.step_main. reflexivity. }
  split; [exact Hs|].
  apply (main_without_workers MoreFixtures.no_workers true true cfg
           ["u1,u2"] eq_refl eq_refl s Hs).
Defined.
